(** * The Quorum: agent memory and streaming orchestration

    A shallow embedding of the memory-store operations of
    [standalone-dashboard/src/lib/db.ts] (chunker, embedding ingestion,
    observation upsert) and of the route handlers that drive them
    ([api/documents/upload], [api/chat], [api/quorum]), together with the
    properties the specification states about them.

    The database is taken to be reachable and to evaluate each statement
    as PostgreSQL does.  For the upload, observations, chat and quorum
    routes its refusal of a text that holds U+0000 is modelled, with what
    each route makes of the failure. *)

From Stdlib Require Import List String Ascii ZArith NArith Lia Bool Arith.
From Stdlib Require Import DecimalString DecimalNat.
From Stdlib Require Import Sorting.Sorted Sorting.Permutation.
Import ListNotations.

Local Open Scope string_scope.
Local Open Scope Z_scope.

(** ** JavaScript string primitives

    Strings are sequences of units; [String.length] and [substring] play the
    roles of [.length] and of the clamped copy at the heart of [.slice]. *)

Module JS.

Definition len (s : string) : Z := Z.of_nat (String.length s).

(** [String.prototype.slice(a, b)]: a negative index counts from the end,
    both indices are clamped into [0, len], and an inverted range is empty. *)
Definition slice (s : string) (a b : Z) : string :=
  let from := if a <? 0 then Z.max (len s + a) 0 else Z.min a (len s) in
  let to := if b <? 0 then Z.max (len s + b) 0 else Z.min b (len s) in
  substring (Z.to_nat from) (Z.to_nat (Z.max (to - from) 0)) s.

(** Template interpolation of a loop index, [`${i}`]. *)
Definition of_nat (i : nat) : string := NilEmpty.string_of_uint (Nat.to_uint i).

(** [a.join('')] for an array of strings. *)
Definition join (l : list string) : string := fold_right String.append "" l.

(** [`${code}`] for an exit code: a number, or [null]. *)
Definition of_code (code : option Z) : string :=
  match code with
  | None => "null"
  | Some z => NilEmpty.string_of_int (Z.to_int z)
  end.

Definition lower (c : ascii) : ascii :=
  let n := nat_of_ascii c in
  if (Nat.leb 65 n && Nat.leb n 90)%bool then ascii_of_nat (n + 32) else c.

Fixpoint toLowerCase (s : string) : string :=
  match s with
  | EmptyString => EmptyString
  | String c s' => String (lower c) (toLowerCase s')
  end.

Definition endsWith (s suffix : string) : bool :=
  let n := String.length s in
  let m := String.length suffix in
  (Nat.leb m n && String.eqb (substring (n - m) m s) suffix)%bool.

(** The white space and line terminators that [trim] strips, as far as
    they are units below 256: U+0009 to U+000D, the space and the no-break
    space U+00A0. *)
Definition is_space (c : ascii) : bool :=
  let n := nat_of_ascii c in
  (Nat.eqb n 32 || (Nat.leb 9 n && Nat.leb n 13) || Nat.eqb n 160)%bool.

Fixpoint trimStart (s : string) : string :=
  match s with
  | EmptyString => EmptyString
  | String c s' => if is_space c then trimStart s' else s
  end.

Fixpoint trimEnd (s : string) : string :=
  match s with
  | EmptyString => EmptyString
  | String c s' =>
      match trimEnd s' with
      | EmptyString => if is_space c then EmptyString else String c EmptyString
      | t => String c t
      end
  end.

Definition trim (s : string) : string := trimEnd (trimStart s).

(** [s.repeat(n)]. *)
Fixpoint repeat (s : string) (n : nat) : string :=
  match n with
  | O => EmptyString
  | S n' => s ++ repeat s n'
  end.

End JS.

(** ** SHA-256 (FIPS 180-4)

    The hash behind [createHash('sha256').update(s).digest('hex')] of
    Node's crypto module, on a string of bytes, one character a byte.
    Node hashes the UTF-8 encoding of [s]: for text in ASCII that is the
    text itself, and [hexdigest] is the digest of the code; for every
    other text the digest of the code is [Utf16.contentHash] below, which
    encodes first.  The functions of this development take the digest as
    a parameter.  Words are numbers below [2^32]; the round constants are
    computed from the primes as the standard defines them. *)

Module SHA256.

Local Open Scope N_scope.

Definition w32 : N := 2 ^ 32.
Definition add32 (a b : N) : N := (a + b) mod w32.
Definition rotr (n x : N) : N :=
  N.lor (N.shiftr x n) (N.shiftl x (32 - n) mod w32).
Definition not32 (x : N) : N := N.lxor x (w32 - 1).

Definition Ch (x y z : N) : N := N.lxor (N.land x y) (N.land (not32 x) z).
Definition Maj (x y z : N) : N :=
  N.lxor (N.lxor (N.land x y) (N.land x z)) (N.land y z).
Definition Sigma0 (x : N) : N := N.lxor (N.lxor (rotr 2 x) (rotr 13 x)) (rotr 22 x).
Definition Sigma1 (x : N) : N := N.lxor (N.lxor (rotr 6 x) (rotr 11 x)) (rotr 25 x).
Definition sigma0 (x : N) : N := N.lxor (N.lxor (rotr 7 x) (rotr 18 x)) (N.shiftr x 3).
Definition sigma1 (x : N) : N := N.lxor (N.lxor (rotr 17 x) (rotr 19 x)) (N.shiftr x 10).

Definition is_prime (p : nat) : bool :=
  forallb (fun d => negb (Nat.eqb (Nat.modulo p d) 0)) (seq 2 (p - 2)).
Definition primes64 : list N :=
  Eval vm_compute in map N.of_nat (filter is_prime (seq 2 310)).

(** Integer cube root, one bit at a time from bit 35 down. *)
Definition icbrt (n : N) : N :=
  fold_left (fun r i => let r' := r + 2 ^ N.of_nat i in
                        if r' * r' * r' <=? n then r' else r)
            (rev (seq 0 36)) 0.

(** Initial hash value: the fractional parts of the square roots of the
    first eight primes; round constants: those of the cube roots of the
    first sixty-four. *)
Definition H0 : list N :=
  Eval vm_compute in map (fun p => N.sqrt (p * 2 ^ 64) mod w32) (firstn 8 primes64).
Definition K : list N :=
  Eval vm_compute in map (fun p => icbrt (p * 2 ^ 96) mod w32) primes64.

Definition be_bytes (n : nat) (x : N) : list N :=
  map (fun i => N.shiftr x (8 * N.of_nat i) mod 256) (rev (seq 0 n)).

Definition pad (msg : list N) : list N :=
  let l := List.length msg in
  let k := Nat.modulo (64 - Nat.modulo (l + 9) 64) 64 in
  msg ++ [128] ++ repeat 0 k ++ be_bytes 8 (8 * N.of_nat l).

Fixpoint words (bs : list N) : list N :=
  match bs with
  | a :: b :: c :: d :: bs' =>
      (N.shiftl a 24 + N.shiftl b 16 + N.shiftl c 8 + d) :: words bs'
  | _ => []
  end.

(** The message schedule, newest word first while it grows. *)
Fixpoint extend (n : nat) (rev_w : list N) : list N :=
  match n with
  | O => rev_w
  | S n' =>
      let at_ i := nth i rev_w 0 in
      extend n' (add32 (add32 (sigma1 (at_ 1%nat)) (at_ 6%nat))
                       (add32 (sigma0 (at_ 14%nat)) (at_ 15%nat)) :: rev_w)
  end.
Definition schedule (block : list N) : list N := rev (extend 48 (rev block)).

Record regs := mkRegs { ra : N; rb : N; rc : N; rd : N; re : N; rf : N; rg : N; rh : N }.

Definition round (s : regs) (kw : N * N) : regs :=
  let t1 := add32 (add32 (add32 (rh s) (Sigma1 (re s))) (Ch (re s) (rf s) (rg s)))
                  (add32 (fst kw) (snd kw)) in
  let t2 := add32 (Sigma0 (ra s)) (Maj (ra s) (rb s) (rc s)) in
  mkRegs (add32 t1 t2) (ra s) (rb s) (rc s) (add32 (rd s) t1) (re s) (rf s) (rg s).

Definition regs_of (h : list N) : regs :=
  let at_ i := nth i h 0 in
  mkRegs (at_ 0%nat) (at_ 1%nat) (at_ 2%nat) (at_ 3%nat)
         (at_ 4%nat) (at_ 5%nat) (at_ 6%nat) (at_ 7%nat).
Definition list_of (s : regs) : list N :=
  [ra s; rb s; rc s; rd s; re s; rf s; rg s; rh s].

Definition compress (h : list N) (block : list N) : list N :=
  let s := fold_left round (combine K (schedule block)) (regs_of h) in
  map (fun p => add32 (fst p) (snd p)) (combine h (list_of s)).

Fixpoint blocks (n : nat) (ws : list N) : list (list N) :=
  match n with
  | O => []
  | S n' => firstn 16 ws :: blocks n' (skipn 16 ws)
  end.

Definition digest_words (msg : list N) : list N :=
  let ws := words (pad msg) in
  fold_left compress (blocks (Nat.div (List.length ws) 16) ws) H0.

Definition hex_digit (n : N) : ascii :=
  if n <? 10 then ascii_of_N (48 + n) else ascii_of_N (87 + n).
Definition hex_byte (b : N) : list ascii := [hex_digit (b / 16); hex_digit (b mod 16)].

Definition hexdigest (s : string) : string :=
  string_of_list_ascii
    (flat_map hex_byte
       (flat_map (be_bytes 4)
          (digest_words (map N_of_ascii (list_ascii_of_string s))))).

End SHA256.

(** ** The chunker ([chunkText], db.ts)

    The [while] loop is kept as a loop: a state, a guard, a body, and a
    runner bounded by fuel that answers [None] when the fuel runs out
    before the guard turns false. *)

Module Chunker.

Record loop_state := mkLoop { start : Z; chunks : list string }.

Definition loop_init : loop_state := mkLoop 0 [].

Definition loop_guard (text : string) (st : loop_state) : bool :=
  start st <? JS.len text.

Definition loop_body (text : string) (chunkSize overlap : Z) (st : loop_state)
  : loop_state :=
  mkLoop (start st + (chunkSize - overlap))
         (chunks st ++ [JS.slice text (start st) (start st + chunkSize)]).

Fixpoint while (fuel : nat) (text : string) (chunkSize overlap : Z)
  (st : loop_state) : option loop_state :=
  if loop_guard text st then
    match fuel with
    | O => None
    | S fuel' => while fuel' text chunkSize overlap (loop_body text chunkSize overlap st)
    end
  else Some st.

Definition chunkText (fuel : nat) (text : string) (chunkSize overlap : Z)
  : option (list string) :=
  if JS.len text <=? chunkSize then Some [text]
  else option_map chunks (while fuel text chunkSize overlap loop_init).

(** The state reached after [n] turns of the loop body, guard or no guard. *)
Fixpoint iterate (n : nat) (text : string) (chunkSize overlap : Z)
  (st : loop_state) : loop_state :=
  match n with
  | O => st
  | S n' => iterate n' text chunkSize overlap (loop_body text chunkSize overlap st)
  end.

(** The part of chunk [i] that the previous chunk does not already hold:
    everything for the first chunk, the chunk minus its leading [overlap]
    units for the others. *)
Definition distinct_region (overlap : Z) (i : nat) (chunk : string) : string :=
  match i with
  | O => chunk
  | S _ => JS.slice chunk overlap (JS.len chunk)
  end.

Fixpoint distinct_regions_from (overlap : Z) (i : nat) (cs : list string)
  : list string :=
  match cs with
  | [] => []
  | c :: cs' => distinct_region overlap i c :: distinct_regions_from overlap (S i) cs'
  end.

Definition distinct_regions (overlap : Z) (cs : list string) : list string :=
  distinct_regions_from overlap 0 cs.

(** Number of turns the loop takes from offset [s] with a positive step. *)
Definition turns (text : string) (step s : Z) : nat :=
  Z.to_nat ((JS.len text - s + step - 1) / step).

(** The span the loop cuts at its [i]-th turn. *)
Definition span (text : string) (chunkSize overlap : Z) (i : nat) : string :=
  JS.slice text (Z.of_nat i * (chunkSize - overlap))
                (Z.of_nat i * (chunkSize - overlap) + chunkSize).

(** No amount of fuel lets the call return. *)
Definition diverges (text : string) (chunkSize overlap : Z) : Prop :=
  forall fuel, chunkText fuel text chunkSize overlap = None.

End Chunker.

(** ** SQL pieces shared by the tables *)

Module SQL.

(** [s LIKE p]: [%] stands for any run of characters, [_] for exactly one
    character, every other character for itself (the patterns of this
    program escape nothing). *)
Fixpoint like (p s : string) {struct p} : bool :=
  match p with
  | EmptyString => match s with EmptyString => true | _ => false end
  | String c p' =>
      if Ascii.eqb c "%" then
        (fix any (t : string) : bool :=
           like p' t || match t with
                        | EmptyString => false
                        | String _ t' => any t'
                        end) s
      else if Ascii.eqb c "_" then
        match s with EmptyString => false | String _ s' => like p' s' end
      else
        match s with
        | EmptyString => false
        | String d s' => Ascii.eqb c d && like p' s'
        end
  end.

(** Three-valued [x IN (v1, ..., vn)]: [None] is SQL's NULL / unknown. *)
Fixpoint sql_in (x : option string) (vs : list (option string)) : option bool :=
  match x, vs with
  | None, _ => None
  | Some _, [] => Some false
  | Some a, v :: vs' =>
      match v, sql_in x vs' with
      | Some b, r => if String.eqb a b then Some true else r
      | None, Some true => Some true
      | None, _ => None
      end
  end.

(** A CHECK constraint rejects a row only when its condition is false. *)
Definition check (c : option bool) : bool :=
  match c with Some false => false | _ => true end.

(** PostgreSQL takes no text value that holds U+0000, as a parameter or
    inside a JSON value: the statement fails. *)
Fixpoint text_ok (s : string) : bool :=
  match s with
  | EmptyString => true
  | String c s' => negb (Ascii.eqb c zero) && text_ok s'
  end.

Definition null_or_ok (x : option string) : bool :=
  match x with Some s => text_ok s | None => true end.

End SQL.

(** ** The embedding ingestion pipeline ([generateAndStoreEmbedding], db.ts) *)

Module Embeddings.

Section WithVector.

(** The vector the provider answers with ([number[]]). *)
Variable vector : Type.

(** A row of [quorum_embeddings], the columns the pipeline writes. *)
Record row := mkRow {
  ref_id : string;
  ref_type : string;
  embedding : vector;
  content_hash : string;
  created_at : Z
}.

Definition table := list row.

Definition same_key (a b : row) : bool :=
  String.eqb (ref_type a) (ref_type b) && String.eqb (ref_id a) (ref_id b).

Definition key (r : row) : string * string := (ref_id r, ref_type r).

(** [WHERE ref_id = $1 AND (ref_type = 'document' OR ref_type LIKE
    'document_chunk_%')] *)
Definition document_family (docId : string) (r : row) : bool :=
  String.eqb (ref_id r) docId
  && (String.eqb (ref_type r) "document"
      || SQL.like "document_chunk_%" (ref_type r)).

Definition delete_document_embeddings (docId : string) (t : table) : table :=
  filter (fun r => negb (document_family docId r)) t.

(** [INSERT ... ON CONFLICT (ref_type, ref_id) DO UPDATE SET embedding,
    content_hash, created_at]. *)
Definition upsert (new : row) (t : table) : table :=
  if existsb (same_key new) t then
    map (fun r => if same_key new r
                  then mkRow (ref_id r) (ref_type r) (embedding new)
                             (content_hash new) (created_at new)
                  else r) t
  else (t ++ [new])%list.

(** What one call to the provider comes to: a response that is [ok] and
    carries a vector, a response that is not [ok], or an exception (the
    request itself fails, or the body is not the expected JSON). *)
Inductive response :=
| Ok (embedding : vector)
| NotOk
| Throws.

(** How the call ends: [return b], or an exception leaves it. *)
Inductive outcome :=
| Returned (b : bool)
| Threw.

Section WithEnvironment.

Variable digest : string -> string.      (* sha256, hex *)
Variable provider : nat -> string -> response. (* i-th request, its prompt *)
Variable now : nat -> Z.                  (* now() at the i-th insert *)

Definition refType (nchunks i : nat) : string :=
  if Nat.eqb nchunks 1 then "document" else "document_chunk_" ++ JS.of_nat i.

(** The [for] loop from index [i] on, over the chunks still to embed. *)
Fixpoint embed_from (docId : string) (nchunks i : nat) (rest : list string)
  (t : table) : table * outcome :=
  match rest with
  | [] => (t, Returned true)
  | c :: rest' =>
      match provider i c with
      | Throws => (t, Threw)
      | NotOk => (t, Returned false)
      | Ok v =>
          embed_from docId nchunks (S i) rest'
            (upsert (mkRow docId (refType nchunks i) v (digest c) (now i)) t)
      end
  end.

(** The chunks the pipeline embeds; [None] when [chunkText] has not
    returned within [S (length content)] turns of its loop. *)
Definition chunks_of (content : string) : option (list string) :=
  if 2000 <? JS.len content
  then Chunker.chunkText (S (String.length content)) content 500 50
  else Some [content].

Definition generateAndStoreEmbedding (docId content : string) (t : table)
  : option (table * outcome) :=
  let t1 := delete_document_embeddings docId t in
  match chunks_of content with
  | None => None
  | Some chunks => Some (embed_from docId (List.length chunks) 0 chunks t1)
  end.

(** The rows the loop has stored when it stops, and how it stops: the
    same walk over the chunks, read off without the table. *)
Fixpoint stored_from (docId : string) (nchunks i : nat) (rest : list string)
  : list row :=
  match rest with
  | [] => []
  | c :: rest' =>
      match provider i c with
      | Ok v => mkRow docId (refType nchunks i) v (digest c) (now i)
                  :: stored_from docId nchunks (S i) rest'
      | _ => []
      end
  end.

Fixpoint ending_from (i : nat) (rest : list string) : outcome :=
  match rest with
  | [] => Returned true
  | c :: rest' =>
      match provider i c with
      | Ok _ => ending_from (S i) rest'
      | NotOk => Returned false
      | Throws => Threw
      end
  end.

(** Row [r] is the one the loop writes for chunk [c] at index [i]. *)
Definition row_for (docId : string) (nchunks : nat) (ic : nat * string) (r : row)
  : Prop :=
  ref_id r = docId
  /\ ref_type r = refType nchunks (fst ic)
  /\ provider (fst ic) (snd ic) = Ok (embedding r)
  /\ content_hash r = digest (snd ic)
  /\ created_at r = now (fst ic).

(** The provider answers the first [k] requests for [chunks] with a
    vector. *)
Definition succeeds_before (k : nat) (chunks : list string) : Prop :=
  forall j, (j < k)%nat -> exists v, provider j (nth j chunks "") = Ok v.

(** The provider answers every request of a run over [content] with a
    vector. *)
Definition succeeds (content : string) : Prop :=
  forall chunks, chunks_of content = Some chunks ->
                 succeeds_before (List.length chunks) chunks.

End WithEnvironment.

(** The rows of a document's family held by the table, and the rest. *)
Definition rows_of (docId : string) (t : table) : table :=
  filter (document_family docId) t.
Definition other_rows (docId : string) (t : table) : table :=
  filter (fun r => negb (document_family docId r)) t.

Definition failed (r : response) : Prop :=
  match r with Ok _ => False | _ => True end.

Definition ending_of (r : response) : outcome :=
  match r with NotOk => Returned false | Throws => Threw | Ok _ => Returned true end.

End WithVector.

Arguments mkRow {vector}.
Arguments ref_id {vector}.
Arguments ref_type {vector}.
Arguments embedding {vector}.
Arguments content_hash {vector}.
Arguments created_at {vector}.
Arguments Ok {vector}.
Arguments NotOk {vector}.
Arguments Throws {vector}.
Arguments key {vector}.
Arguments same_key {vector}.
Arguments document_family {vector}.
Arguments delete_document_embeddings {vector}.
Arguments upsert {vector}.
Arguments embed_from {vector}.
Arguments generateAndStoreEmbedding {vector}.
Arguments rows_of {vector}.
Arguments other_rows {vector}.
Arguments stored_from {vector}.
Arguments ending_from {vector}.
Arguments row_for {vector}.
Arguments succeeds_before {vector}.
Arguments succeeds {vector}.
Arguments failed {vector}.
Arguments ending_of {vector}.

End Embeddings.

(** ** Observations ([createObservation], db.ts; table and indexes from the
    observations migration) *)

Module Observations.

(** A row of [quorum_observations]. *)
Record observation := mkObservation {
  id : string;
  category : string;
  content : string;
  source_agent : string;
  severity : string;
  status : string;
  ref_id : option string;
  ref_type : option string;
  fingerprint : string;
  metadata : string;          (* JSONB, as its text *)
  created_at : Z;
  updated_at : Z
}.

Definition table := list observation.

(** The argument of [createObservation]; [None] is an absent field. *)
Record data := mkData {
  d_category : string;
  d_content : string;
  d_source_agent : string;
  d_severity : option string;
  d_status : option string;
  d_ref_id : option string;
  d_ref_type : option string;
  d_metadata : option string
}.

Definition or_default (x : option string) (d : string) : string :=
  match x with Some v => v | None => d end.

(** The CHECK constraints of the table, on the values of one INSERT. *)
Definition valid_categories : list (option string) :=
  map Some ["critique"; "risk"; "insight"; "recommendation"; "issue";
            "improvement"; "other"].
Definition valid_severities : list (option string) :=
  map Some ["info"; "low"; "medium"; "high"; "critical"].
Definition valid_statuses : list (option string) :=
  map Some ["open"; "acknowledged"; "addressed"; "dismissed"].
Definition valid_ref_types : list (option string) :=
  (map Some ["document"; "task"; "event"; "agent_run"; "observation"] ++ [None])%list.

Definition checks (d : data) : bool :=
  SQL.check (SQL.sql_in (Some (d_category d)) valid_categories)
  && SQL.check (SQL.sql_in (Some (or_default (d_severity d) "info")) valid_severities)
  && SQL.check (SQL.sql_in (Some (or_default (d_status d) "open")) valid_statuses)
  && SQL.check (SQL.sql_in (d_ref_type d) valid_ref_types).

(** How a call ends: the table after it and the row it returns, or the
    error the database raises for a violated CHECK constraint. *)
Inductive result :=
| Stored (t : table) (returned : observation)
| CheckViolation.

Section WithDigest.

Variable digest : string -> string.   (* sha256, hex *)

Definition fingerprintData (d : data) : string :=
  d_category d ++ ":" ++ d_source_agent d ++ ":" ++ d_content d.

Definition fingerprint_of (d : data) : string := digest (fingerprintData d).

Definition has_fingerprint (fp : string) (r : observation) : bool :=
  String.eqb (fingerprint r) fp.

(** [DO UPDATE SET content, metadata, updated_at]. *)
Definition on_conflict (d : data) (now : Z) (r : observation) : observation :=
  mkObservation (id r) (category r) (d_content d) (source_agent r) (severity r)
    (status r) (ref_id r) (ref_type r) (fingerprint r)
    (or_default (d_metadata d) "{}") (created_at r) now.

(** [newid] is what [gen_random_uuid()] gives, [now] what [now()] gives,
    for this statement. *)
Definition createObservation (newid : string) (now : Z) (d : data) (t : table)
  : result :=
  if negb (checks d) then CheckViolation
  else
    let fp := fingerprint_of d in
    match find (has_fingerprint fp) t with
    | Some old =>
        Stored (map (fun r => if has_fingerprint fp r then on_conflict d now r else r) t)
               (on_conflict d now old)
    | None =>
        let r := mkObservation newid (d_category d) (d_content d)
                   (d_source_agent d) (or_default (d_severity d) "info")
                   (or_default (d_status d) "open") (d_ref_id d) (d_ref_type d)
                   fp (or_default (d_metadata d) "{}") now now in
        Stored (t ++ [r])%list r
    end.

End WithDigest.

(** The unique index on [fingerprint]. *)
Definition fingerprint_unique (t : table) : Prop := NoDup (map fingerprint t).

Definition same_triple (d1 d2 : data) : Prop :=
  d_category d1 = d_category d2
  /\ d_source_agent d1 = d_source_agent d2
  /\ d_content d1 = d_content d2.

End Observations.

(** ** Document upload ([POST], api/documents/upload/route.ts) *)

Module Upload.

(** A row of [quorum_documents]; metadata as its key/value pairs. *)
Record document := mkDocument {
  id : string;
  doc_type : string;
  title : string;
  content : string;
  metadata : list (string * string);
  tags : list string
}.

Record file := mkFile {
  name : string;
  type : string;
  size : nat;
  utf8 : string       (* buffer.toString('utf-8') *)
}.

(** What the PDF parser comes to: the text, or an exception that may
    carry a message. *)
Inductive pdf_result :=
| PdfText (text : string)
| PdfFails (message : option string).

Inductive request :=
| Multipart (f : option file) (title docType tagsJson : option string)
| JsonBody (title content doc_type : option string) (tags : option (list string)).

Inductive body :=
| ErrorBody (error : string)
| Uploaded (document_id : string) (embedded : bool).

Record response := Json { payload : body; http_status : nat }.

(** What the database makes of the row's values: it takes no U+0000, in a
    text column, in a string of the JSON metadata or in a tag. *)
Definition admits (doc : document) : bool :=
  SQL.text_ok (title doc) && SQL.text_ok (content doc) && SQL.text_ok (doc_type doc)
  && forallb (fun kv => SQL.text_ok (snd kv)) (metadata doc)
  && forallb SQL.text_ok (tags doc).

(** The flag the handler answers with, from how the embedding call ended:
    what it returned, or [false] when an exception left it. *)
Definition flag_of (o : Embeddings.outcome) : bool :=
  match o with Embeddings.Returned b => b | Embeddings.Threw => false end.

Section WithEnvironment.

Variable vector : Type.
Variable digest : string -> string.
Variable provider : nat -> string -> Embeddings.response vector.
Variable now : nat -> Z.
Variable uuid : nat -> string.                      (* gen_random_uuid() *)
Variable pdf_parse : file -> pdf_result.            (* PDFParse(...).getText() *)
Variable json_parse : string -> option (list string). (* JSON.parse; None: throws *)

Record db := mkDb {
  documents : list document;
  embeddings : Embeddings.table vector
}.

(** db.ts, [storeDocumentFromUpload]; [None] when the database refuses the
    row and the call throws. *)
Definition storeDocumentFromUpload (title content doc_type : string)
  (metadata : list (string * string)) (tags : list string) (d : db)
  : option (db * document) :=
  let row := mkDocument (uuid (List.length (documents d))) doc_type title content
               metadata tags in
  if admits row then Some (mkDb (documents d ++ [row]) (embeddings d), row)
  else None.

(** The tail both branches share: insert the document, try to embed it,
    answer with the flag.  An insert that throws is outside the inner
    [try] and reaches the handler's own [catch]. *)
Definition store_and_embed (title content doc_type : string)
  (metadata : list (string * string)) (tags : list string) (d : db)
  : option (db * response) :=
  match storeDocumentFromUpload title content doc_type metadata tags d with
  | None => Some (d, Json (ErrorBody "Failed to upload document") 500)
  | Some (d1, document) =>
      match Embeddings.generateAndStoreEmbedding digest provider now
              (id document) content (embeddings d1) with
      | None => None
      | Some (t, Embeddings.Returned b) =>
          Some (mkDb (documents d1) t, Json (Uploaded (id document) b) 200)
      | Some (t, Embeddings.Threw) =>
          Some (mkDb (documents d1) t, Json (Uploaded (id document) false) 200)
      end
  end.

Definition bad_request (d : db) (msg : string) : option (db * response) :=
  Some (d, Json (ErrorBody msg) 400).

Definition POST (req : request) (d : db) : option (db * response) :=
  match req with
  | Multipart None _ _ _ => bad_request d "No file provided"
  | Multipart (Some f) title docType tagsJson =>
      match title, docType with
      | Some title, Some docType =>
          if (String.eqb title "" || String.eqb docType "")%bool
          then bad_request d "Missing required fields: title, doc_type"
          else
            let with_content (content : string) :=
              let tags := match tagsJson with
                          | Some j => if String.eqb j "" then Some [] else json_parse j
                          | None => Some []
                          end in
              match tags with
              | None => Some (d, Json (ErrorBody "Failed to upload document") 500)
              | Some tags =>
                  store_and_embed title content docType
                    [("filename", name f); ("file_type", type f);
                     ("file_size", JS.of_nat (size f))] tags d
              end in
            if JS.endsWith (JS.toLowerCase (name f)) ".pdf" then
              match pdf_parse f with
              | PdfText text =>
                  if String.eqb (JS.trim text) ""
                  then bad_request d "Could not extract text from PDF. The PDF may be scanned or contain images only."
                  else with_content (JS.trim text)
              | PdfFails (Some message) => bad_request d message
              | PdfFails None => bad_request d "Failed to parse PDF file"
              end
            else with_content (utf8 f)
      | _, _ => bad_request d "Missing required fields: title, doc_type"
      end
  | JsonBody title content doc_type tags =>
      match title, content, doc_type with
      | Some title, Some content, Some doc_type =>
          if (String.eqb title "" || String.eqb content "" || String.eqb doc_type "")%bool
          then bad_request d "Missing required fields: title, content, doc_type"
          else store_and_embed title content doc_type []
                 (match tags with Some ts => ts | None => [] end) d
      | _, _, _ => bad_request d "Missing required fields: title, content, doc_type"
      end
  end.

End WithEnvironment.

Arguments mkDb {vector}.
Arguments documents {vector}.
Arguments embeddings {vector}.
Arguments POST {vector}.
Arguments store_and_embed {vector}.
Arguments storeDocumentFromUpload {vector}.
Arguments bad_request {vector}.

End Upload.

(** ** The streaming routes ([POST], api/chat/route.ts and
    api/quorum/route.ts)

    A request spawns one process; the handlers registered on it run as
    the process reports data, an error, or its close, and as the safety
    timer fires. *)

Module Orchestrator.

(** A row of [quorum_events]. *)
Record event := mkEvent {
  id : string;
  event_type : string;
  title : string;
  description : string;
  metadata : list (string * string);
  thread_id : option string;
  thread_title : option string
}.

Inductive sender := User | Agent | Council.

(** What the database makes of a row: it takes no U+0000, in a text
    column or in a string of the JSON metadata, and fails the INSERT. *)
Definition admits (e : event) : bool :=
  SQL.text_ok (title e) && SQL.text_ok (description e)
  && forallb (fun kv => SQL.text_ok (snd kv)) (metadata e)
  && SQL.null_or_ok (thread_id e) && SQL.null_or_ok (thread_title e).

(** What the spawned process reports, in the order the handlers see it. *)
Inductive proc_event :=
| Stdout (text : string)
| Stderr (text : string)
| ProcError
| Close (code : option Z)     (* [None]: closed by a signal, code is null *)
| TimerFires.

(** What the handlers share: the closure variable [fullResponse], the
    response stream and its controller, the timer, and the events table. *)
Record stream := mkStream {
  fullResponse : string;
  enqueued : list string;
  closed : bool;
  timer : bool;
  killed : bool;
  store : list event
}.

(** A handler is a sequence of statements; [false] in the result says an
    exception left it, with the state as it was at that point. *)
Definition step := stream -> stream * bool.

Definition andThen (a b : step) : step :=
  fun s => let (s1, ok) := a s in if ok then b s1 else (s1, false).
Notation "a ;; b" := (andThen a b) (at level 61, right associativity).

Definition skip : step := fun s => (s, true).
Definition when (c : stream -> bool) (a : step) : step :=
  fun s => if c s then a s else skip s.

Definition clearTimeout : step :=
  fun s => (mkStream (fullResponse s) (enqueued s) (closed s) false (killed s) (store s), true).
Definition kill : step :=
  fun s => (mkStream (fullResponse s) (enqueued s) (closed s) (timer s) true (store s), true).
Definition assign (text : string) : step :=
  fun s => (mkStream text (enqueued s) (closed s) (timer s) (killed s) (store s), true).
Definition append (text : string) : step :=
  fun s => assign (fullResponse s ++ text) s.
(** [streamController.enqueue] and [.close] throw on a closed stream. *)
Definition enqueue (text : string) : step :=
  fun s => if closed s then (s, false)
           else (mkStream (fullResponse s) (enqueued s ++ [text]) false (timer s)
                          (killed s) (store s), true).
Definition close : step :=
  fun s => if closed s then (s, false)
           else (mkStream (fullResponse s) (enqueued s) true (timer s) (killed s)
                          (store s), true).
(** The store call of the handlers, [store(...).catch(log)]: it is not
    awaited and its failure is only logged, so it never throws into the
    handler.  [insert] gives the events table once the call has settled:
    with the new row, or as it was when the database refused the row. *)
Definition persist (insert : string -> list event -> list event) : step :=
  fun s => (mkStream (fullResponse s) (enqueued s) (closed s) (timer s) (killed s)
                     (insert (fullResponse s) (store s)), true).

Definition empty (s : stream) : bool := JS.len (fullResponse s) =? 0.
Definition nonzero (code : option Z) : bool :=
  match code with Some 0 => false | _ => true end.

Section Handlers.

Variable unavailable : string.                 (* the fallback of [on('error')] *)
Variable exited : option Z -> string.          (* the fallback of [on('close')] *)
Variable insert : string -> list event -> list event. (* the agent-side store *)

Definition onData (text : string) : step := append text ;; enqueue text.

Definition onError : step :=
  clearTimeout ;;
  when empty (assign unavailable ;; enqueue unavailable) ;;
  persist insert ;;
  close.

Definition onClose (code : option Z) : step :=
  clearTimeout ;;
  when (fun s => nonzero code && empty s) (assign (exited code) ;; enqueue (exited code)) ;;
  when (fun s => negb (empty s)) (persist insert) ;;
  close.

(** The timer's callback, [proc.kill('SIGTERM')]; it runs at most once,
    and not after [clearTimeout]: running it spends the timer. *)
Definition spend : step := clearTimeout.
Definition onTimeout : step := when timer (spend ;; kill).

Definition handle (e : proc_event) : step :=
  match e with
  | Stdout text => onData text
  | Stderr _ => skip
  | ProcError => onError
  | Close code => onClose code
  | TimerFires => onTimeout
  end.

(** The handlers run one after the other; an exception that leaves one
    does not undo what it did. *)
Definition run (trace : list proc_event) (s : stream) : stream :=
  fold_left (fun s e => fst (handle e s)) trace s.

End Handlers.

(** How [spawn] ends: it throws, or the process runs and reports. *)
Inductive spawn_result :=
| SpawnThrows
| Spawned (trace : list proc_event).

Inductive response :=
| JsonError (http_status : nat) (error : string)
| JsonFallback (response : string) (event_id : string)
| Streaming (fragments : list string) (ended : bool).

Definition truthy (x : option string) : option string :=
  match x with
  | Some v => if String.eqb v "" then None else Some v
  | None => None
  end.

Section WithIds.

Variable uuid : nat -> string.      (* gen_random_uuid() for the n-th row *)

(** db.ts, [storeChatMessage]; [None] when the database refuses the row
    and the call throws. *)
Definition storeChatMessage (agent message : string) (sender : sender)
  (evs : list event) : option (list event * event) :=
  let user := match sender with User => true | _ => false end in
  let row := mkEvent (uuid (List.length evs))
               (if user then "chat_message" else "chat_response")
               ("Chat " ++ (if user then "to" else "from") ++ " " ++ agent)
               message
               [("target_agent", agent);
                ("sender", if user then "user" else "agent")]
               None None in
  if admits row then Some ((evs ++ [row])%list, row) else None.

(** db.ts, [storeQuorumMessage]; [None] when the database refuses the
    row and the call throws. *)
Definition storeQuorumMessage (message : string) (sender : sender)
  (threadId threadTitle : option string) (evs : list event)
  : option (list event * event) :=
  let user := match sender with User => true | _ => false end in
  let row := mkEvent (uuid (List.length evs))
               (if user then "quorum_chat" else "quorum_response")
               (if user then "Chat to The Quorum" else "Response from The Quorum")
               message
               [("target_agent", "quorum");
                ("sender", if user then "user" else "council")]
               threadId threadTitle in
  if admits row then Some ((evs ++ [row])%list, row) else None.

(** [insert(...).catch(e => console.error(...))]: the table after the
    call, the same table when the call failed. *)
Definition logged (insert : string -> list event -> option (list event * event))
  (message : string) (evs : list event) : list event :=
  match insert message evs with
  | Some (evs', _) => evs'
  | None => evs
  end.

(** From [spawn] on.  When [spawn] throws, the fallback is stored with
    [await] inside the [catch], so a failure of that store reaches the
    handler's own [catch]; the stores of the event handlers are logged. *)
Definition respond (spawned : spawn_result) (unavailable : string)
  (exited : option Z -> string)
  (insert : string -> list event -> option (list event * event))
  (evs : list event) : list event * response :=
  match spawned with
  | SpawnThrows =>
      match insert unavailable evs with
      | Some (evs', ev) => (evs', JsonFallback unavailable (id ev))
      | None => (evs, JsonError 500 "Internal server error")
      end
  | Spawned trace =>
      let s := run unavailable exited (logged insert) trace
                 (mkStream "" [] false true false evs) in
      (store s, Streaming (enqueued s) (closed s))
  end.

End WithIds.

Module Chat.

Definition AGENTS : list string :=
  ["connector"; "executor"; "strategist"; "devils-advocate"; "opportunist";
   "data-collector"; "closer"].
Definition getAgent (name : string) : bool := existsb (String.eqb name) AGENTS.

Definition unavailable : string :=
  "OpenClaw is not available on this machine. To enable agent chat, install OpenClaw and ensure the gateway is running.".
Definition exited (code : option Z) : string :=
  "OpenClaw exited with code " ++ JS.of_code code
  ++ ". The agent may be unavailable. Please try again.".

Definition POST (uuid : nat -> string) (agent message : option string)
  (spawned : spawn_result) (evs : list event) : list event * response :=
  match truthy agent, truthy message with
  | None, _ => (evs, JsonError 400 "Missing or invalid agent name")
  | Some _, None => (evs, JsonError 400 "Missing or invalid message")
  | Some agent, Some message =>
      if negb (getAgent agent)
      then (evs, JsonError 404 ("Unknown agent: " ++ agent))
      else
        match storeChatMessage uuid agent message User evs with
        | None => (evs, JsonError 500 "Internal server error")
        | Some (evs1, _) =>
            respond spawned unavailable exited
              (fun m => storeChatMessage uuid agent m Agent) evs1
        end
  end.

End Chat.

Module Quorum.

Definition unavailable : string :=
  "OpenClaw is not available on this machine. To enable The Quorum chat, install OpenClaw and ensure the gateway is running.".
Definition exited (code : option Z) : string :=
  "OpenClaw exited with code " ++ JS.of_code code
  ++ ". The Quorum may be unavailable. Please try again.".

Definition POST (uuid : nat -> string) (message threadId threadTitle : option string)
  (spawned : spawn_result) (evs : list event) : list event * response :=
  match truthy message with
  | None => (evs, JsonError 400 "Missing or invalid message")
  | Some message =>
      let effectiveThreadId :=
        match truthy threadId with Some t => t | None => "default" end in
      let effectiveThreadTitle :=
        match truthy threadTitle with
        | Some t => Some t
        | None => match truthy threadId with
                  | Some _ => None
                  | None => Some "Default Conversation"
                  end
        end in
      match storeQuorumMessage uuid message User (Some effectiveThreadId)
              effectiveThreadTitle evs with
      | None => (evs, JsonError 500 "Internal server error")
      | Some (evs1, _) =>
          respond spawned unavailable exited
            (fun m => storeQuorumMessage uuid m Council (Some effectiveThreadId)
                        effectiveThreadTitle) evs1
      end
  end.

End Quorum.

(** The four ways an invocation ends, with the output the process wrote
    before the end, and the reports each one comes to.  [spawn] throws for
    arguments it cannot take; a program that cannot be started is reported
    by an 'error' event, which Node follows with 'close', while an error
    of a running process (a failed kill) comes without one: [closing] is
    the code of the 'close' that follows the 'error', when one does. *)
Inductive completion :=
| SpawnFailure
| RuntimeError (output : list string) (closing : option (option Z))
| TimeoutKill (output : list string)
| Exit (output : list string) (code : Z).

Definition reports (c : completion) : spawn_result :=
  match c with
  | SpawnFailure => SpawnThrows
  | RuntimeError output closing =>
      Spawned (map Stdout output
               ++ ProcError :: match closing with
                               | Some code => [Close code]
                               | None => []
                               end)%list
  | TimeoutKill output => Spawned (map Stdout output ++ [TimerFires; Close None])%list
  | Exit output code => Spawned (map Stdout output ++ [Close (Some code)])%list
  end.

(** The process reports 'error' and then 'close': both handlers run. *)
Definition error_then_close (c : completion) : bool :=
  match c with
  | RuntimeError _ (Some _) => true
  | _ => false
  end.

Definition silent_clean_exit (c : completion) : bool :=
  match c with
  | Exit output 0 => String.eqb (JS.join output) ""
  | _ => false
  end.

(** The text an invocation leaves as its transcript: what the process
    wrote, or the fallback of the handler that ended it when it wrote
    nothing. *)
Definition transcript_text (unavailable : string) (exited : option Z -> string)
  (c : completion) : string :=
  let or_else (output : list string) (fallback : string) :=
    if String.eqb (JS.join output) "" then fallback else JS.join output in
  match c with
  | SpawnFailure => unavailable
  | RuntimeError output _ => or_else output unavailable
  | TimeoutKill output => or_else output (exited None)
  | Exit output code => or_else output (exited (Some code))
  end.

(** The rows an invocation is expected to add: the user's message, then
    the transcript unless the process ended cleanly without a word. *)
Definition is_transcript (response_type text : string) (e : event) : Prop :=
  event_type e = response_type /\ description e = text /\ text <> "".

End Orchestrator.

(** ** Scheduler policy: quiet hours *)

Module Scheduler.

Inductive tier := Observe | Act | Reflect.

(** What a run writes to the memory store. *)
Inductive write :=
| TaskRow (title : string)
| ObservationRow (category content : string)
| EventRow (title : string).

(** One thing a run found: the row it writes and, when the finding is
    worth telling the user, the text of the notification. *)
Record finding := mkFinding {
  row : write;
  alert : option string
}.

Record policy := mkPolicy {
  quietStart : Z;
  quietEnd : Z
}.

Record effects := mkEffects {
  memory : list write;          (* the store after the run *)
  notifications : list string   (* what left the system *)
}.

(** Modelled from the spec: the quiet-hours window of section 4.6,
    [[quietStart, quietEnd)] on the local hour; the agents that consult it
    are not among the sources.  The window runs forward on the clock from
    its start to its end, so past midnight when the start is the later
    hour, as it is for the hours the README gives as the defaults, 22 and
    8. *)
Definition in_quiet_hours (p : policy) (hour : Z) : bool :=
  if quietStart p <=? quietEnd p
  then (quietStart p <=? hour) && (hour <? quietEnd p)
  else (quietStart p <=? hour) || (hour <? quietEnd p).

Definition write_row (w : write) (s : effects) : effects :=
  mkEffects (memory s ++ [w]) (notifications s).

(** Modelled from the spec: the gate at the notification boundary, the
    only place the window is looked at: a notification leaves the system
    unless the hour is a quiet one. *)
Definition notify (p : policy) (hour : Z) (text : string) (s : effects) : effects :=
  if in_quiet_hours p hour then s
  else mkEffects (memory s) (notifications s ++ [text]).

(** Modelled from the spec: what a run does with one finding: it writes
    the row, then hands the alert, when there is one, to the gate. *)
Definition act_on (p : policy) (hour : Z) (s : effects) (f : finding) : effects :=
  let s1 := write_row (row f) s in
  match alert f with
  | Some text => notify p hour text s1
  | None => s1
  end.

(** Modelled from the spec: one run of an agent of any tier at local hour
    [hour]: it reads the store, judges ([analyse], the agent's reasoning),
    and acts on its findings one after the other. *)
Definition agent_run (p : policy) (t : tier) (analyse : list write -> list finding)
  (hour : Z) (store : list write) : effects :=
  fold_left (act_on p hour) (analyse store) (mkEffects store []).

End Scheduler.

(** ** ORDER BY and LIMIT

    The rows of a query in the order of a comparison, by insertion; rows
    the comparison does not tell apart keep the order of the table. *)

Module Order.

Section WithRows.

Variable A : Type.
Variable leb : A -> A -> bool.

Fixpoint insert (x : A) (l : list A) : list A :=
  match l with
  | [] => [x]
  | y :: l' => if leb x y then x :: l else y :: insert x l'
  end.

Fixpoint order_by (l : list A) : list A :=
  match l with
  | [] => []
  | x :: l' => insert x (order_by l')
  end.

Definition limit (n : nat) (l : list A) : list A := firstn n l.

(** The comparison orders any two rows, and orders them through. *)
Definition total : Prop := forall a b, leb a b = true \/ leb b a = true.
Definition transitive : Prop :=
  forall a b c, leb a b = true -> leb b c = true -> leb a c = true.

End WithRows.

Arguments insert {A}.
Arguments order_by {A}.
Arguments limit {A}.
Arguments total {A}.
Arguments transitive {A}.

End Order.

(** ** Documents and their embedding status ([deleteDocument],
    [getDocumentWithEmbeddingStatus], db.ts) *)

Module Documents.

Section WithVector.

Variable vector : Type.

(** The [EXISTS (SELECT 1 FROM quorum_embeddings ...)] of the status
    queries. *)
Definition has_embedding (docId : string) (t : Embeddings.table vector) : bool :=
  existsb (Embeddings.document_family docId) t.

Definition has_id (docId : string) (doc : Upload.document) : bool :=
  String.eqb (Upload.id doc) docId.

Definition getDocumentWithEmbeddingStatus (docId : string) (d : Upload.db vector)
  : option (Upload.document * bool) :=
  match find (has_id docId) (Upload.documents d) with
  | Some doc => Some (doc, has_embedding (Upload.id doc) (Upload.embeddings d))
  | None => None
  end.

(** The two DELETEs, and whether the second one found a row. *)
Definition deleteDocument (docId : string) (d : Upload.db vector)
  : Upload.db vector * bool :=
  (Upload.mkDb (filter (fun doc => negb (has_id docId doc)) (Upload.documents d))
               (Embeddings.delete_document_embeddings docId (Upload.embeddings d)),
   existsb (has_id docId) (Upload.documents d)).

End WithVector.

Arguments has_embedding {vector}.
Arguments getDocumentWithEmbeddingStatus {vector}.
Arguments deleteDocument {vector}.

End Documents.

(** ** Observation queries ([getObservation], [updateObservationStatus],
    [checkObservationExists], [deleteObservation], db.ts) *)

Module ObservationQueries.

Import Observations.

Definition has_id (i : string) (r : observation) : bool := String.eqb (id r) i.

Definition getObservation (i : string) (t : table) : option observation :=
  find (has_id i) t.

Definition checkObservationExists (fp : string) (t : table) : bool :=
  existsb (has_fingerprint fp) t.

Definition deleteObservation (i : string) (t : table) : table * bool :=
  (filter (fun r => negb (has_id i r)) t, existsb (has_id i) t).

(** [SET status = $1, updated_at = now()]. *)
Definition set_status (s : string) (now : Z) (r : observation) : observation :=
  mkObservation (id r) (category r) (content r) (source_agent r) (severity r)
    s (ref_id r) (ref_type r) (fingerprint r) (metadata r) (created_at r) now.

(** How the UPDATE ends: the table after it and the row it returns
    ([None]: no row has the id), or the error of the status CHECK, which
    the database evaluates on the rows it is about to write. *)
Inductive update_result :=
| Updated (t : table) (returned : option observation)
| StatusViolation.

Definition updateObservationStatus (i s : string) (now : Z) (t : table)
  : update_result :=
  match find (has_id i) t with
  | None => Updated t None
  | Some old =>
      if SQL.check (SQL.sql_in (Some s) valid_statuses)
      then Updated (map (fun r => if has_id i r then set_status s now r else r) t)
                   (Some (set_status s now old))
      else StatusViolation
  end.

(** The primary key. *)
Definition id_unique (t : table) : Prop := NoDup (map id t).

End ObservationQueries.

(** ** The observations route ([POST], api/observations/route.ts) *)

Module ObservationsRoute.

(** The fields of the request body; [None] is a missing field. *)
Record body := mkBody {
  category : option string;
  content : option string;
  source_agent : option string;
  severity : option string;
  status : option string;
  ref_id : option string;
  ref_type : option string;
  metadata : option string
}.

Inductive response :=
| Created (observation : Observations.observation)     (* 201 *)
| BadRequest (error : string)                          (* 400 *)
| ServerError (error : string).                        (* 500 *)

Definition validCategories : list string :=
  ["critique"; "risk"; "insight"; "recommendation"; "issue"; "improvement"; "other"].
Definition validSeverities : list string := ["info"; "low"; "medium"; "high"; "critical"].
Definition validStatuses : list string := ["open"; "acknowledged"; "addressed"; "dismissed"].

Definition includes (l : list string) (x : string) : bool := existsb (String.eqb x) l.

(** [x && !valid.includes(x)] *)
Definition present_and_invalid (valid : list string) (x : option string) : bool :=
  match Orchestrator.truthy x with
  | Some v => negb (includes valid v)
  | None => false
  end.

(** An optional field the route lets through: absent, or one of the
    listed values. *)
Definition absent_or_listed (valid : list string) (x : option string) : Prop :=
  x = None \/ exists v, x = Some v /\ includes valid v = true.

(** The text values the INSERT of [createObservation] is given.  When
    one of them holds U+0000 the database refuses the statement and the
    call throws; the route's [catch] answers that as it answers every
    other error of the call. *)
Definition parameters_ok (d : Observations.data) : bool :=
  SQL.text_ok (Observations.d_category d)
  && SQL.text_ok (Observations.d_content d)
  && SQL.text_ok (Observations.d_source_agent d)
  && SQL.null_or_ok (Observations.d_severity d)
  && SQL.null_or_ok (Observations.d_status d)
  && SQL.null_or_ok (Observations.d_ref_id d)
  && SQL.null_or_ok (Observations.d_ref_type d)
  && SQL.null_or_ok (Observations.d_metadata d).

Definition POST (digest : string -> string) (newid : string) (now : Z) (b : body)
  (t : Observations.table) : Observations.table * response :=
  match Orchestrator.truthy (category b) with
  | None => (t, BadRequest "category is required and must be a string")
  | Some cat =>
  match Orchestrator.truthy (content b) with
  | None => (t, BadRequest "content is required and must be a string")
  | Some text =>
  match Orchestrator.truthy (source_agent b) with
  | None => (t, BadRequest "source_agent is required and must be a string")
  | Some agent =>
      if negb (includes validCategories cat)
      then (t, BadRequest "Invalid category. Must be one of: critique, risk, insight, recommendation, issue, improvement, other")
      else if present_and_invalid validSeverities (severity b)
      then (t, BadRequest "Invalid severity. Must be one of: info, low, medium, high, critical")
      else if present_and_invalid validStatuses (status b)
      then (t, BadRequest "Invalid status. Must be one of: open, acknowledged, addressed, dismissed")
      else
        let d := Observations.mkData cat text agent (severity b) (status b)
                   (ref_id b) (ref_type b) (metadata b) in
        if negb (parameters_ok d)
        then (t, ServerError "Failed to create observation")
        else
          match Observations.createObservation digest newid now d t with
          | Observations.Stored t' row => (t', Created row)
          | Observations.CheckViolation => (t, ServerError "Failed to create observation")
          end
  end end end.

End ObservationsRoute.

(** ** Tasks ([listTasks], [getTask], [createTask], [updateTask],
    [deleteTask], db.ts)

    The table's own definition is not among the sources; its rows are
    taken as the queries and [QuorumTask] have them, a due time as the
    timestamp it parses to. *)

Module Tasks.

Record task := mkTask {
  id : string;
  title : string;
  description : string;
  status : string;
  priority : string;
  owner : option string;
  due_at : option Z;
  metadata : string;
  created_at : Z;
  updated_at : Z
}.

Definition table := list task.

Definition has_id (i : string) (r : task) : bool := String.eqb (id r) i.



Definition or_else {A} (x : option A) (d : A) : A :=
  match x with Some v => v | None => d end.








(** The options of [listTasks]. *)
Record list_options := mkOptions {
  o_status : option string;
  o_priority : option string;
  o_owner : option string;
  o_limit : option nat
}.

(** [if (opts.x)] adds [x = $n] to the WHERE clause: an absent or empty
    option filters nothing. *)
Definition where_eq (opt : option string) (column : string) : bool :=
  match Orchestrator.truthy opt with
  | Some v => String.eqb column v
  | None => true
  end.

(** A NULL owner equals nothing. *)
Definition where_owner (opt : option string) (column : option string) : bool :=
  match Orchestrator.truthy opt with
  | Some v => match column with Some c => String.eqb c v | None => false end
  | None => true
  end.

Definition selected (o : list_options) (r : task) : bool :=
  where_eq (o_status o) (status r) && where_eq (o_priority o) (priority r)
  && where_owner (o_owner o) (owner r).

(** [CASE priority WHEN 'critical' THEN 0 ... ELSE 4 END] *)
Definition priorityOrder (p : string) : nat :=
  if String.eqb p "critical" then 0
  else if String.eqb p "high" then 1
  else if String.eqb p "medium" then 2
  else if String.eqb p "low" then 3
  else 4.

(** [due_at ASC NULLS LAST]: before, after, or level. *)
Definition due_compare (a b : option Z) : comparison :=
  match a, b with
  | Some x, Some y => Z.compare x y
  | Some _, None => Lt
  | None, Some _ => Gt
  | None, None => Eq
  end.

(** [ORDER BY priorityOrder ASC, due_at ASC NULLS LAST, created_at DESC] *)
Definition before (a b : task) : bool :=
  match Nat.compare (priorityOrder (priority a)) (priorityOrder (priority b)) with
  | Lt => true
  | Gt => false
  | Eq =>
      match due_compare (due_at a) (due_at b) with
      | Lt => true
      | Gt => false
      | Eq => created_at b <=? created_at a
      end
  end.

Definition listTasks (o : list_options) (t : table) : list task :=
  Order.limit (or_else (o_limit o) 50%nat)
    (Order.order_by before (filter (selected o) t)).

End Tasks.

(** ** Quorum threads ([renameQuorumThread], [deleteQuorumThread], db.ts;
    [PUT] and [DELETE], api/quorum/threads/[id]/route.ts) *)

Module Threads.

Import Orchestrator.

(** [event_type IN ('quorum_chat', 'quorum_response')] *)
Definition is_quorum (e : event) : bool :=
  String.eqb (event_type e) "quorum_chat" || String.eqb (event_type e) "quorum_response".

(** [COALESCE(thread_id, 'default')] *)
Definition thread_of (e : event) : string :=
  match thread_id e with Some t => t | None => "default" end.

(** The WHERE clause both statements share. *)
Definition in_thread (threadId : string) (e : event) : bool :=
  is_quorum e && String.eqb (thread_of e) threadId.

(** [SET thread_title = $1] *)
Definition retitle (newTitle : string) (e : event) : event :=
  mkEvent (id e) (event_type e) (title e) (description e) (metadata e)
    (thread_id e) (Some newTitle).

(** Each statement with its [rowCount > 0]. *)
Definition renameQuorumThread (threadId newTitle : string) (evs : list event)
  : list event * bool :=
  (map (fun e => if in_thread threadId e then retitle newTitle e else e) evs,
   existsb (in_thread threadId) evs).

Definition deleteQuorumThread (threadId : string) (evs : list event)
  : list event * bool :=
  (filter (fun e => negb (in_thread threadId e)) evs,
   existsb (in_thread threadId) evs).

Inductive response :=
| Success                                     (* 200, { success: true } *)
| Failure (http_status : nat) (error : string).

Definition PUT (threadId : string) (title : option string) (evs : list event)
  : list event * response :=
  match truthy title with
  | None => (evs, Failure 400 "Title is required")
  | Some title =>
      let (evs', success) := renameQuorumThread threadId title evs in
      if success then (evs', Success) else (evs', Failure 404 "Thread not found")
  end.

Definition DELETE (threadId : string) (evs : list event) : list event * response :=
  if String.eqb threadId "default"
  then (evs, Failure 400 "Cannot delete default thread")
  else
    let (evs', success) := deleteQuorumThread threadId evs in
    if success then (evs', Success) else (evs', Failure 404 "Thread not found").

End Threads.

(** ** Strings as UTF-16, and the digest of a string

    A JavaScript string is a sequence of 16-bit code units: [.length] and
    [.slice] count units, and [createHash('sha256').update(s)] hashes the
    UTF-8 encoding of [s], in which a surrogate without its partner is
    replaced by U+FFFD.  The strings of the modules above are the strings
    whose units are below 256; this module has all of them, with the
    chunker over them and the content hash [generateAndStoreEmbedding]
    stores with each chunk. *)

Module Utf16.

Definition text := list Z.          (* code units, 0 to 65535 *)

Definition len (s : text) : Z := Z.of_nat (List.length s).

Definition is_high (u : Z) : bool := (0xD800 <=? u) && (u <=? 0xDBFF).
Definition is_low (u : Z) : bool := (0xDC00 <=? u) && (u <=? 0xDFFF).

(** The UTF-8 bytes of a code point. *)
Definition encode (cp : Z) : list Z :=
  if cp <? 0x80 then [cp]
  else if cp <? 0x800 then [0xC0 + cp / 0x40; 0x80 + cp mod 0x40]
  else if cp <? 0x10000
  then [0xE0 + cp / 0x1000; 0x80 + (cp / 0x40) mod 0x40; 0x80 + cp mod 0x40]
  else [0xF0 + cp / 0x40000; 0x80 + (cp / 0x1000) mod 0x40;
        0x80 + (cp / 0x40) mod 0x40; 0x80 + cp mod 0x40].

(** U+FFFD in UTF-8. *)
Definition replacement : list Z := [0xEF; 0xBF; 0xBD].

(** The UTF-8 encoding of a string, as Node's [Buffer] makes it: a high
    surrogate and the low one after it are one code point; a surrogate on
    its own is replaced. *)
Fixpoint utf8 (s : text) : list Z :=
  match s with
  | [] => []
  | u :: rest =>
      if is_high u then
        match rest with
        | v :: rest' =>
            if is_low v
            then (encode (0x10000 + (u - 0xD800) * 0x400 + (v - 0xDC00))
                  ++ utf8 rest')%list
            else (replacement ++ utf8 rest)%list
        | [] => replacement
        end
      else if is_low u then (replacement ++ utf8 rest)%list
      else (encode u ++ utf8 rest)%list
  end.

(** No surrogate without its partner. *)
Fixpoint well_formed (s : text) : bool :=
  match s with
  | [] => true
  | u :: rest =>
      if is_high u then
        match rest with
        | v :: rest' => is_low v && well_formed rest'
        | [] => false
        end
      else negb (is_low u) && well_formed rest
  end.

Definition bytes (l : list Z) : string :=
  string_of_list_ascii (map (fun b => ascii_of_N (Z.to_N b)) l).

(** [createHash('sha256').update(s).digest('hex')] *)
Definition contentHash (s : text) : string := SHA256.hexdigest (bytes (utf8 s)).

(** The units of a string of the modules above. *)
Definition of_string (s : string) : text :=
  map (fun c => Z.of_N (N_of_ascii c)) (list_ascii_of_string s).

(** The digest of the code on such a string. *)
Definition digest (s : string) : string := contentHash (of_string s).

Definition ascii_only (s : string) : Prop :=
  Forall (fun c => (N_of_ascii c < 128)%N) (list_ascii_of_string s).

(** [.slice] and [chunkText] (db.ts), as in [JS] and [Chunker]. *)
Definition slice (s : text) (a b : Z) : text :=
  let from := if a <? 0 then Z.max (len s + a) 0 else Z.min a (len s) in
  let to := if b <? 0 then Z.max (len s + b) 0 else Z.min b (len s) in
  firstn (Z.to_nat (Z.max (to - from) 0)) (skipn (Z.to_nat from) s).

Fixpoint while (fuel : nat) (s : text) (chunkSize overlap : Z) (start : Z)
  (chunks : list text) : option (list text) :=
  if start <? len s then
    match fuel with
    | O => None
    | S fuel' =>
        while fuel' s chunkSize overlap (start + (chunkSize - overlap))
          (chunks ++ [slice s start (start + chunkSize)])
    end
  else Some chunks.

Definition chunkText (fuel : nat) (s : text) (chunkSize overlap : Z)
  : option (list text) :=
  if len s <=? chunkSize then Some [s]
  else while fuel s chunkSize overlap 0 [].

(** The chunks [generateAndStoreEmbedding] embeds, and the content hash
    it stores with each. *)
Definition chunks_of (content : text) : option (list text) :=
  if 2000 <? len content
  then chunkText (S (List.length content)) content 500 50
  else Some [content].

Definition content_hashes (content : text) : option (list string) :=
  option_map (map contentHash) (chunks_of content).

End Utf16.

(** ** Kinds of process reports *)

Module Reports.

Import Orchestrator.

(** The reports of [proc.stderr.on('data', ...)], which only logs. *)
Definition is_stderr (e : proc_event) : bool :=
  match e with Stderr _ => true | _ => false end.

(** The reports whose handlers call the store: 'error' and 'close'. *)
Definition is_ending (e : proc_event) : bool :=
  match e with ProcError | Close _ => true | _ => false end.

Definition endings (trace : list proc_event) : nat :=
  List.length (filter is_ending trace).

(** How many rows the handlers of a run that ends as [c] leave for the
    text they hold: none when there is no text or the database refuses
    it, two when 'close' follows 'error', one otherwise. *)
Definition copies (c : completion) (text : string) : nat :=
  if String.eqb text "" || negb (SQL.text_ok text) then 0%nat
  else if error_then_close c then 2%nat else 1%nat.

End Reports.

(** ** Sample inputs, for running the definitions *)

Module Sample.

Definition vector : Type := list Z.

Definition clock (i : nat) : Z := 1700000000 + Z.of_nat i.

(** A provider that answers every request, and one that answers all but
    its [k]-th request, which it refuses. *)
Definition answers (i : nat) (prompt : string) : Embeddings.response vector :=
  Embeddings.Ok [JS.len prompt; Z.of_nat i].
Definition refuses (k i : nat) (prompt : string) : Embeddings.response vector :=
  if Nat.eqb i k then Embeddings.NotOk else answers i prompt.

(** 2001 units, and 3000 units with no two chunks alike. *)
Definition long_text : string := JS.repeat "a" 2001.
Definition numbered_text : string :=
  substring 0 3000 (JS.join (map JS.of_nat (seq 0 1100))).

Definition uuid (n : nat) : string := "uuid-" ++ JS.of_nat n.

(** An agent that finds one overdue invoice, whatever the store holds. *)
Definition finds_invoice (store : list Scheduler.write) : list Scheduler.finding :=
  [Scheduler.mkFinding (Scheduler.TaskRow "Chase invoice 42")
     (Some "Invoice 42 is overdue")].

(** The observation of the dedup scenario, and a resubmission of it. *)
Definition invoice : Observations.data :=
  Observations.mkData "risk" "Invoice overdue" "executor" None None None None None.
Definition invoice_again : Observations.data :=
  Observations.mkData "risk" "Invoice overdue" "executor" (Some "high") None None None
    (Some "{}").


(** Two observations whose fields differ and whose joined text does not. *)
Definition colon_left : Observations.data :=
  Observations.mkData "risk" "c" "a:b" None None None None None.
Definition colon_right : Observations.data :=
  Observations.mkData "risk" "b:c" "a" None None None None None.

Definition long_chunks : list string :=
  Eval vm_compute in
    match Embeddings.chunks_of long_text with Some cs => cs | None => [] end.

End Sample.

(** ** More sample inputs *)

Module Fixtures.

(** The row the dedup scenario leaves, before and after a resubmission. *)
Definition invoice_row : Observations.observation :=
  Observations.mkObservation "id-1" "risk" "Invoice overdue" "executor" "info" "open"
    None None "4012d5399b5a3fe5ea0f34dcf94e6679b916e91acd2f77cb9c2d45655a2588cf"
    "{}" 10 10.
Definition invoice_row_again : Observations.observation :=
  Observations.mkObservation "id-1" "risk" "Invoice overdue" "executor" "info" "open"
    None None "4012d5399b5a3fe5ea0f34dcf94e6679b916e91acd2f77cb9c2d45655a2588cf"
    "{}" 10 20.

Definition dismissed_row : Observations.observation :=
  Observations.mkObservation "id-1" "risk" "Invoice overdue" "executor" "info"
    "dismissed" None None
    "4012d5399b5a3fe5ea0f34dcf94e6679b916e91acd2f77cb9c2d45655a2588cf"
    "{}" 10 15.

(** 2001 units with three emoji in them, each a surrogate pair: U+1F600
    at units 49 and 499, U+1F300 at unit 949, the letter a everywhere
    else.  The chunker cuts after units 499 and 949, between the two
    halves of a pair. *)
Definition emoji_text : Utf16.text :=
  (List.repeat 97 49 ++ [0xD83D; 0xDE00] ++ List.repeat 97 448
   ++ [0xD83D; 0xDE00] ++ List.repeat 97 448
   ++ [0xD83C; 0xDF00] ++ List.repeat 97 1050)%list.

(** A note, uploaded as JSON into an empty store while the provider
    answers. *)
Definition note : Upload.request :=
  Upload.JsonBody (Some "Note") (Some "Hello world") (Some "note") None.
Definition no_pdf (f : Upload.file) : Upload.pdf_result := Upload.PdfFails None.
Definition no_tags (j : string) : option (list string) := Some [].
Definition empty_db : Upload.db Sample.vector := Upload.mkDb [] [].
Definition after_note : Upload.db Sample.vector :=
  Eval vm_compute in
    match Upload.POST SHA256.hexdigest Sample.answers Sample.clock Sample.uuid
            no_pdf no_tags note empty_db with
    | Some (d, _) => d
    | None => empty_db
    end.

End Fixtures.

(** * Properties *)

Example sha256_abc :
  SHA256.hexdigest "abc"
  = "ba7816bf8f01cfea414140de5dae2223b00361a396177a9cb410ff61f20015ad".
Proof. vm_compute. reflexivity. Qed.

Example sha256_empty :
  SHA256.hexdigest ""
  = "e3b0c44298fc1c149afbf4c8996fb92427ae41e4649b934ca495991b7852b855".
Proof. vm_compute. reflexivity. Qed.

Example sha256_two_blocks :
  SHA256.hexdigest "abcdbcdecdefdefgefghfghighijhijkijkljklmklmnlmnomnopnopq"
  = "248d6a61d20638b8e5c026930c3e6039a33ce45964ff2167f6ecedd419db06c1".
Proof. vm_compute. reflexivity. Qed.

(** ** Strings as lists of units *)

Module StringFacts.

Abbreviation units := list_ascii_of_string.

Lemma units_inj (a b : string) : units a = units b -> a = b.
Proof.
  intros H.
  rewrite <- (string_of_list_ascii_of_string a), <- (string_of_list_ascii_of_string b).
  now rewrite H.
Qed.

Lemma units_length (s : string) : List.length (units s) = String.length s.
Proof. induction s; simpl; congruence. Qed.

Lemma units_append (a b : string) : units (a ++ b) = (units a ++ units b)%list.
Proof. induction a; simpl; congruence. Qed.

Lemma units_substring (n m : nat) (s : string) :
  units (substring n m s) = firstn m (skipn n (units s)).
Proof.
  revert n m; induction s as [|c s IH]; intros n m.
  - destruct n, m; reflexivity.
  - destruct n as [|n].
    + destruct m as [|m]; simpl; [reflexivity|].
      f_equal. apply (IH 0%nat m).
    + simpl. apply IH.
Qed.

Lemma append_assoc (a b c : string) : (a ++ b) ++ c = a ++ (b ++ c).
Proof. induction a; simpl; congruence. Qed.

Lemma append_empty_r (a : string) : a ++ "" = a.
Proof. induction a; simpl; congruence. Qed.

Lemma len_zero (a : string) : (JS.len a =? 0) = String.eqb a "".
Proof. now destruct a. Qed.

Lemma units_join (l : list string) : units (JS.join l) = List.concat (map units l).
Proof.
  induction l as [|a l IH]; simpl; [reflexivity|].
  now rewrite units_append, IH.
Qed.

Lemma firstn_then_more {A} (a b : nat) (l : list A) :
  (firstn a l ++ firstn b (skipn a l))%list = firstn (a + b) l.
Proof.
  revert l; induction a as [|a IH]; intros l; simpl; [reflexivity|].
  destruct l as [|x l]; simpl.
  - now rewrite firstn_nil.
  - now rewrite IH.
Qed.

Lemma firstn_clamped {A} (a b : nat) (l : list A) :
  Nat.min a (List.length l) = Nat.min b (List.length l) -> firstn a l = firstn b l.
Proof.
  intros H.
  destruct (Nat.le_gt_cases (List.length l) a) as [Ha|Ha];
    destruct (Nat.le_gt_cases (List.length l) b) as [Hb|Hb].
  - now rewrite !firstn_all2.
  - lia.
  - lia.
  - f_equal. lia.
Qed.

(** [slice] between two offsets that are not negative. *)
Lemma units_slice (s : string) (a b : Z) :
  0 <= a -> 0 <= b ->
  units (JS.slice s a b)
  = firstn (Z.to_nat b - Z.to_nat a) (skipn (Z.to_nat a) (units s)).
Proof.
  intros Ha Hb. unfold JS.slice, JS.len.
  destruct (Z.ltb_spec a 0) as [?|_]; [lia|].
  destruct (Z.ltb_spec b 0) as [?|_]; [lia|].
  rewrite units_substring.
  set (n := String.length s).
  destruct (Z_le_gt_dec (Z.of_nat n) a) as [Hge|Hlt].
  - rewrite (Z.min_r a) by lia. rewrite Nat2Z.id.
    rewrite !skipn_all2 by (rewrite units_length; fold n; lia).
    now rewrite !firstn_nil.
  - rewrite (Z.min_l a) by lia.
    apply firstn_clamped. rewrite length_skipn, units_length. fold n. lia.
Qed.

End StringFacts.

(** ** The chunker *)

Module ChunkerFacts.

Import Chunker StringFacts.

Lemma turns_done (text : string) (step s : Z) :
  0 < step -> JS.len text <= s -> turns text step s = 0%nat.
Proof.
  intros Hstep Hs. unfold turns.
  assert ((JS.len text - s + step - 1) / step < 1)
    by (apply Z.div_lt_upper_bound; lia).
  lia.
Qed.

Lemma turns_more (text : string) (step s : Z) :
  0 < step -> s < JS.len text ->
  turns text step s = S (turns text step (s + step)).
Proof.
  intros Hstep Hs. unfold turns.
  replace (JS.len text - s + step - 1)
    with (JS.len text - (s + step) + step - 1 + 1 * step) by lia.
  rewrite Z.div_add by lia.
  assert (0 <= (JS.len text - (s + step) + step - 1) / step)
    by (apply Z.div_pos; lia).
  lia.
Qed.

Lemma turns_le_length (text : string) (step : Z) :
  0 < step -> (turns text step 0 <= String.length text)%nat.
Proof.
  intros Hstep. unfold turns, JS.len.
  set (n := Z.of_nat (String.length text)).
  assert ((n - 0 + step - 1) / step < n + 1).
  { apply Z.div_lt_upper_bound; [lia|]. nia. }
  lia.
Qed.

(** The loop, solved: from offset [s] it takes [turns] turns and cuts one
    span per turn. *)
Lemma while_closed_form (fuel : nat) (text : string) (chunkSize overlap : Z) :
  0 < chunkSize - overlap ->
  forall (s : Z) (acc : list string),
  (turns text (chunkSize - overlap) s <= fuel)%nat ->
  while fuel text chunkSize overlap (mkLoop s acc)
  = Some (mkLoop
            (s + Z.of_nat (turns text (chunkSize - overlap) s) * (chunkSize - overlap))
            (acc ++ map (fun i => JS.slice text
                                    (s + Z.of_nat i * (chunkSize - overlap))
                                    (s + Z.of_nat i * (chunkSize - overlap) + chunkSize))
                        (seq 0 (turns text (chunkSize - overlap) s)))).
Proof.
  intros Hstep. set (step := chunkSize - overlap) in *.
  assert (Hdone : forall s acc, JS.len text <= s ->
            Some (mkLoop s acc)
            = Some (mkLoop (s + Z.of_nat (turns text step s) * step)
                      (acc ++ map (fun i => JS.slice text (s + Z.of_nat i * step)
                                              (s + Z.of_nat i * step + chunkSize))
                                  (seq 0 (turns text step s))))).
  { intros s acc Hge. rewrite (turns_done text step s) by assumption.
    cbn [seq map Z.of_nat]. rewrite app_nil_r. do 2 f_equal. lia. }
  induction fuel as [|fuel IH]; intros s acc Hfuel.
  - cbn [while]. unfold loop_guard. cbn [start].
    destruct (Z.ltb_spec s (JS.len text)) as [Hlt|Hge]; [|now apply Hdone].
    rewrite (turns_more text step s) in Hfuel by assumption. lia.
  - cbn [while]. unfold loop_guard. cbn [start].
    destruct (Z.ltb_spec s (JS.len text)) as [Hlt|Hge]; [|now apply Hdone].
    rewrite (turns_more text step s) in * by assumption.
    unfold loop_body. cbn [start chunks]. fold step.
    rewrite IH by lia.
    rewrite <- cons_seq, map_cons, <- seq_shift, map_map, <- app_assoc.
    rewrite Nat2Z.inj_succ. cbn [Z.of_nat app].
    f_equal. f_equal; [lia|].
    f_equal. f_equal; [f_equal; lia|].
    apply map_ext. intros i. f_equal; lia.
Qed.

(** With a positive step the call returns, and what it returns. *)
Lemma chunkText_returns (text : string) (chunkSize overlap : Z) (fuel : nat) :
  overlap < chunkSize ->
  (String.length text <= fuel)%nat ->
  chunkText fuel text chunkSize overlap
  = Some (if JS.len text <=? chunkSize then [text]
          else map (span text chunkSize overlap)
                   (seq 0 (turns text (chunkSize - overlap) 0))).
Proof.
  intros Hlt Hfuel. unfold chunkText.
  destruct (JS.len text <=? chunkSize); [reflexivity|].
  unfold loop_init.
  rewrite while_closed_form; [| lia |].
  - simpl. f_equal.
  - pose proof (turns_le_length text (chunkSize - overlap)). lia.
Qed.

Lemma turns_reach (text : string) (step : Z) :
  0 < step -> JS.len text <= Z.of_nat (turns text step 0) * step.
Proof.
  intros Hstep. unfold turns.
  assert (0 <= JS.len text) by (unfold JS.len; lia).
  pose proof (Z.div_mod (JS.len text - 0 + step - 1) step ltac:(lia)) as Hdm.
  pose proof (Z.mod_pos_bound (JS.len text - 0 + step - 1) step Hstep).
  assert (0 <= (JS.len text - 0 + step - 1) / step) by (apply Z.div_pos; lia).
  rewrite Z2Nat.id by assumption. nia.
Qed.

Lemma regions_tail (overlap : Z) (i : nat) (cs : list string) :
  distinct_regions_from overlap (S i) cs
  = map (fun c => JS.slice c overlap (JS.len c)) cs.
Proof.
  revert i; induction cs as [|c cs IH]; intros i; simpl; [reflexivity|].
  now rewrite IH.
Qed.

(** A span over offsets that are not negative, as units of the text. *)
Lemma units_span (text : string) (chunkSize overlap : Z) (i : nat) :
  0 <= overlap -> overlap < chunkSize ->
  units (span text chunkSize overlap i)
  = firstn (Z.to_nat chunkSize)
      (skipn (i * Z.to_nat (chunkSize - overlap)) (units text)).
Proof.
  intros Ho Hlt. unfold span.
  rewrite units_slice by nia.
  f_equal; [nia|]. f_equal. nia.
Qed.

(** What a later span adds to the one before it. *)
Lemma units_region (text : string) (chunkSize overlap : Z) (i : nat) :
  0 <= overlap -> overlap < chunkSize ->
  units (JS.slice (span text chunkSize overlap (S i)) overlap
                  (JS.len (span text chunkSize overlap (S i))))
  = firstn (Z.to_nat (chunkSize - overlap))
      (skipn (Z.to_nat chunkSize + i * Z.to_nat (chunkSize - overlap)) (units text)).
Proof.
  intros Ho Hlt.
  rewrite units_slice by (unfold JS.len; lia).
  rewrite units_span by assumption.
  rewrite firstn_all2.
  - rewrite skipn_firstn_comm, skipn_skipn. f_equal; [lia|]. f_equal. nia.
  - rewrite length_skipn. unfold JS.len. rewrite Nat2Z.id, <- units_length.
    rewrite units_span by assumption. lia.
Qed.

Lemma telescope {A} (l : list A) (st m a : nat) :
  (firstn a l
   ++ List.concat (map (fun k => firstn st (skipn (a + k * st) l)) (seq 0 m)))%list
  = firstn (a + m * st) l.
Proof.
  revert a; induction m as [|m IH]; intros a.
  - cbn [seq map List.concat]. rewrite app_nil_r. f_equal. lia.
  - rewrite <- cons_seq, map_cons, <- seq_shift, map_map.
    cbn [List.concat]. rewrite app_assoc.
    replace (a + 0 * st)%nat with a by lia.
    rewrite firstn_then_more.
    rewrite (map_ext _ (fun k => firstn st (skipn (a + st + k * st) l)))
      by (intros k; do 2 f_equal; lia).
    rewrite IH. f_equal. lia.
Qed.

Lemma span_short (text : string) (chunkSize overlap : Z) :
  JS.len text <= chunkSize -> span text chunkSize overlap 0 = text.
Proof.
  intros Hle. apply units_inj. unfold span.
  assert (0 <= JS.len text) by (unfold JS.len; lia).
  rewrite units_slice by lia.
  cbn [Z.of_nat Z.mul Z.add Z.to_nat Nat.sub skipn].
  rewrite Nat.sub_0_r. apply firstn_all2.
  rewrite units_length. unfold JS.len in *. lia.
Qed.

Lemma span_length (text : string) (chunkSize overlap : Z) (i : nat) :
  0 <= overlap -> overlap < chunkSize ->
  JS.len (span text chunkSize overlap i) <= chunkSize.
Proof.
  intros Ho Hlt. unfold JS.len.
  rewrite <- units_length, units_span by assumption.
  pose proof (firstn_le_length (Z.to_nat chunkSize)
                (skipn (i * Z.to_nat (chunkSize - overlap)) (units text))).
  lia.
Qed.

(** C6. For every text and every [chunkSize > overlap >= 0], [chunkText]
    returns; its [i]-th chunk is the slice of the text that starts at
    offset [i * (chunkSize - overlap)] and is at most [chunkSize] long; and
    the chunks' distinct regions (each chunk without the [overlap] units it
    shares with the one before) joined in order are the text, nothing
    missing. *)
Theorem chunkText_covers (text : string) (chunkSize overlap : Z) :
  0 <= overlap -> overlap < chunkSize ->
  exists cs : list string,
    (forall fuel, (String.length text <= fuel)%nat ->
                  chunkText fuel text chunkSize overlap = Some cs)
    /\ (forall i, (i < List.length cs)%nat ->
          nth i cs "" = span text chunkSize overlap i
          /\ JS.len (nth i cs "") <= chunkSize)
    /\ JS.join (distinct_regions overlap cs) = text.
Proof.
  intros Ho Hlt.
  exists (if JS.len text <=? chunkSize then [text]
          else map (span text chunkSize overlap)
                   (seq 0 (turns text (chunkSize - overlap) 0))).
  split; [intros fuel Hfuel; now apply chunkText_returns|].
  destruct (Z.leb_spec (JS.len text) chunkSize) as [Hshort|Hlong].
  - split.
    + intros i Hi. cbn [List.length] in Hi.
      assert (i = 0%nat) as -> by lia. cbn [nth].
      rewrite span_short by assumption. split; [reflexivity|assumption].
    + apply units_inj. cbn. now rewrite units_append, app_nil_r.
  - set (step := chunkSize - overlap).
    set (n := turns text step 0).
    split.
    + intros i Hi. rewrite length_map, length_seq in Hi.
      rewrite (nth_indep _ _ (span text chunkSize overlap 0))
        by now rewrite length_map, length_seq.
      rewrite map_nth, seq_nth by assumption. cbn [Nat.add].
      split; [reflexivity|now apply span_length].
    + pose proof (turns_reach text step ltac:(unfold step; lia)) as Hreach.
      fold n in Hreach.
      destruct n as [|m]; [unfold JS.len in *; lia|].
      apply units_inj. unfold distinct_regions.
      rewrite <- cons_seq, map_cons. cbn [distinct_regions_from distinct_region].
      rewrite regions_tail. cbn [JS.join fold_right].
      rewrite units_append. fold (JS.join).
      rewrite units_join, <- seq_shift, !map_map.
      rewrite units_span by assumption.
      cbn [Nat.mul skipn].
      rewrite (map_ext _ (fun k => firstn (Z.to_nat step)
                                     (skipn (Z.to_nat chunkSize + k * Z.to_nat step)
                                            (units text))))
        by (intros k; now apply units_region).
      rewrite telescope. apply firstn_all2.
      rewrite units_length. unfold JS.len, step in *. nia.
Qed.

Lemma chunkText_covers_witness :
  exists cs : list string,
    (forall fuel, (String.length "abcdefghij" <= fuel)%nat ->
                  chunkText fuel "abcdefghij" 4 1 = Some cs)
    /\ (forall i, (i < List.length cs)%nat ->
          nth i cs "" = span "abcdefghij" 4 1 i /\ JS.len (nth i cs "") <= 4)
    /\ JS.join (distinct_regions 1 cs) = "abcdefghij".
Proof. apply (chunkText_covers "abcdefghij" 4 1); lia. Defined.

Example chunkText_abcdefghij :
  chunkText 10 "abcdefghij" 4 1 = Some ["abcd"; "defg"; "ghij"; "j"]
  /\ distinct_regions 1 ["abcd"; "defg"; "ghij"; "j"] = ["abcd"; "efg"; "hij"; ""].
Proof. split; reflexivity. Qed.

Lemma iterate_start (n : nat) (text : string) (chunkSize overlap : Z)
  (st : loop_state) :
  start (iterate n text chunkSize overlap st)
  = start st + Z.of_nat n * (chunkSize - overlap).
Proof.
  revert st; induction n as [|n IH]; intros st.
  - cbn [iterate]. lia.
  - cbn [iterate]. rewrite IH. unfold loop_body. cbn [start]. lia.
Qed.

Lemma while_stuck (text : string) (chunkSize overlap : Z) :
  chunkSize - overlap <= 0 ->
  forall (fuel : nat) (st : loop_state),
  start st < JS.len text -> while fuel text chunkSize overlap st = None.
Proof.
  intros Hstep. induction fuel as [|fuel IH]; intros st Hst.
  - cbn [while]. unfold loop_guard.
    now destruct (Z.ltb_spec (start st) (JS.len text)); [|lia].
  - cbn [while]. unfold loop_guard.
    destruct (Z.ltb_spec (start st) (JS.len text)); [|lia].
    apply IH. unfold loop_body. cbn [start]. lia.
Qed.

(** C9. When [chunkSize > overlap] every turn of the loop moves the start
    offset up and [chunkText] returns, for every text.  When
    [overlap >= chunkSize], the chunk size being a size and so not
    negative, for every text longer than [chunkSize] no turn moves the
    start offset up, the guard holds after any number of turns, and
    [chunkText] does not return. *)
Theorem chunkText_returns_iff_progress (text : string) (chunkSize overlap : Z) :
  (overlap < chunkSize ->
     (forall st, start st < start (loop_body text chunkSize overlap st))
     /\ exists cs, forall fuel, (String.length text <= fuel)%nat ->
                   chunkText fuel text chunkSize overlap = Some cs)
  /\ (0 <= chunkSize -> overlap >= chunkSize -> JS.len text > chunkSize ->
        (forall st, start (loop_body text chunkSize overlap st) <= start st)
        /\ (forall n, loop_guard text (iterate n text chunkSize overlap loop_init) = true)
        /\ diverges text chunkSize overlap).
Proof.
  split.
  - intros Hlt. split.
    + intros st. unfold loop_body. cbn [start]. lia.
    + eexists. intros fuel Hfuel. now apply chunkText_returns.
  - intros Hsize Hge Hlong.
    split; [|split].
    + intros st. unfold loop_body. cbn [start]. lia.
    + intros n. unfold loop_guard. rewrite iterate_start. cbn [loop_init start].
      apply Z.ltb_lt. nia.
    + intros fuel. unfold chunkText.
      destruct (Z.leb_spec (JS.len text) chunkSize); [lia|].
      rewrite while_stuck; [reflexivity|lia|]. cbn [loop_init start]. lia.
Qed.

Lemma chunkText_returns_iff_progress_witness :
  (exists cs, forall fuel, (String.length "abc" <= fuel)%nat ->
              chunkText fuel "abc" 2 1 = Some cs)
  /\ diverges "abc" 2 2.
Proof.
  split.
  - apply (proj1 (chunkText_returns_iff_progress "abc" 2 1)). lia.
  - apply (proj2 (chunkText_returns_iff_progress "abc" 2 2));
      [lia | lia | unfold JS.len; simpl; lia].
Defined.

(** Why the size is taken not to be negative: a negative [chunkSize], which
    the one call of the function, [chunkText(content, 500, 50)], never
    passes, makes the empty text longer than [chunkSize], and the call
    returns at once, the loop body never entered. *)
Example chunkText_empty_negative : chunkText 0 "" (-1) 0 = Some [].
Proof. reflexivity. Qed.

End ChunkerFacts.

(** ** The embedding ingestion pipeline *)

Module EmbeddingFacts.

Import Embeddings.

Lemma of_nat_inj (i j : nat) : JS.of_nat i = JS.of_nat j -> i = j.
Proof.
  unfold JS.of_nat. intros H.
  assert (Hu : Nat.to_uint i = Nat.to_uint j).
  { apply (f_equal NilEmpty.uint_of_string) in H.
    rewrite !NilEmpty.usu in H. congruence. }
  apply (f_equal Nat.of_uint) in Hu.
  now rewrite !DecimalNat.Unsigned.of_to in Hu.
Qed.

Lemma like_any (s : string) : SQL.like "%" s = true.
Proof.
  cbn. induction s as [|c s IH]; [reflexivity|].
  cbn. exact IH.
Qed.

Lemma like_chunk (s : string) : SQL.like "document_chunk_%" ("document_chunk_" ++ s) = true.
Proof. cbn. apply (like_any s). Qed.

Lemma document_not_chunk (i : nat) : "document" <> "document_chunk_" ++ JS.of_nat i.
Proof. cbn. congruence. Qed.

Example like_is_sql_like :
  SQL.like "document_chunk_%" "document_chunk_12" = true
  /\ SQL.like "document_chunk_%" "document" = false
  /\ SQL.like "document_chunk_%" "event_chunk_0" = false
  /\ SQL.like "document_chunk_%" "documentXchunkY" = true.
Proof. repeat split; reflexivity. Qed.

Section Loop.

Context {vector : Type}.
Variable digest : string -> string.
Variable provider : nat -> string -> response vector.
Variable now : nat -> Z.

Lemma refType_inj (n i j : nat) : n <> 1%nat -> refType n i = refType n j -> i = j.
Proof.
  unfold refType. intros Hn. destruct (Nat.eqb_spec n 1); [contradiction|].
  cbn. intros H. apply of_nat_inj. congruence.
Qed.

Lemma refType_family (docId : string) (n i : nat) (v : vector) (h : string) (c : Z) :
  document_family docId (mkRow docId (refType n i) v h c) = true.
Proof.
  unfold document_family, refType. cbn [ref_id ref_type].
  rewrite String.eqb_refl. cbn [andb].
  destruct (Nat.eqb n 1); [reflexivity|].
  rewrite like_chunk. apply orb_true_r.
Qed.

Lemma same_key_family (docId : string) (a b : row vector) :
  same_key a b = true -> document_family docId a = document_family docId b.
Proof.
  unfold same_key, document_family. intros H.
  apply andb_prop in H as [Ht Hi].
  apply String.eqb_eq in Ht, Hi. now rewrite Ht, Hi.
Qed.

Lemma upsert_fresh (new : row vector) (t : table vector) :
  (forall r, In r t -> same_key new r = false) -> upsert new t = (t ++ [new])%list.
Proof.
  intros H. unfold upsert.
  destruct (existsb (same_key new) t) eqn:E; [|reflexivity].
  apply existsb_exists in E as (r & Hr & Hk). rewrite (H r Hr) in Hk. discriminate.
Qed.

Lemma rows_of_delete (docId : string) (t : table vector) :
  rows_of docId (delete_document_embeddings docId t) = [].
Proof.
  unfold rows_of, delete_document_embeddings.
  induction t as [|r t IH]; [reflexivity|].
  cbn [filter]. destruct (document_family docId r) eqn:E; cbn [negb filter].
  - exact IH.
  - now rewrite E.
Qed.

Lemma other_rows_delete (docId : string) (t : table vector) :
  other_rows docId (delete_document_embeddings docId t) = other_rows docId t.
Proof.
  unfold other_rows, delete_document_embeddings.
  induction t as [|r t IH]; [reflexivity|].
  cbn [filter]. destruct (document_family docId r) eqn:E; cbn [negb filter].
  - exact IH.
  - rewrite E. cbn [negb]. now rewrite IH.
Qed.

Lemma delete_is_other_rows (docId : string) (t : table vector) :
  delete_document_embeddings docId t = other_rows docId t.
Proof. reflexivity. Qed.

Lemma stored_family (docId : string) (n : nat) (rest : list string) (i : nat) :
  Forall (fun r => document_family docId r = true)
         (stored_from digest provider now docId n i rest).
Proof.
  revert i; induction rest as [|c rest IH]; intros i; cbn [stored_from].
  - constructor.
  - destruct (provider i c); constructor; [apply refType_family|apply IH].
Qed.

Lemma rows_of_all (docId : string) (l : table vector) :
  Forall (fun r => document_family docId r = true) l -> rows_of docId l = l.
Proof.
  unfold rows_of. induction 1 as [|r l Hr _ IH]; [reflexivity|].
  cbn [filter]. now rewrite Hr, IH.
Qed.

Lemma other_rows_none (docId : string) (l : table vector) :
  Forall (fun r => document_family docId r = true) l -> other_rows docId l = [].
Proof.
  unfold other_rows. induction 1 as [|r l Hr _ IH]; [reflexivity|].
  cbn [filter]. now rewrite Hr.
Qed.

(** The loop on a table that holds no row under the keys it is about to
    write: every row is appended, none updated. *)
Lemma embed_from_spec (docId : string) (n : nat) (rest : list string) :
  forall (i : nat) (t : table vector),
  (n = 1%nat -> (List.length rest <= 1)%nat) ->
  (forall r j v h c, In r t -> (i <= j)%nat ->
     same_key (mkRow docId (refType n j) v h c) r = false) ->
  embed_from digest provider now docId n i rest t
  = ((t ++ stored_from digest provider now docId n i rest)%list,
     ending_from provider i rest).
Proof.
  induction rest as [|c rest IH]; intros i t Hone Hfresh.
  - cbn. now rewrite app_nil_r.
  - cbn [embed_from stored_from ending_from].
    destruct (provider i c) as [v| |]; try (now rewrite app_nil_r).
    rewrite upsert_fresh by (intros r Hr; now apply Hfresh).
    destruct (Nat.eq_dec n 1) as [Hn|Hn].
    + specialize (Hone Hn). cbn [List.length] in Hone.
      destruct rest; [|cbn [List.length] in Hone; lia].
      reflexivity.
    + rewrite IH.
      * now rewrite <- app_assoc.
      * intros E. contradiction.
      * intros r j v' h' c' Hr Hj.
        apply in_app_or in Hr as [Hr|[<-|[]]]; [apply Hfresh; [assumption|lia]|].
        unfold same_key. cbn [ref_type ref_id].
        destruct (String.eqb_spec (refType n j) (refType n i)) as [E|_]; [|reflexivity].
        apply refType_inj in E; [lia|assumption].
Qed.

Lemma chunks_of_returns (content : string) :
  chunks_of content
  = Some (if 2000 <? JS.len content
          then map (Chunker.span content 500 50)
                   (seq 0 (Chunker.turns content (500 - 50) 0))
          else [content]).
Proof.
  unfold chunks_of. destruct (Z.ltb_spec 2000 (JS.len content)) as [Hlong|_];
    [|reflexivity].
  rewrite ChunkerFacts.chunkText_returns by lia.
  now destruct (Z.leb_spec (JS.len content) 500); [lia|].
Qed.

(** The call, solved: it always returns or throws, never hangs; the rows
    outside the document's family stay, the family's rows are the ones the
    loop stored. *)
Lemma generateAndStoreEmbedding_spec (docId content : string) (t : table vector) :
  exists chunks,
    chunks_of content = Some chunks
    /\ generateAndStoreEmbedding digest provider now docId content t
       = Some ((other_rows docId t
                ++ stored_from digest provider now docId (List.length chunks) 0 chunks)%list,
               ending_from provider 0 chunks).
Proof.
  eexists. split; [apply chunks_of_returns|].
  unfold generateAndStoreEmbedding. rewrite chunks_of_returns.
  rewrite embed_from_spec; [reflexivity|lia|].
  intros r j v h c Hr _.
  destruct (same_key (mkRow docId (refType _ j) v h c) r) eqn:E; [|reflexivity].
  apply (same_key_family docId) in E. rewrite refType_family in E.
  apply filter_In in Hr as [_ Hr]. rewrite <- E in Hr. discriminate.
Qed.

(** What the loop stored and how it ended, when the first answer that is
    not a vector comes at chunk [k]. *)
Lemma stops_at_first_failure (docId : string) (n k : nat) (rest : list string) :
  forall i,
  (k < List.length rest)%nat ->
  (forall j, (j < k)%nat -> exists v, provider (i + j) (nth j rest "") = Ok v) ->
  failed (provider (i + k) (nth k rest "")) ->
  map key (stored_from digest provider now docId n i rest)
  = map (fun j => (docId, refType n j)) (seq i k)
  /\ ending_from provider i rest = ending_of (provider (i + k) (nth k rest "")).
Proof.
  revert k; induction rest as [|c rest IH]; intros k i Hk Hok Hfail.
  - cbn [List.length] in Hk. lia.
  - cbn [stored_from ending_from]. destruct k as [|k].
    + rewrite Nat.add_0_r in *. cbn [nth] in *.
      destruct (provider i c); [contradiction| |]; split; reflexivity.
    + destruct (Hok 0%nat ltac:(lia)) as [v Hv].
      rewrite Nat.add_0_r in Hv. cbn [nth] in Hv. rewrite Hv.
      destruct (IH k (S i)) as [Hkeys Hend].
      * cbn [List.length] in Hk. lia.
      * intros j Hj. destruct (Hok (S j) ltac:(lia)) as [w Hw].
        exists w. cbn [nth] in Hw. now rewrite <- Nat.add_succ_comm in Hw.
      * cbn [nth] in Hfail. now rewrite <- Nat.add_succ_comm in Hfail.
      * cbn [map seq]. rewrite Hkeys. split; [reflexivity|].
        rewrite Hend. cbn [nth]. now rewrite <- Nat.add_succ_comm.
Qed.

(** What the loop stored when every answer is a vector. *)
Lemma stores_every_chunk (docId : string) (n : nat) (rest : list string) :
  forall i,
  (forall j, (j < List.length rest)%nat ->
             exists v, provider (i + j) (nth j rest "") = Ok v) ->
  Forall2 (row_for digest provider now docId n)
          (combine (seq i (List.length rest)) rest)
          (stored_from digest provider now docId n i rest)
  /\ ending_from provider i rest = Returned true.
Proof.
  induction rest as [|c rest IH]; intros i Hok.
  - split; [constructor|reflexivity].
  - cbn [stored_from ending_from List.length seq combine].
    destruct (Hok 0%nat ltac:(cbn; lia)) as [v Hv].
    rewrite Nat.add_0_r in Hv. cbn [nth] in Hv. rewrite Hv.
    destruct (IH (S i)) as [Hrows Hend].
    { intros j Hj. destruct (Hok (S j) ltac:(cbn; lia)) as [w Hw].
      exists w. cbn [nth] in Hw. now rewrite <- Nat.add_succ_comm in Hw. }
    split; [|exact Hend].
    constructor; [|exact Hrows].
    unfold row_for. cbn [ref_id ref_type embedding content_hash created_at fst snd].
    now rewrite Hv.
Qed.

Lemma row_for_keys (docId : string) (n : nat) (ics : list (nat * string))
  (rows : table vector) :
  Forall2 (row_for digest provider now docId n) ics rows ->
  map key rows = map (fun ic => (docId, refType n (fst ic))) ics.
Proof.
  induction 1 as [|ic r ics rows (Hid & Hty & _) _ IH]; [reflexivity|].
  cbn [map]. rewrite IH. unfold key. now rewrite Hid, Hty.
Qed.

Lemma chunk_keys_NoDup (docId : string) (n : nat) :
  NoDup (map (fun j => (docId, refType n j)) (seq 0 n)).
Proof.
  destruct (Nat.eq_dec n 1) as [->|Hn].
  - cbn. constructor; [intros []|constructor].
  - generalize (seq_NoDup n 0). generalize (seq 0 n) as l.
    induction l as [|a l IH]; intros Hnd; cbn [map]; [constructor|].
    inversion Hnd as [|? ? Ha Hl]; subst.
    constructor; [|now apply IH].
    intros Hin. apply in_map_iff in Hin as (b & Hb & Hin).
    injection Hb as Hb. apply refType_inj in Hb; [|assumption]. now subst.
Qed.

(** C2, as amended. When the provider's first answer that is not a vector
    comes at chunk [k], the call stops there: it returns [false] when that
    answer is a response that is not [ok], and the exception leaves it
    when the request throws.  The rows the call deleted at its start stay
    deleted, the rows of other keys are untouched, and the rows for the
    [k] chunks before the failing one stay in the table: no rollback. *)
Theorem failure_keeps_stored_prefix (docId content : string) (t : table vector)
  (chunks : list string) (k : nat) :
  chunks_of content = Some chunks ->
  (k < List.length chunks)%nat ->
  succeeds_before provider k chunks ->
  failed (provider k (nth k chunks "")) ->
  exists t' o,
    generateAndStoreEmbedding digest provider now docId content t = Some (t', o)
    /\ (provider k (nth k chunks "") = NotOk -> o = Returned false)
    /\ (provider k (nth k chunks "") = Throws -> o = Threw)
    /\ map key (rows_of docId t')
       = map (fun j => (docId, refType (List.length chunks) j)) (seq 0 k)
    /\ other_rows docId t' = other_rows docId t.
Proof.
  intros Hchunks Hk Hok Hfail.
  destruct (generateAndStoreEmbedding_spec docId content t) as (cs & Hcs & Hrun).
  rewrite Hchunks in Hcs. injection Hcs as <-.
  destruct (stops_at_first_failure docId (List.length chunks) k chunks 0 Hk Hok Hfail)
    as [Hkeys Hend].
  cbn [Nat.add] in Hend.
  pose proof (stored_family docId (List.length chunks) chunks 0) as Hfam.
  eexists _, _. split; [exact Hrun|].
  rewrite Hend. split; [|split; [|split]].
  - now intros ->.
  - now intros ->.
  - unfold rows_of. rewrite filter_app. fold (rows_of docId (other_rows docId t)).
    fold (rows_of docId (stored_from digest provider now docId (List.length chunks) 0 chunks)).
    rewrite <- delete_is_other_rows, rows_of_delete, rows_of_all by assumption.
    exact Hkeys.
  - unfold other_rows at 1. rewrite filter_app.
    fold (other_rows docId (other_rows docId t)).
    fold (other_rows docId (stored_from digest provider now docId (List.length chunks) 0 chunks)).
    rewrite (other_rows_none docId _ Hfam).
    rewrite app_nil_r, <- delete_is_other_rows. apply other_rows_delete.
Qed.

Lemma map_fst_combine {A B} (l : list A) (l' : list B) :
  List.length l = List.length l' -> map fst (combine l l') = l.
Proof.
  revert l'; induction l as [|a l IH]; intros [|b l'] H; cbn in *;
    try reflexivity; try discriminate.
  f_equal. apply IH. lia.
Qed.

Lemma stored_row (docId : string) (n : nat) (rest : list string) :
  forall i0 i r,
  nth_error (stored_from digest provider now docId n i0 rest) i = Some r ->
  content_hash r = digest (nth i rest "") /\ ref_type r = refType n (i0 + i).
Proof.
  induction rest as [|c rest IH]; intros i0 i r H; cbn [stored_from] in H.
  - destruct i; discriminate.
  - destruct (provider i0 c); try (destruct i; discriminate).
    destruct i as [|i]; cbn [nth_error nth] in *.
    + injection H as <-. cbn. now rewrite Nat.add_0_r.
    + apply IH in H. now rewrite <- Nat.add_succ_comm.
Qed.

(** The table after a run, split into the document's family and the rest. *)
Lemma generateAndStoreEmbedding_rows (docId content : string) (t : table vector) :
  exists chunks t',
    chunks_of content = Some chunks
    /\ generateAndStoreEmbedding digest provider now docId content t
       = Some (t', ending_from provider 0 chunks)
    /\ t' = (other_rows docId t
             ++ stored_from digest provider now docId (List.length chunks) 0 chunks)%list
    /\ rows_of docId t'
       = stored_from digest provider now docId (List.length chunks) 0 chunks
    /\ other_rows docId t' = other_rows docId t.
Proof.
  destruct (generateAndStoreEmbedding_spec docId content t) as (chunks & Hcs & Hrun).
  pose proof (stored_family docId (List.length chunks) chunks 0) as Hfam.
  exists chunks. eexists. repeat split; [exact Hcs|exact Hrun| |].
  - unfold rows_of. rewrite filter_app. fold (rows_of docId (other_rows docId t)).
    rewrite <- delete_is_other_rows, rows_of_delete. cbn [app].
    now apply rows_of_all.
  - unfold other_rows at 1. rewrite filter_app.
    fold (other_rows docId (other_rows docId t)).
    fold (other_rows docId (stored_from digest provider now docId (List.length chunks) 0 chunks)).
    rewrite (other_rows_none docId _ Hfam).
    rewrite app_nil_r, <- delete_is_other_rows. apply other_rows_delete.
Qed.

(** A run the provider answers throughout: the call returns [true] and
    the family holds one row per chunk, in order. *)
Lemma successful_run (docId content : string) (t : table vector) :
  succeeds provider content ->
  exists chunks t',
    chunks_of content = Some chunks
    /\ generateAndStoreEmbedding digest provider now docId content t
       = Some (t', Returned true)
    /\ t' = (other_rows docId t
             ++ stored_from digest provider now docId (List.length chunks) 0 chunks)%list
    /\ rows_of docId t'
       = stored_from digest provider now docId (List.length chunks) 0 chunks
    /\ other_rows docId t' = other_rows docId t
    /\ Forall2 (row_for digest provider now docId (List.length chunks))
               (combine (seq 0 (List.length chunks)) chunks)
               (rows_of docId t').
Proof.
  intros Hok.
  destruct (generateAndStoreEmbedding_rows docId content t)
    as (chunks & t' & Hcs & Hrun & Ht' & Hrows & Hother).
  destruct (stores_every_chunk docId (List.length chunks) chunks 0 (Hok chunks Hcs))
    as [Hall Hend].
  exists chunks, t'. rewrite Hend in Hrun. rewrite Hrows.
  repeat split; assumption.
Qed.

End Loop.

(** C4. Two runs of the pipeline for the same document and content, the
    provider answering throughout both times: both return [true]; the
    table after the second run holds the same (ref_id, ref_type) keys as
    after the first, in the same order; the document's keys are without
    duplicates; and they are exactly the keys of the content's chunks, so
    no row of an earlier run is left over, whatever the table held. *)
Theorem reingestion_idempotent {vector : Type} (digest : string -> string)
  (provider1 provider2 : nat -> string -> response vector) (now1 now2 : nat -> Z)
  (docId content : string) (t : table vector) :
  succeeds provider1 content ->
  succeeds provider2 content ->
  exists chunks t1 t2,
    chunks_of content = Some chunks
    /\ generateAndStoreEmbedding digest provider1 now1 docId content t
       = Some (t1, Returned true)
    /\ generateAndStoreEmbedding digest provider2 now2 docId content t1
       = Some (t2, Returned true)
    /\ map key t2 = map key t1
    /\ NoDup (map key (rows_of docId t2))
    /\ map key (rows_of docId t2)
       = map (fun j => (docId, refType (List.length chunks) j))
             (seq 0 (List.length chunks))
    /\ other_rows docId t2 = other_rows docId t.
Proof.
  intros Hok1 Hok2.
  destruct (successful_run digest provider1 now1 docId content t Hok1)
    as (chunks & t1 & Hcs & Hrun1 & Ht1 & Hrows1 & Hother1 & Hall1).
  destruct (successful_run digest provider2 now2 docId content t1 Hok2)
    as (chunks' & t2 & Hcs' & Hrun2 & Ht2 & Hrows2 & Hother2 & Hall2).
  rewrite Hcs in Hcs'. injection Hcs' as <-.
  assert (Hkeys : forall p nw (rows : table vector),
             Forall2 (row_for digest p nw docId (List.length chunks))
                     (combine (seq 0 (List.length chunks)) chunks) rows ->
             map key rows = map (fun j => (docId, refType (List.length chunks) j))
                                (seq 0 (List.length chunks))).
  { intros p nw rows H. rewrite (row_for_keys digest p nw docId _ _ _ H).
    rewrite <- (map_map fst (fun j => (docId, refType (List.length chunks) j))).
    now rewrite map_fst_combine by apply length_seq. }
  exists chunks, t1, t2. repeat split; try assumption.
  - rewrite Ht2, Hother1, Ht1.
    rewrite !map_app. f_equal.
    rewrite <- Hrows1, <- Hrows2.
    now rewrite (Hkeys _ _ _ Hall1), (Hkeys _ _ _ Hall2).
  - rewrite (Hkeys _ _ _ Hall2). apply chunk_keys_NoDup.
  - apply (Hkeys _ _ _ Hall2).
  - congruence.
Qed.

Lemma row_for_types {vector : Type} (digest : string -> string)
  (provider : nat -> string -> response vector) (now : nat -> Z)
  (docId : string) (n : nat) (ics : list (nat * string)) (rows : table vector) :
  Forall2 (row_for digest provider now docId n) ics rows ->
  map ref_type rows = map (fun ic => refType n (fst ic)) ics.
Proof.
  induction 1 as [|ic r ics rows (_ & Hty & _) _ IH]; [reflexivity|].
  cbn [map]. now rewrite IH, Hty.
Qed.

(** C5, as amended. A run the provider answers throughout stores one row
    per chunk.  Content of at most 2000 units is one chunk, stored as one
    row of type ['document']; longer content is cut by [chunkText] with
    size 500 and overlap 50 and stored as rows ['document_chunk_<i>'], [i]
    counting from 0; content of 3000 units gives 7 rows.  The content
    hash of a row is the digest of its own chunk's text: rows of the same
    chunk text carry the same hash, and rows with different hashes have
    different chunk texts. *)
Theorem default_chunking_policy {vector : Type} (digest : string -> string)
  (provider : nat -> string -> response vector) (now : nat -> Z)
  (docId content : string) (t : table vector) :
  succeeds provider content ->
  exists chunks t',
    chunks_of content = Some chunks
    /\ generateAndStoreEmbedding digest provider now docId content t
       = Some (t', Returned true)
    /\ Forall2 (row_for digest provider now docId (List.length chunks))
               (combine (seq 0 (List.length chunks)) chunks)
               (rows_of docId t')
    /\ (JS.len content <= 2000 ->
          chunks = [content] /\ map ref_type (rows_of docId t') = ["document"])
    /\ (2000 < JS.len content ->
          Chunker.chunkText (S (String.length content)) content 500 50 = Some chunks
          /\ map ref_type (rows_of docId t')
             = map (fun i => "document_chunk_" ++ JS.of_nat i)
                   (seq 0 (List.length chunks)))
    /\ (JS.len content = 3000 -> List.length (rows_of docId t') = 7%nat)
    /\ (forall i ri,
          nth_error (rows_of docId t') i = Some ri ->
          content_hash ri = digest (nth i chunks ""))
    /\ (forall i j ri rj,
          nth_error (rows_of docId t') i = Some ri ->
          nth_error (rows_of docId t') j = Some rj ->
          content_hash ri <> content_hash rj ->
          nth i chunks "" <> nth j chunks "").
Proof.
  intros Hok.
  destruct (successful_run digest provider now docId content t Hok)
    as (chunks & t' & Hcs & Hrun & Ht' & Hrows & Hother & Hall).
  pose proof (Forall2_length Hall) as Hlen.
  rewrite length_combine, length_seq, Nat.min_id in Hlen.
  pose proof (row_for_types _ _ _ _ _ _ _ Hall) as Htypes.
  rewrite <- (map_map fst (refType (List.length chunks))) in Htypes.
  rewrite map_fst_combine in Htypes by apply length_seq.
  pose proof (chunks_of_returns content) as Hshape. rewrite Hcs in Hshape.
  exists chunks, t'.
  split; [assumption|]. split; [assumption|]. split; [assumption|].
  split; [|split; [|split; [|split]]].
  - intros Hshort. destruct (Z.ltb_spec 2000 (JS.len content)); [lia|].
    injection Hshape as ->. now rewrite Htypes.
  - intros Hlong. split.
    + rewrite <- Hcs. unfold chunks_of.
      now destruct (Z.ltb_spec 2000 (JS.len content)); [|lia].
    + rewrite Htypes. apply map_ext. intros i. unfold refType.
      destruct (Nat.eqb_spec (List.length chunks) 1) as [Hone|_]; [|reflexivity].
      exfalso.
      destruct (Z.ltb_spec 2000 (JS.len content)); [|lia].
      injection Hshape as Hshape. rewrite Hshape, length_map, length_seq in Hone.
      pose proof (ChunkerFacts.turns_reach content 450 ltac:(lia)) as Hreach.
      change (500 - 50) with 450 in Hone. rewrite Hone in Hreach. lia.
  - intros H3000. rewrite <- Hlen.
    destruct (Z.ltb_spec 2000 (JS.len content)); [|lia].
    injection Hshape as ->. rewrite length_map, length_seq.
    unfold Chunker.turns. rewrite H3000. reflexivity.
  - intros i ri Hi. rewrite Hrows in Hi. now apply stored_row in Hi as [Hi _].
  - intros i j ri rj Hi Hj Hne Heq.
    rewrite Hrows in Hi, Hj.
    apply stored_row in Hi as [Hi _]. apply stored_row in Hj as [Hj _].
    apply Hne. congruence.
Qed.

Lemma failure_keeps_stored_prefix_witness :
  exists t' o,
    generateAndStoreEmbedding SHA256.hexdigest (Sample.refuses 1) Sample.clock
      "doc-1" Sample.long_text [] = Some (t', o)
    /\ (Sample.refuses 1 1 (nth 1 Sample.long_chunks "") = NotOk -> o = Returned false)
    /\ (Sample.refuses 1 1 (nth 1 Sample.long_chunks "") = Throws -> o = Threw)
    /\ map key (rows_of "doc-1" t')
       = map (fun j => ("doc-1", refType (List.length Sample.long_chunks) j)) (seq 0 1)
    /\ other_rows "doc-1" t' = other_rows "doc-1" [].
Proof.
  apply (failure_keeps_stored_prefix SHA256.hexdigest (Sample.refuses 1) Sample.clock
           "doc-1" Sample.long_text [] Sample.long_chunks 1).
  - vm_compute. reflexivity.
  - vm_compute. lia.
  - intros j Hj. assert (j = 0%nat) as -> by lia. eexists. reflexivity.
  - exact I.
Defined.

(** C2 as first stated fails: the provider answers for chunk 0 of a
    five-chunk document and refuses chunk 1; the call returns [false] and
    the table is left holding the row of chunk 0 alone. *)
Lemma partial_embedding_remains :
  chunks_of Sample.long_text = Some Sample.long_chunks
  /\ List.length Sample.long_chunks = 5%nat
  /\ exists t',
       generateAndStoreEmbedding SHA256.hexdigest (Sample.refuses 1) Sample.clock
         "doc-1" Sample.long_text [] = Some (t', Returned false)
       /\ map key (rows_of "doc-1" t') = [("doc-1", "document_chunk_0")].
Proof.
  split; [vm_compute; reflexivity|]. split; [reflexivity|].
  eexists. split; vm_compute; reflexivity.
Qed.

Lemma reingestion_idempotent_witness :
  exists chunks t1 t2,
    chunks_of "Hello world" = Some chunks
    /\ generateAndStoreEmbedding SHA256.hexdigest Sample.answers Sample.clock
         "doc-1" "Hello world" [] = Some (t1, Returned true)
    /\ generateAndStoreEmbedding SHA256.hexdigest Sample.answers Sample.clock
         "doc-1" "Hello world" t1 = Some (t2, Returned true)
    /\ map key t2 = map key t1
    /\ NoDup (map key (rows_of "doc-1" t2))
    /\ map key (rows_of "doc-1" t2)
       = map (fun j => ("doc-1", refType (List.length chunks) j))
             (seq 0 (List.length chunks))
    /\ other_rows "doc-1" t2 = other_rows "doc-1" [].
Proof.
  apply (reingestion_idempotent SHA256.hexdigest Sample.answers Sample.answers
           Sample.clock Sample.clock "doc-1" "Hello world" []);
    intros chunks _ j _; eexists; reflexivity.
Defined.

Example hello_world_twice :
  let run := generateAndStoreEmbedding SHA256.hexdigest Sample.answers Sample.clock
               "doc-1" "Hello world" in
  exists t1 t2,
    run [] = Some (t1, Returned true) /\ run t1 = Some (t2, Returned true)
    /\ map key t1 = [("doc-1", "document")]
    /\ map key t2 = [("doc-1", "document")]
    /\ map content_hash t2
       = ["64ec88ca00b268e5ba1a35678a1b5316d212f4f366b2477232534a8aeca37f3c"].
Proof.
  eexists _, _. cbv zeta.
  split; [vm_compute; reflexivity|]. split; [vm_compute; reflexivity|].
  split; [vm_compute; reflexivity|]. split; vm_compute; reflexivity.
Qed.

Lemma default_chunking_policy_witness :
  exists chunks t',
    chunks_of Sample.numbered_text = Some chunks
    /\ generateAndStoreEmbedding Utf16.digest Sample.answers Sample.clock
         "doc-1" Sample.numbered_text [] = Some (t', Returned true)
    /\ Forall2 (row_for Utf16.digest Sample.answers Sample.clock "doc-1"
                  (List.length chunks))
               (combine (seq 0 (List.length chunks)) chunks)
               (rows_of "doc-1" t')
    /\ (JS.len Sample.numbered_text <= 2000 ->
          chunks = [Sample.numbered_text]
          /\ map ref_type (rows_of "doc-1" t') = ["document"])
    /\ (2000 < JS.len Sample.numbered_text ->
          Chunker.chunkText (S (String.length Sample.numbered_text))
            Sample.numbered_text 500 50 = Some chunks
          /\ map ref_type (rows_of "doc-1" t')
             = map (fun i => "document_chunk_" ++ JS.of_nat i)
                   (seq 0 (List.length chunks)))
    /\ (JS.len Sample.numbered_text = 3000 ->
          List.length (rows_of "doc-1" t') = 7%nat)
    /\ (forall i ri,
          nth_error (rows_of "doc-1" t') i = Some ri ->
          content_hash ri = Utf16.digest (nth i chunks ""))
    /\ (forall i j ri rj,
          nth_error (rows_of "doc-1" t') i = Some ri ->
          nth_error (rows_of "doc-1" t') j = Some rj ->
          content_hash ri <> content_hash rj ->
          nth i chunks "" <> nth j chunks "").
Proof.
  apply (default_chunking_policy Utf16.digest Sample.answers Sample.clock
           "doc-1" Sample.numbered_text []).
  intros chunks _ j _. eexists. reflexivity.
Defined.

Example three_thousand_units :
  JS.len Sample.numbered_text = 3000
  /\ exists t',
       generateAndStoreEmbedding Utf16.digest Sample.answers Sample.clock
         "doc-1" Sample.numbered_text [] = Some (t', Returned true)
       /\ map ref_type t'
          = ["document_chunk_0"; "document_chunk_1"; "document_chunk_2";
             "document_chunk_3"; "document_chunk_4"; "document_chunk_5";
             "document_chunk_6"]
       /\ NoDup (map content_hash t').
Proof.
  split; [vm_compute; reflexivity|].
  eexists. split; [vm_compute; reflexivity|].
  split; [vm_compute; reflexivity|].
  vm_compute.
  repeat (constructor; [cbn; intuition discriminate|]). constructor.
Qed.

End EmbeddingFacts.

(** ** The chunker and the digest over UTF-16 *)

Module Utf16Facts.

Import Utf16 StringFacts.

Lemma len_of_string (s : string) : len (of_string s) = JS.len s.
Proof. unfold len, of_string, JS.len. now rewrite length_map, units_length. Qed.

Lemma slice_of_string (s : string) (a b : Z) :
  slice (of_string s) a b = of_string (JS.slice s a b).
Proof.
  unfold slice, JS.slice. rewrite len_of_string.
  unfold of_string. now rewrite units_substring, skipn_map, firstn_map.
Qed.

(** On the strings of the modules above, the loop here is the loop of
    [Chunker]. *)
Lemma while_of_string (s : string) (chunkSize overlap : Z) (fuel : nat) :
  forall st : Chunker.loop_state,
  while fuel (of_string s) chunkSize overlap (Chunker.start st)
    (map of_string (Chunker.chunks st))
  = option_map (fun st' => map of_string (Chunker.chunks st'))
      (Chunker.while fuel s chunkSize overlap st).
Proof.
  induction fuel as [|fuel IH]; intros st; cbn [while Chunker.while];
    unfold Chunker.loop_guard; rewrite len_of_string;
    destruct (Chunker.start st <? JS.len s); try reflexivity.
  rewrite <- IH. unfold Chunker.loop_body. cbn [Chunker.start Chunker.chunks].
  now rewrite map_app, slice_of_string.
Qed.

Lemma chunkText_of_string (s : string) (chunkSize overlap : Z) (fuel : nat) :
  chunkText fuel (of_string s) chunkSize overlap
  = option_map (map of_string) (Chunker.chunkText fuel s chunkSize overlap).
Proof.
  unfold chunkText, Chunker.chunkText. rewrite len_of_string.
  destruct (JS.len s <=? chunkSize); [reflexivity|].
  pose proof (while_of_string s chunkSize overlap fuel Chunker.loop_init) as H.
  cbn [Chunker.loop_init Chunker.start Chunker.chunks map] in H. rewrite H.
  now destruct (Chunker.while fuel s chunkSize overlap _).
Qed.

Lemma chunks_of_string (s : string) :
  chunks_of (of_string s) = option_map (map of_string) (Embeddings.chunks_of s).
Proof.
  unfold chunks_of, Embeddings.chunks_of. rewrite len_of_string.
  destruct (2000 <? JS.len s); [|reflexivity].
  unfold of_string at 1. rewrite length_map, units_length.
  apply chunkText_of_string.
Qed.

(** Text in ASCII is its own UTF-8 encoding, so its digest is the hash of
    its characters. *)
Lemma utf8_ascii (l : list Z) :
  Forall (fun u => 0 <= u < 128) l -> utf8 l = l.
Proof.
  induction 1 as [|u l Hu _ IH]; [reflexivity|].
  cbn [utf8]. unfold is_high, is_low, encode.
  destruct (Z.leb_spec 0xD800 u); [lia|].
  destruct (Z.leb_spec 0xDC00 u); [lia|].
  destruct (Z.ltb_spec u 0x80); [|lia].
  cbn [andb app]. now rewrite IH.
Qed.

Lemma bytes_of_string (s : string) : bytes (of_string s) = s.
Proof.
  unfold bytes, of_string. rewrite map_map.
  rewrite (map_ext _ (fun c => c)).
  - rewrite map_id. apply string_of_list_ascii_of_string.
  - intros c. now rewrite N2Z.id, ascii_N_embedding.
Qed.

Lemma digest_ascii (s : string) :
  ascii_only s -> digest s = SHA256.hexdigest s.
Proof.
  intros H. unfold digest, contentHash.
  rewrite utf8_ascii; [now rewrite bytes_of_string|].
  unfold of_string. apply Forall_map. eapply Forall_impl; [|exact H].
  intros c Hc. cbv beta in *. lia.
Qed.

(** C5 as first stated fails.  The content is well-formed UTF-16, 2001
    units long, so it is chunked; its first two chunks are different
    texts, each ending in one half of a surrogate pair that the cut has
    split, a different half in each; their UTF-8 encodings are the same,
    and so are the content hashes stored with them, in the rows
    ['document_chunk_0'] and ['document_chunk_1']. *)
Lemma cut_pair_shares_hash :
  well_formed Fixtures.emoji_text = true
  /\ len Fixtures.emoji_text = 2001
  /\ exists c0 c1 rest h hashes,
       chunks_of Fixtures.emoji_text = Some (c0 :: c1 :: rest)
       /\ c0 <> c1
       /\ contentHash c0 = contentHash c1
       /\ content_hashes Fixtures.emoji_text = Some (h :: h :: hashes).
Proof.
  split; [vm_compute; reflexivity|]. split; [vm_compute; reflexivity|].
  eexists _, _, _, _, _. split; [vm_compute; reflexivity|]. split; [|split].
  - intros H. apply (f_equal (fun l => nth 499 l 0)) in H.
    vm_compute in H. discriminate H.
  - unfold contentHash. apply (f_equal SHA256.hexdigest), (f_equal bytes).
    vm_compute. reflexivity.
  - vm_compute. reflexivity.
Qed.

(** The fingerprint of the dedup scenario, by the digest of the code. *)
Example digest_of_invoice :
  Utf16.digest "risk:executor:Invoice overdue"
  = "4012d5399b5a3fe5ea0f34dcf94e6679b916e91acd2f77cb9c2d45655a2588cf".
Proof. vm_compute. reflexivity. Qed.

(** The encoding on a letter, on U+00E9 and U+20AC, on the pair of
    U+1F600, and on surrogates without their partner. *)
Example utf8_samples :
  utf8 [0x61] = [0x61]
  /\ utf8 [0xE9] = [0xC3; 0xA9]
  /\ utf8 [0x20AC] = [0xE2; 0x82; 0xAC]
  /\ utf8 [0xD83D; 0xDE00] = [0xF0; 0x9F; 0x98; 0x80]
  /\ utf8 [0xD83D] = [0xEF; 0xBF; 0xBD]
  /\ utf8 [0xD83C] = [0xEF; 0xBF; 0xBD]
  /\ utf8 [0xDE00; 0xD83D; 0x61] = [0xEF; 0xBF; 0xBD; 0xEF; 0xBF; 0xBD; 0x61].
Proof. repeat split; reflexivity. Qed.

(** The two chunks, their last units and the hash they share. *)
Example emoji_chunks :
  exists c0 c1 rest,
    chunks_of Fixtures.emoji_text = Some (c0 :: c1 :: rest)
    /\ (len c0, len c1) = (500, 500)
    /\ (nth 499 c0 0, nth 499 c1 0) = (0xD83D, 0xD83C)
    /\ contentHash c0
       = "e217d09b728f2a29425292d6c6960abf2ad9cb1e617b8b93ba4472a0657550d5"
    /\ contentHash c1
       = "e217d09b728f2a29425292d6c6960abf2ad9cb1e617b8b93ba4472a0657550d5".
Proof.
  eexists _, _, _. split; [vm_compute; reflexivity|].
  split; [vm_compute; reflexivity|]. split; [vm_compute; reflexivity|].
  split; vm_compute; reflexivity.
Qed.

End Utf16Facts.

(** ** Observations *)

Module ObservationFacts.

Import Observations.

Lemma filter_map_stable {A} (p : A -> bool) (g : A -> A) (l : list A) :
  (forall x, p (g x) = p x) -> filter p (map g l) = map g (filter p l).
Proof.
  intros H. induction l as [|x l IH]; [reflexivity|].
  cbn [map filter]. rewrite H. destruct (p x); cbn [map]; now rewrite IH.
Qed.

Lemma filter_single_find {A} (p : A -> bool) (l : list A) (x : A) :
  filter p l = [x] -> find p l = Some x.
Proof.
  induction l as [|y l IH]; cbn [filter find]; [discriminate|].
  destruct (p y); [now intros [= ->]|exact IH].
Qed.

Lemma filter_absent (fp : string) (t : table) :
  ~ In fp (map fingerprint t) -> filter (has_fingerprint fp) t = [].
Proof.
  induction t as [|r t IH]; intros Hno; [reflexivity|].
  cbn [filter]. destruct (has_fingerprint fp r) eqn:E.
  - exfalso. apply Hno. left. now apply String.eqb_eq in E.
  - apply IH. intros Hin. apply Hno. now right.
Qed.

Lemma unique_find_filter (fp : string) (t : table) (old : observation) :
  fingerprint_unique t ->
  find (has_fingerprint fp) t = Some old ->
  filter (has_fingerprint fp) t = [old].
Proof.
  unfold fingerprint_unique.
  induction t as [|r t IH]; cbn [find filter map]; [discriminate|].
  intros Hnd Hfind. inversion Hnd as [|? ? Hr Ht]; subst.
  destruct (has_fingerprint fp r) eqn:E.
  - injection Hfind as ->. f_equal.
    apply String.eqb_eq in E. apply filter_absent. congruence.
  - now apply IH.
Qed.

Section WithDigest.

Variable digest : string -> string.

Let fp_of := fingerprint_of digest.

Lemma on_conflict_fingerprint (fp : string) (d : data) (now : Z) (r : observation) :
  has_fingerprint fp (if has_fingerprint fp r then on_conflict d now r else r)
  = has_fingerprint fp r.
Proof. now destruct (has_fingerprint fp r) eqn:E. Qed.

(** The first of two submissions leaves exactly one row under the
    fingerprint, and returns it. *)
Lemma first_submission (newid : string) (now : Z) (d : data) (t : table) :
  fingerprint_unique t -> checks d = true ->
  exists t1 r1,
    createObservation digest newid now d t = Stored t1 r1
    /\ filter (has_fingerprint (fp_of d)) t1 = [r1]
    /\ fingerprint r1 = fp_of d
    /\ fingerprint_unique t1.
Proof.
  intros Hu Hc. unfold createObservation. rewrite Hc. cbn [negb].
  fold (fp_of d).
  destruct (find (has_fingerprint (fp_of d)) t) as [old|] eqn:Hfind.
  - pose proof (unique_find_filter _ _ _ Hu Hfind) as Hone.
    apply find_some in Hfind as [_ Hfp].
    eexists _, _. split; [reflexivity|]. split; [|split].
    + rewrite filter_map_stable by (intros x; apply on_conflict_fingerprint).
      rewrite Hone. cbn [map]. now rewrite Hfp.
    + cbn. now apply String.eqb_eq.
    + unfold fingerprint_unique in *. rewrite map_map.
      erewrite map_ext; [exact Hu|].
      intros r. now destruct (has_fingerprint (fp_of d) r).
  - eexists _, _. split; [reflexivity|]. split; [|split].
    + rewrite filter_app. cbn [filter]. unfold has_fingerprint at 2.
      cbn [fingerprint]. rewrite String.eqb_refl.
      rewrite filter_absent; [reflexivity|].
      intros Ha. apply in_map_iff in Ha as (r & Hr & Hin).
      pose proof (find_none _ _ Hfind r Hin) as Hno.
      unfold has_fingerprint in Hno. apply String.eqb_neq in Hno. congruence.
    + reflexivity.
    + unfold fingerprint_unique in *. rewrite map_app. cbn [map fingerprint].
      apply NoDup_app; [assumption|repeat constructor; intros []|].
      intros a Ha [<-|[]].
      apply in_map_iff in Ha as (r & Hr & Hin).
      pose proof (find_none _ _ Hfind r Hin) as Hno.
      unfold has_fingerprint in Hno. apply String.eqb_neq in Hno. congruence.
Qed.

(** A submission that meets a row under its fingerprint updates that row
    in place. *)
Lemma submission_on_conflict (newid : string) (now : Z) (d : data) (t : table)
  (r : observation) :
  filter (has_fingerprint (fp_of d)) t = [r] -> checks d = true ->
  exists t2,
    createObservation digest newid now d t = Stored t2 (on_conflict d now r)
    /\ filter (has_fingerprint (fp_of d)) t2 = [on_conflict d now r]
    /\ List.length t2 = List.length t
    /\ map fingerprint t2 = map fingerprint t
    /\ map id t2 = map id t.
Proof.
  intros Hone Hc. unfold createObservation. rewrite Hc. cbn [negb].
  fold (fp_of d). rewrite (filter_single_find _ _ _ Hone).
  assert (Hfp : has_fingerprint (fp_of d) r = true).
  { assert (In r (filter (has_fingerprint (fp_of d)) t)) as Hin
      by (rewrite Hone; now left).
    now apply filter_In in Hin. }
  eexists. split; [reflexivity|]. split; [|split; [|split]].
  - rewrite filter_map_stable by (intros x; apply on_conflict_fingerprint).
    rewrite Hone. cbn [map]. now rewrite Hfp.
  - apply length_map.
  - rewrite map_map. apply map_ext. intros x.
    now destruct (has_fingerprint (fp_of d) x).
  - rewrite map_map. apply map_ext. intros x.
    now destruct (has_fingerprint (fp_of d) x).
Qed.

(** Two submissions one after the other, the second under the
    fingerprint of the first. *)
Lemma two_submissions (id1 id2 : string) (now1 now2 : Z) (d1 d2 : data) (t : table) :
  fingerprint_unique t -> checks d1 = true -> checks d2 = true ->
  fp_of d1 = fp_of d2 ->
  exists t1 r1 t2,
    createObservation digest id1 now1 d1 t = Stored t1 r1
    /\ createObservation digest id2 now2 d2 t1 = Stored t2 (on_conflict d2 now2 r1)
    /\ filter (has_fingerprint (fp_of d1)) t2 = [on_conflict d2 now2 r1]
    /\ List.length t2 = List.length t1
    /\ map id t2 = map id t1
    /\ fingerprint r1 = fp_of d1
    /\ fingerprint_unique t2.
Proof.
  intros Hu Hc1 Hc2 Hfp.
  destruct (first_submission id1 now1 d1 t Hu Hc1) as (t1 & r1 & Hrun1 & Hone & Hr1 & Hu1).
  rewrite Hfp in Hone.
  destruct (submission_on_conflict id2 now2 d2 t1 r1 Hone Hc2)
    as (t2 & Hrun2 & Hone2 & Hlen & Hfps & Hids).
  exists t1, r1, t2. rewrite Hfp. repeat split; try assumption.
  - congruence.
  - unfold fingerprint_unique. now rewrite Hfps.
Qed.


End WithDigest.



(** The dedup scenario, run. *)
Example invoice_overdue_twice :
  exists t1 r1 t2 r2,
    createObservation SHA256.hexdigest "id-1" 10 Sample.invoice [] = Stored t1 r1
    /\ createObservation SHA256.hexdigest "id-2" 20 Sample.invoice_again t1 = Stored t2 r2
    /\ t2 = [r2]
    /\ (id r1, updated_at r1, severity r1) = ("id-1", 10, "info")
    /\ (id r2, updated_at r2, severity r2) = ("id-1", 20, "info")
    /\ fingerprint r2
       = "4012d5399b5a3fe5ea0f34dcf94e6679b916e91acd2f77cb9c2d45655a2588cf".
Proof.
  eexists _, _, _, _.
  split; [vm_compute; reflexivity|]. split; [vm_compute; reflexivity|].
  split; [reflexivity|]. split; [reflexivity|]. split; reflexivity.
Qed.

(** C10. The fingerprint is the digest of [category ":" source_agent ":"
    content], and the joined text does not determine the three fields:
    there are two submissions, both accepted by the table, whose triples
    differ and whose fingerprints agree, whatever the digest.  Submitted
    one after the other, the second inserts no row: it overwrites the
    content of the row the first one left, which keeps its id and its
    source agent. *)
Theorem fingerprint_not_injective (digest : string -> string) :
  (forall d, fingerprint_of digest d
             = digest (d_category d ++ ":" ++ d_source_agent d ++ ":" ++ d_content d))
  /\ exists d1 d2,
       checks d1 = true /\ checks d2 = true
       /\ (d_category d1, d_source_agent d1, d_content d1)
          <> (d_category d2, d_source_agent d2, d_content d2)
       /\ fingerprint_of digest d1 = fingerprint_of digest d2
       /\ forall (id1 id2 : string) (now1 now2 : Z) (t : table),
            fingerprint_unique t ->
            exists t1 r1 t2 r2,
              createObservation digest id1 now1 d1 t = Stored t1 r1
              /\ createObservation digest id2 now2 d2 t1 = Stored t2 r2
              /\ List.length t2 = List.length t1
              /\ filter (has_fingerprint (fingerprint_of digest d1)) t2 = [r2]
              /\ id r2 = id r1
              /\ source_agent r2 = source_agent r1
              /\ content r2 = d_content d2.
Proof.
  split; [reflexivity|].
  exists Sample.colon_left, Sample.colon_right.
  split; [reflexivity|]. split; [reflexivity|].
  split; [cbn; intros [= ]|].
  split; [reflexivity|].
  intros id1 id2 now1 now2 t Hu.
  destruct (two_submissions digest id1 id2 now1 now2 Sample.colon_left
              Sample.colon_right t Hu eq_refl eq_refl eq_refl)
    as (t1 & r1 & t2 & Hrun1 & Hrun2 & Hone & Hlen & Hids & Hr1 & Hu2).
  exists t1, r1, t2, (on_conflict Sample.colon_right now2 r1).
  repeat split; assumption.
Qed.

(** The collision, run on an empty table. *)
Example colon_collision :
  exists t1 r1 t2 r2,
    createObservation SHA256.hexdigest "id-1" 10 Sample.colon_left [] = Stored t1 r1
    /\ createObservation SHA256.hexdigest "id-2" 20 Sample.colon_right t1 = Stored t2 r2
    /\ (source_agent r1, content r1) = ("a:b", "c")
    /\ t2 = [r2]
    /\ (id r2, source_agent r2, content r2) = ("id-1", "a:b", "b:c").
Proof.
  eexists _, _, _, _.
  split; [vm_compute; reflexivity|]. split; [vm_compute; reflexivity|].
  split; [reflexivity|]. split; reflexivity.
Qed.

End ObservationFacts.

(** ** Document upload *)

Module UploadFacts.

Import Upload.

Section WithEnvironment.

Context {vector : Type}.
Variable digest : string -> string.
Variable now : nat -> Z.
Variable uuid : nat -> string.
Variable pdf_parse : file -> pdf_result.
Variable json_parse : string -> option (list string).

Let provider_t := nat -> string -> Embeddings.response vector.

(** A request is either turned down before anything is written, the same
    way for every provider, or reaches the shared tail with fields that do
    not depend on the provider. *)
Lemma POST_cases (req : request) (d : db vector) :
  (exists e s, s <> 200%nat
     /\ forall provider : provider_t,
          POST digest provider now uuid pdf_parse json_parse req d
          = Some (d, Json (ErrorBody e) s))
  \/ (exists title content doc_type metadata tags,
        forall provider : provider_t,
          POST digest provider now uuid pdf_parse json_parse req d
          = store_and_embed digest provider now uuid title content doc_type
              metadata tags d).
Proof.
  assert (Hbad : forall msg,
             exists e s, s <> 200%nat
               /\ forall _ : provider_t, bad_request d msg = Some (d, Json (ErrorBody e) s))
    by (intros msg; exists msg, 400%nat; split; [lia|reflexivity]).
  destruct req as [[f|] title docType tagsJson | title content doc_type tags]; cbn [POST].
  - destruct title as [title|]; [|left; apply Hbad].
    destruct docType as [docType|]; [|left; apply Hbad].
    destruct (String.eqb title "" || String.eqb docType "")%bool; [left; apply Hbad|].
    destruct (JS.endsWith (JS.toLowerCase (name f)) ".pdf").
    + destruct (pdf_parse f) as [text|[message|]]; try (left; apply Hbad).
      destruct (String.eqb (JS.trim text) ""); [left; apply Hbad|].
      destruct (match tagsJson with
                | Some j => if String.eqb j "" then Some [] else json_parse j
                | None => Some []
                end) as [tags|].
      * right. now eexists _, _, _, _, _.
      * left. exists "Failed to upload document", 500%nat. split; [lia|reflexivity].
    + destruct (match tagsJson with
                | Some j => if String.eqb j "" then Some [] else json_parse j
                | None => Some []
                end) as [tags|].
      * right. now eexists _, _, _, _, _.
      * left. exists "Failed to upload document", 500%nat. split; [lia|reflexivity].
  - left. apply Hbad.
  - destruct title as [title|]; [|left; apply Hbad].
    destruct content as [content|]; [|left; apply Hbad].
    destruct doc_type as [doc_type|]; [|left; apply Hbad].
    destruct (String.eqb title "" || String.eqb content "" || String.eqb doc_type "")%bool;
      [left; apply Hbad|].
    right. now eexists _, _, _, _, _.
Qed.

(** The shared tail: the document is inserted when the database takes it,
    the embedding call ends one way or another, and the answer carries the
    flag. *)
Lemma store_and_embed_spec (provider : provider_t) (title content doc_type : string)
  (metadata : list (string * string)) (tags : list string) (d : db vector) :
  let doc := mkDocument (uuid (List.length (documents d))) doc_type title content
               metadata tags in
  exists t o,
    Embeddings.generateAndStoreEmbedding digest provider now (id doc) content
      (embeddings d) = Some (t, o)
    /\ store_and_embed digest provider now uuid title content doc_type metadata tags d
       = if admits doc
         then Some (mkDb (documents d ++ [doc]) t,
                    Json (Uploaded (id doc) (flag_of o)) 200)
         else Some (d, Json (ErrorBody "Failed to upload document") 500).
Proof.
  intros doc. unfold store_and_embed, storeDocumentFromUpload. fold doc.
  destruct (EmbeddingFacts.generateAndStoreEmbedding_spec digest provider now
              (id doc) content (embeddings d)) as (chunks & _ & Hrun).
  eexists _, _. split; [exact Hrun|].
  destruct (admits doc); [|reflexivity].
  cbn [embeddings documents]. rewrite Hrun.
  now destruct (Embeddings.ending_from provider 0 chunks).
Qed.

(** A provider that fails for a chunk turns the flag off. *)
Lemma failure_turns_flag_off (provider : provider_t) (docId content : string)
  (t t' : Embeddings.table vector) (o : Embeddings.outcome) (chunks : list string)
  (k : nat) :
  Embeddings.generateAndStoreEmbedding digest provider now docId content t
  = Some (t', o) ->
  Embeddings.chunks_of content = Some chunks ->
  (k < List.length chunks)%nat ->
  Embeddings.succeeds_before provider k chunks ->
  Embeddings.failed (provider k (nth k chunks "")) ->
  flag_of o = false.
Proof.
  intros Hrun Hcs Hk Hok Hfail.
  destruct (EmbeddingFacts.generateAndStoreEmbedding_spec digest provider now
              docId content t) as (chunks' & Hcs' & Hrun').
  rewrite Hcs in Hcs'. injection Hcs' as <-.
  rewrite Hrun in Hrun'. injection Hrun' as _ ->.
  destruct (EmbeddingFacts.stops_at_first_failure digest provider now docId
              (List.length chunks) k chunks 0%nat Hk Hok Hfail) as [_ ->].
  cbn [Nat.add] in *.
  now destruct (provider k (nth k chunks "")).
Qed.

(** C7. An upload that the handler does not turn down and whose row the
    database takes has its Document row inserted and is answered 200
    with the document's id and the flag [embedded], whatever the provider
    does: the flag is what the embedding call returned, [false] when it
    threw, and so [false] whenever the provider fails for a chunk.  Those
    uploads are: a JSON body with title, content and doc_type present and
    not empty; a file with title and doc_type present and not empty, tags
    that are absent, empty or parse, and a content that is the file's text
    or, for a name ending in [.pdf], the trimmed text of the PDF when that
    is not empty.  Every request is answered, and an answer other than 200
    is an error body with the store as it was.  For every request, the
    documents table afterwards, the status of the answer and the document
    id in it are the same for every behaviour of the provider. *)
Theorem upload_persists_document (provider : provider_t) (d : db vector) :
  let persisted (title content doc_type : string) (metadata : list (string * string))
        (tags : list string) (req : request) :=
    let doc := mkDocument (uuid (List.length (documents d))) doc_type title content
                 metadata tags in
    admits doc = true ->
    exists t o,
      Embeddings.generateAndStoreEmbedding digest provider now (id doc) content
        (embeddings d) = Some (t, o)
      /\ POST digest provider now uuid pdf_parse json_parse req d
         = Some (mkDb (documents d ++ [doc]) t,
                 Json (Uploaded (id doc) (flag_of o)) 200)
      /\ (forall chunks k,
            Embeddings.chunks_of content = Some chunks ->
            (k < List.length chunks)%nat ->
            Embeddings.succeeds_before provider k chunks ->
            Embeddings.failed (provider k (nth k chunks "")) ->
            flag_of o = false) in
  (forall title content doc_type tags,
     title <> "" -> content <> "" -> doc_type <> "" ->
     persisted title content doc_type []
       (match tags with Some ts => ts | None => [] end)
       (JsonBody (Some title) (Some content) (Some doc_type) tags))
  /\ (forall f title docType tagsJson tags content,
        title <> "" -> docType <> "" ->
        (tagsJson = None /\ tags = [])
        \/ (tagsJson = Some "" /\ tags = [])
        \/ (exists j, tagsJson = Some j /\ j <> "" /\ json_parse j = Some tags) ->
        (if JS.endsWith (JS.toLowerCase (name f)) ".pdf"
         then exists text, pdf_parse f = PdfText text
                           /\ content = JS.trim text /\ content <> ""
         else content = utf8 f) ->
        persisted title content docType
          [("filename", name f); ("file_type", type f);
           ("file_size", JS.of_nat (size f))] tags
          (Multipart (Some f) (Some title) (Some docType) tagsJson))
  /\ (forall req,
        exists d' resp,
          POST digest provider now uuid pdf_parse json_parse req d = Some (d', resp)
          /\ (http_status resp <> 200%nat ->
              d' = d /\ exists e, payload resp = ErrorBody e)
          /\ forall provider' : provider_t,
               exists d'' resp',
                 POST digest provider' now uuid pdf_parse json_parse req d
                 = Some (d'', resp')
                 /\ documents d'' = documents d'
                 /\ http_status resp' = http_status resp
                 /\ (forall i b, payload resp = Uploaded i b ->
                                 exists b', payload resp' = Uploaded i b')).
Proof.
  intros persisted.
  assert (Htail : forall title content doc_type metadata tags req,
            POST digest provider now uuid pdf_parse json_parse req d
            = store_and_embed digest provider now uuid title content doc_type
                metadata tags d ->
            persisted title content doc_type metadata tags req).
  { intros title content doc_type metadata tags req Hpost Hadm.
    destruct (store_and_embed_spec provider title content doc_type metadata tags d)
      as (t & o & Hrun & Hspec).
    cbv zeta in Hrun, Hspec. rewrite Hadm in Hspec.
    exists t, o. split; [exact Hrun|]. split; [now rewrite Hpost|].
    intros chunks k Hcs Hk Hok Hfail.
    exact (failure_turns_flag_off provider _ _ _ _ _ chunks k Hrun Hcs Hk Hok Hfail). }
  split; [|split].
  - intros title content doc_type tags Ht Hc Hd. apply Htail. cbn [POST].
    apply String.eqb_neq in Ht, Hc, Hd. now rewrite Ht, Hc, Hd.
  - intros f title docType tagsJson tags content Ht Hd Htags Hcontent.
    apply Htail. cbn [POST].
    apply String.eqb_neq in Ht, Hd. rewrite Ht, Hd. cbn [orb].
    assert (Hparsed : match tagsJson with
                      | Some j => if String.eqb j "" then Some [] else json_parse j
                      | None => Some []
                      end = Some tags).
    { destruct Htags as [[-> ->]|[[-> ->]|(j & -> & Hj & Hp)]]; try reflexivity.
      apply String.eqb_neq in Hj. now rewrite Hj. }
    destruct (JS.endsWith (JS.toLowerCase (name f)) ".pdf").
    + destruct Hcontent as (text & -> & -> & Hne).
      apply String.eqb_neq in Hne. now rewrite Hne, Hparsed.
    + subst content. now rewrite Hparsed.
  - intros req.
    destruct (POST_cases req d) as
      [(e & s & Hs & Hpost) | (title & text & doc_type & metadata & tags & Hpost)].
    + exists d, (Json (ErrorBody e) s). split; [apply Hpost|].
      split; [intros _; split; [reflexivity|now exists e]|].
      intros provider'. exists d, (Json (ErrorBody e) s).
      split; [apply Hpost|]. repeat split. intros i b [=].
    + destruct (store_and_embed_spec provider title text doc_type metadata tags d)
        as (t & o & _ & Hspec).
      cbv zeta in Hspec. rewrite Hpost, Hspec.
      destruct (admits _) eqn:Hadm.
      * eexists _, _. split; [reflexivity|]. cbn [http_status].
        split; [intros E; now contradiction E|].
        intros provider'.
        destruct (store_and_embed_spec provider' title text doc_type metadata tags d)
          as (t' & o' & _ & Hspec').
        cbv zeta in Hspec'. rewrite Hpost, Hspec', Hadm.
        eexists _, _. split; [reflexivity|]. cbn [documents http_status payload].
        repeat split. intros i b [= <- _]. now eexists.
      * eexists _, _. split; [reflexivity|].
        split; [intros _; split; [reflexivity|now eexists]|].
        intros provider'.
        destruct (store_and_embed_spec provider' title text doc_type metadata tags d)
          as (t' & o' & _ & Hspec').
        cbv zeta in Hspec'. rewrite Hpost, Hspec', Hadm.
        eexists _, _. split; [reflexivity|]. repeat split. intros i b [=].
Qed.

End WithEnvironment.

Lemma upload_persists_document_witness :
  exists t o,
    Embeddings.generateAndStoreEmbedding SHA256.hexdigest (Sample.refuses 0)
      Sample.clock "uuid-0" "Hello world" [] = Some (t, o)
    /\ POST SHA256.hexdigest (Sample.refuses 0) Sample.clock Sample.uuid
         Fixtures.no_pdf Fixtures.no_tags Fixtures.note Fixtures.empty_db
       = Some (mkDb [mkDocument "uuid-0" "note" "Note" "Hello world" [] []] t,
               Json (Uploaded "uuid-0" (flag_of o)) 200)
    /\ flag_of o = false.
Proof.
  destruct (proj1 (upload_persists_document SHA256.hexdigest Sample.clock Sample.uuid
                     Fixtures.no_pdf Fixtures.no_tags (Sample.refuses 0)
                     Fixtures.empty_db)
              "Note" "Hello world" "note" None
              ltac:(discriminate) ltac:(discriminate) ltac:(discriminate) eq_refl)
    as (t & o & Hrun & Hpost & Hflag).
  exists t, o. split; [exact Hrun|]. split; [exact Hpost|].
  apply (Hflag ["Hello world"] 0%nat).
  - reflexivity.
  - cbn. lia.
  - intros j Hj. lia.
  - exact I.
Defined.

(** A text file with U+0000 in it: the database refuses the row, nothing
    is stored and the answer is 500. *)
Example upload_with_nul_is_a_500 :
  POST SHA256.hexdigest Sample.answers Sample.clock Sample.uuid
    Fixtures.no_pdf Fixtures.no_tags
    (Multipart (Some (mkFile "a.txt" "text/plain" 3 (String "a" (String zero "b"))))
       (Some "A") (Some "note") None)
    Fixtures.empty_db
  = Some (Fixtures.empty_db, Json (ErrorBody "Failed to upload document") 500).
Proof. reflexivity. Qed.

(** A JSON upload while the provider refuses every request: the document
    is stored, nothing is embedded, the answer is 200 with the flag off. *)
Example upload_while_provider_refuses :
  POST SHA256.hexdigest (Sample.refuses 0) Sample.clock Sample.uuid
    (fun _ => PdfFails None) (fun _ => Some [])
    (JsonBody (Some "Note") (Some "Hello world") (Some "note") None)
    (mkDb [] [])
  = Some (mkDb [mkDocument "uuid-0" "note" "Note" "Hello world" [] []] [],
          Json (Uploaded "uuid-0" false) 200).
Proof. vm_compute. reflexivity. Qed.

Example upload_without_title :
  POST SHA256.hexdigest Sample.answers Sample.clock Sample.uuid
    (fun _ => PdfFails None) (fun _ => Some [])
    (JsonBody (Some "") (Some "Hello world") (Some "note") None)
    (mkDb [] [])
  = Some (mkDb [] [],
          Json (ErrorBody "Missing required fields: title, content, doc_type") 400).
Proof. reflexivity. Qed.

End UploadFacts.

(** ** The streaming routes *)

Module OrchestratorFacts.

Import Orchestrator StringFacts.

Section Handlers.

Variable unavailable : string.
Variable exited : option Z -> string.
Variable insert : string -> list event -> list event.

(** The data handler, over everything the process writes. *)
Lemma run_stdout (output : list string) :
  forall (f : string) (q : list string) (tm k : bool) (st : list event),
  run unavailable exited insert (map Stdout output) (mkStream f q false tm k st)
  = mkStream (f ++ JS.join output) (q ++ output) false tm k st.
Proof.
  unfold run. induction output as [|a output IH]; intros f q tm k st.
  - cbn. now rewrite append_empty_r, app_nil_r.
  - cbn [map fold_left]. cbn [handle onData andThen append assign enqueue fst
                             fullResponse enqueued closed timer killed store].
    rewrite IH. cbn [JS.join fold_right].
    now rewrite append_assoc, <- app_assoc.
Qed.

Lemma run_then (l1 l2 : list proc_event) (s : stream) :
  run unavailable exited insert (l1 ++ l2) s
  = run unavailable exited insert l2 (run unavailable exited insert l1 s).
Proof. unfold run. apply fold_left_app. Qed.

(** The error handler on an open stream. *)
Lemma onError_open (f : string) (q : list string) (tm k : bool) (st : list event) :
  fst (onError unavailable insert (mkStream f q false tm k st))
  = if String.eqb f ""
    then mkStream unavailable (q ++ [unavailable]) true false k (insert unavailable st)
    else mkStream f q true false k (insert f st).
Proof.
  unfold onError, andThen, when, clearTimeout, empty. cbn.
  rewrite len_zero. now destruct (String.eqb f "").
Qed.

(** The close handler on an open stream. *)
Lemma onClose_open (code : option Z) (f : string) (q : list string) (tm k : bool)
  (st : list event) :
  exited code <> "" ->
  fst (onClose exited insert code (mkStream f q false tm k st))
  = if String.eqb f ""
    then if nonzero code
         then mkStream (exited code) (q ++ [exited code]) true false k
                       (insert (exited code) st)
         else mkStream f q true false k st
    else mkStream f q true false k (insert f st).
Proof.
  intros Hne.
  unfold onClose, andThen, when, clearTimeout, empty. cbn.
  rewrite len_zero. destruct (String.eqb f "") eqn:Ef.
  - destruct (nonzero code); cbn.
    + rewrite len_zero. apply String.eqb_neq in Hne. now rewrite Hne.
    + now rewrite len_zero, Ef.
  - rewrite andb_false_r. cbn. now rewrite len_zero, Ef.
Qed.

(** The close handler after the error handler has closed the stream: the
    text is stored once more, and [streamController.close] throws. *)
Lemma onClose_closed (code : option Z) (f : string) (q : list string) (tm k : bool)
  (st : list event) :
  f <> "" ->
  fst (onClose exited insert code (mkStream f q true tm k st))
  = mkStream f q true false k (insert f st).
Proof.
  intros Hne. apply String.eqb_neq in Hne.
  unfold onClose, andThen, when, clearTimeout, empty. cbn.
  rewrite len_zero, Hne, andb_false_r. cbn. now rewrite len_zero, Hne.
Qed.

End Handlers.

Lemma text_ok_app (a b : string) :
  SQL.text_ok (a ++ b) = SQL.text_ok a && SQL.text_ok b.
Proof.
  induction a as [|c a IH]; [reflexivity|].
  cbn [String.append SQL.text_ok]. now rewrite IH, andb_assoc.
Qed.

(** What one invocation leaves in the events table, for each way it
    ends. *)
Lemma respond_store (unavailable : string) (exited : option Z -> string)
  (ins : string -> list event -> option (list event * event)) (c : completion)
  (evs : list event) :
  unavailable <> "" -> (forall code, exited code <> "") ->
  fst (respond (reports c) unavailable exited ins evs)
  = if silent_clean_exit c then evs
    else if error_then_close c
    then logged ins (transcript_text unavailable exited c)
           (logged ins (transcript_text unavailable exited c) evs)
    else logged ins (transcript_text unavailable exited c) evs.
Proof.
  intros Hun Hex.
  destruct c as [|output closing|output|output code]; cbn [reports respond].
  - cbn [silent_clean_exit error_then_close transcript_text]. unfold logged.
    now destruct (ins unavailable evs) as [[evs' ev]|].
  - cbn [fst silent_clean_exit transcript_text].
    rewrite run_then, run_stdout. cbn [String.append app].
    destruct closing as [code|]; cbn [error_then_close run fold_left handle];
      rewrite onError_open.
    + destruct (String.eqb_spec (JS.join output) "") as [E|E];
        now rewrite onClose_closed.
    + now destruct (String.eqb (JS.join output) "").
  - cbn [fst silent_clean_exit error_then_close transcript_text].
    rewrite run_then, run_stdout. cbn [String.append app run fold_left handle].
    cbn [onTimeout when timer andThen spend clearTimeout kill fst fullResponse
         enqueued closed killed store].
    rewrite onClose_open by apply Hex. cbn [nonzero].
    now destruct (String.eqb (JS.join output) "").
  - cbn [fst error_then_close transcript_text].
    rewrite run_then, run_stdout. cbn [String.append app run fold_left handle].
    rewrite onClose_open by apply Hex.
    unfold silent_clean_exit.
    destruct (String.eqb (JS.join output) "") eqn:E.
    + destruct code; cbn [nonzero]; reflexivity.
    + now destruct code.
Qed.

Lemma join_snoc (q : list string) (x : string) :
  JS.join (q ++ [x]) = JS.join q ++ x.
Proof.
  induction q as [|a q IH]; cbn [app JS.join fold_right].
  - now rewrite append_empty_r.
  - fold (JS.join (q ++ [x])). fold (JS.join q). now rewrite IH, append_assoc.
Qed.

(** What the client is streamed, for each way an invocation of a started
    process ends: the stream is closed, and its fragments make up the
    transcript text, or nothing after a clean exit without output. *)
Lemma respond_stream (unavailable : string) (exited : option Z -> string)
  (ins : string -> list event -> option (list event * event)) (c : completion)
  (evs : list event) :
  unavailable <> "" -> (forall code, exited code <> "") ->
  c <> SpawnFailure ->
  exists frags,
    snd (respond (reports c) unavailable exited ins evs) = Streaming frags true
    /\ JS.join frags
       = if silent_clean_exit c then "" else transcript_text unavailable exited c.
Proof.
  intros Hun Hex Hc.
  destruct c as [|output closing|output|output code]; [contradiction| | |];
    cbn [reports respond snd silent_clean_exit transcript_text];
    rewrite run_then, run_stdout; cbn [String.append app].
  - destruct closing as [code|]; cbn [run fold_left handle]; rewrite onError_open;
      destruct (String.eqb_spec (JS.join output) "") as [E|E];
      rewrite ?onClose_closed by assumption;
      (eexists; split; [reflexivity|]); cbn [enqueued];
      rewrite ?join_snoc, ?E; reflexivity.
  - cbn [run fold_left handle].
    cbn [onTimeout when timer andThen spend clearTimeout kill fst fullResponse
         enqueued closed killed store].
    rewrite onClose_open by apply Hex. cbn [nonzero].
    destruct (String.eqb (JS.join output) "") eqn:E.
    + eexists; split; [reflexivity|]. cbn [enqueued]. rewrite join_snoc.
      apply String.eqb_eq in E. now rewrite E.
    + eexists; split; [reflexivity|]. reflexivity.
  - cbn [run fold_left handle]. rewrite onClose_open by apply Hex.
    destruct (String.eqb (JS.join output) "") eqn:E.
    + apply String.eqb_eq in E.
      destruct code; cbn [nonzero]; (eexists; split; [reflexivity|]);
        cbn [enqueued]; rewrite ?join_snoc, ?E; reflexivity.
    + destruct code; (eexists; split; [reflexivity|]); reflexivity.
Qed.

Lemma transcript_text_not_empty (unavailable : string) (exited : option Z -> string)
  (c : completion) :
  unavailable <> "" -> (forall code, exited code <> "") ->
  silent_clean_exit c = false ->
  transcript_text unavailable exited c <> "".
Proof.
  intros Hun Hex Hc.
  destruct c as [|output closing|output|output code]; cbn [transcript_text];
    try assumption;
    destruct (String.eqb_spec (JS.join output) ""); auto.
Qed.

Lemma chat_fallbacks :
  Chat.unavailable <> "" /\ forall code, Chat.exited code <> "".
Proof. split; [discriminate|intros code; discriminate]. Qed.

Lemma quorum_fallbacks :
  Quorum.unavailable <> "" /\ forall code, Quorum.exited code <> "".
Proof. split; [discriminate|intros code; discriminate]. Qed.

Lemma truthy_some (x : string) : x <> "" -> truthy (Some x) = Some x.
Proof. intros H. cbn. apply String.eqb_neq in H. now rewrite H. Qed.

(** The names of the agents hold no U+0000. *)
Lemma known_agent_ok (agent : string) :
  Chat.getAgent agent = true -> SQL.text_ok agent = true.
Proof.
  unfold Chat.getAgent, Chat.AGENTS. cbn [existsb]. intros H.
  repeat (apply orb_true_iff in H as [H|H];
          [apply String.eqb_eq in H; subst agent; reflexivity|]).
  discriminate H.
Qed.

Lemma admits_chat_row (i ty w agent message sd : string) :
  SQL.text_ok w = true -> SQL.text_ok agent = true -> SQL.text_ok sd = true ->
  admits (mkEvent i ty ("Chat " ++ w ++ " " ++ agent) message
            [("target_agent", agent); ("sender", sd)] None None)
  = SQL.text_ok message.
Proof.
  intros Hw Hagent Hsd. unfold admits.
  cbn [title description metadata thread_id thread_title forallb snd SQL.null_or_ok].
  rewrite !text_ok_app, Hw, Hagent, Hsd.
  change (SQL.text_ok "Chat ") with true. change (SQL.text_ok " ") with true.
  cbn [andb]. now rewrite !andb_true_r.
Qed.

Lemma admits_quorum_row (i ty ttl message sd : string)
  (threadId threadTitle : option string) :
  SQL.text_ok ttl = true -> SQL.text_ok sd = true ->
  SQL.null_or_ok threadId = true -> SQL.null_or_ok threadTitle = true ->
  admits (mkEvent i ty ttl message [("target_agent", "quorum"); ("sender", sd)]
            threadId threadTitle)
  = SQL.text_ok message.
Proof.
  intros Httl Hsd Hid Hti. unfold admits.
  cbn [title description metadata thread_id thread_title forallb snd].
  rewrite Httl, Hsd, Hid, Hti.
  change (SQL.text_ok "quorum") with true.
  cbn [andb]. now rewrite !andb_true_r.
Qed.

(** The store calls of the two routes: the row is appended when its texts
    hold no U+0000, and the call fails otherwise. *)
Lemma storeChatMessage_spec (uuid : nat -> string) (agent message : string)
  (sender : sender) (evs : list event) :
  SQL.text_ok agent = true ->
  exists row,
    event_type row = (match sender with User => "chat_message" | _ => "chat_response" end)
    /\ description row = message
    /\ storeChatMessage uuid agent message sender evs
       = if SQL.text_ok message then Some ((evs ++ [row])%list, row) else None.
Proof.
  intros Hagent. unfold storeChatMessage.
  destruct sender; rewrite admits_chat_row by (assumption || reflexivity);
    (eexists; split; [|split; [|reflexivity]]; reflexivity).
Qed.

Lemma storeQuorumMessage_spec (uuid : nat -> string) (message : string)
  (sender : sender) (threadId threadTitle : option string) (evs : list event) :
  SQL.null_or_ok threadId = true -> SQL.null_or_ok threadTitle = true ->
  exists row,
    event_type row = (match sender with User => "quorum_chat" | _ => "quorum_response" end)
    /\ description row = message
    /\ thread_id row = threadId
    /\ storeQuorumMessage uuid message sender threadId threadTitle evs
       = if SQL.text_ok message then Some ((evs ++ [row])%list, row) else None.
Proof.
  intros Hid Httl. unfold storeQuorumMessage.
  destruct sender; rewrite admits_quorum_row by (assumption || reflexivity);
    (eexists; split; [|split; [|split; [|reflexivity]]]; reflexivity).
Qed.

(** The thread fields the quorum route stores a message under. *)
Lemma effective_thread_ok (threadId threadTitle : option string) :
  SQL.null_or_ok threadId = true -> SQL.null_or_ok threadTitle = true ->
  SQL.null_or_ok (Some match truthy threadId with Some t => t | None => "default" end)
  = true
  /\ SQL.null_or_ok match truthy threadTitle with
                    | Some t => Some t
                    | None => match truthy threadId with
                              | Some _ => None
                              | None => Some "Default Conversation"
                              end
                    end = true.
Proof.
  intros Hid Httl. split.
  - destruct threadId as [t|]; [|reflexivity]. cbn [truthy].
    now destruct (String.eqb t "").
  - destruct threadTitle as [t|]; cbn [truthy].
    + destruct (String.eqb t ""); [|exact Httl].
      destruct threadId as [i|]; [|reflexivity]. cbn [truthy].
      now destruct (String.eqb i "").
    + destruct threadId as [i|]; [|reflexivity]. cbn [truthy].
      now destruct (String.eqb i "").
Qed.

(** What the two routes have in common once the user's message is stored:
    the rows an invocation adds and the answer it gives. *)
Lemma respond_rows (unavailable : string) (exited : option Z -> string)
  (ins : string -> list event -> option (list event * event))
  (response_type : string) (c : completion) (evs : list event) :
  unavailable <> "" -> (forall code, exited code <> "") ->
  SQL.text_ok unavailable = true ->
  (forall m e, exists row,
      event_type row = response_type /\ description row = m
      /\ ins m e = if SQL.text_ok m then Some ((e ++ [row])%list, row) else None) ->
  error_then_close c = false ->
  exists ts resp,
    respond (reports c) unavailable exited ins evs = ((evs ++ ts)%list, resp)
    /\ (silent_clean_exit c = true ->
          ts = [] /\ exists frags, resp = Streaming frags true /\ JS.join frags = "")
    /\ (silent_clean_exit c = false ->
          SQL.text_ok (transcript_text unavailable exited c) = true ->
          exists e, ts = [e]
            /\ is_transcript response_type (transcript_text unavailable exited c) e)
    /\ (silent_clean_exit c = false ->
          SQL.text_ok (transcript_text unavailable exited c) = false ->
          ts = []).
Proof.
  intros Hun Hex Hunok Hins Hc.
  pose proof (respond_store unavailable exited ins c evs Hun Hex) as Hstore.
  rewrite Hc in Hstore.
  destruct (silent_clean_exit c) eqn:Hsilent.
  - destruct (respond_stream unavailable exited ins c evs Hun Hex) as (frags & Hr & Hj).
    { intros ->. discriminate Hsilent. }
    rewrite Hsilent in Hj.
    destruct (respond (reports c) unavailable exited ins evs) as [evs' resp].
    cbn [fst snd] in *. subst evs' resp.
    exists [], (Streaming frags true). rewrite app_nil_r.
    split; [reflexivity|]. split; [|split]; try discriminate.
    intros _. split; [reflexivity|]. now exists frags.
  - pose proof (transcript_text_not_empty unavailable exited c Hun Hex Hsilent) as Hne.
    set (text := transcript_text unavailable exited c) in *.
    destruct (Hins text evs) as (row & Htype & Hdesc & Hrow).
    unfold logged in Hstore. rewrite Hrow in Hstore.
    destruct (respond (reports c) unavailable exited ins evs) as [evs' resp].
    cbn [fst] in Hstore. subst evs'.
    destruct (SQL.text_ok text).
    + exists [row], resp. split; [reflexivity|].
      split; [discriminate|]. split; [|discriminate].
      intros _ _. exists row. split; [reflexivity|]. now repeat split.
    + exists [], resp. rewrite app_nil_r. split; [reflexivity|].
      split; [discriminate|]. split; [discriminate|reflexivity].
Qed.

(** C1, as amended. For an invocation of the chat or of the quorum
    endpoint, the user's message stored, that ends in one of the four ways
    (spawn throws, the process reports an error and no close after it, the
    timer kills it, it closes), after any output:
    the events table gains the user's message and then at most one
    transcript Event, which is never empty.  It gains exactly one, holding
    what the process wrote or else the fallback text, whenever the
    database takes that text, in every case but one: a process that
    closes with code 0 having written nothing leaves no transcript Event
    at all, and the stream it ends carries nothing.  A text the database
    refuses, one with U+0000 in it, leaves no transcript Event either. *)
Theorem one_transcript_unless_silent (uuid : nat -> string) (agent message : string)
  (threadId threadTitle : option string) (c : completion) (evs : list event) :
  Chat.getAgent agent = true -> message <> "" -> SQL.text_ok message = true ->
  SQL.null_or_ok threadId = true -> SQL.null_or_ok threadTitle = true ->
  error_then_close c = false ->
  (exists user ts resp,
     Chat.POST uuid (Some agent) (Some message) (reports c) evs
     = ((evs ++ user :: ts)%list, resp)
     /\ event_type user = "chat_message" /\ description user = message
     /\ (silent_clean_exit c = true ->
           ts = [] /\ exists frags, resp = Streaming frags true /\ JS.join frags = "")
     /\ (silent_clean_exit c = false ->
           SQL.text_ok (transcript_text Chat.unavailable Chat.exited c) = true ->
           exists e, ts = [e]
             /\ is_transcript "chat_response"
                  (transcript_text Chat.unavailable Chat.exited c) e)
     /\ (silent_clean_exit c = false ->
           SQL.text_ok (transcript_text Chat.unavailable Chat.exited c) = false ->
           ts = []))
  /\ (exists user ts resp,
        Quorum.POST uuid (Some message) threadId threadTitle (reports c) evs
        = ((evs ++ user :: ts)%list, resp)
        /\ event_type user = "quorum_chat" /\ description user = message
        /\ (silent_clean_exit c = true ->
              ts = [] /\ exists frags, resp = Streaming frags true /\ JS.join frags = "")
        /\ (silent_clean_exit c = false ->
              SQL.text_ok (transcript_text Quorum.unavailable Quorum.exited c) = true ->
              exists e, ts = [e]
                /\ is_transcript "quorum_response"
                     (transcript_text Quorum.unavailable Quorum.exited c) e)
        /\ (silent_clean_exit c = false ->
              SQL.text_ok (transcript_text Quorum.unavailable Quorum.exited c) = false ->
              ts = [])).
Proof.
  intros Hagent Hmsg Hok Hid Httl Hc.
  assert (Hag : agent <> "") by (intros ->; discriminate Hagent).
  pose proof (known_agent_ok agent Hagent) as Hagok.
  split.
  - unfold Chat.POST. rewrite (truthy_some agent Hag), (truthy_some message Hmsg), Hagent.
    cbn [negb].
    destruct (storeChatMessage_spec uuid agent message User evs Hagok)
      as (user & Htype & Hdesc & ->).
    rewrite Hok.
    destruct (respond_rows Chat.unavailable Chat.exited
                (fun m => storeChatMessage uuid agent m Agent) "chat_response" c
                (evs ++ [user]) (proj1 chat_fallbacks) (proj2 chat_fallbacks) eq_refl
                (fun m e => storeChatMessage_spec uuid agent m Agent e Hagok) Hc)
      as (ts & resp & Hrun & Hrest).
    exists user, ts, resp. rewrite Hrun, <- app_assoc.
    split; [reflexivity|]. split; [exact Htype|]. split; [exact Hdesc|exact Hrest].
  - unfold Quorum.POST. rewrite (truthy_some message Hmsg).
    destruct (effective_thread_ok threadId threadTitle Hid Httl) as [Hid' Httl'].
    set (tid := Some match truthy threadId with Some t => t | None => "default" end) in *.
    set (ttl := match truthy threadTitle with
                | Some t => Some t
                | None => match truthy threadId with
                          | Some _ => None
                          | None => Some "Default Conversation"
                          end
                end) in *.
    destruct (storeQuorumMessage_spec uuid message User tid ttl evs Hid' Httl')
      as (user & Htype & Hdesc & _ & ->).
    rewrite Hok.
    destruct (respond_rows Quorum.unavailable Quorum.exited
                (fun m => storeQuorumMessage uuid m Council tid ttl) "quorum_response" c
                (evs ++ [user]) (proj1 quorum_fallbacks) (proj2 quorum_fallbacks) eq_refl
                (fun m e =>
                   match storeQuorumMessage_spec uuid m Council tid ttl e Hid' Httl' with
                   | ex_intro _ row (conj H1 (conj H2 (conj _ H4))) =>
                       ex_intro _ row (conj H1 (conj H2 H4))
                   end) Hc)
      as (ts & resp & Hrun & Hrest).
    exists user, ts, resp. rewrite Hrun, <- app_assoc.
    split; [reflexivity|]. split; [exact Htype|]. split; [exact Hdesc|exact Hrest].
Qed.

Lemma one_transcript_unless_silent_witness :
  (exists user ts resp,
     Chat.POST Sample.uuid (Some "executor") (Some "status?") (reports (TimeoutKill ["Checking"; " tasks"])) []
     = (([] ++ user :: ts)%list, resp)
     /\ event_type user = "chat_message" /\ description user = "status?"
     /\ (silent_clean_exit (TimeoutKill ["Checking"; " tasks"]) = true ->
           ts = [] /\ exists frags, resp = Streaming frags true /\ JS.join frags = "")
     /\ (silent_clean_exit (TimeoutKill ["Checking"; " tasks"]) = false ->
           SQL.text_ok (transcript_text Chat.unavailable Chat.exited
                          (TimeoutKill ["Checking"; " tasks"])) = true ->
           exists e, ts = [e]
             /\ is_transcript "chat_response"
                  (transcript_text Chat.unavailable Chat.exited
                     (TimeoutKill ["Checking"; " tasks"])) e)
     /\ (silent_clean_exit (TimeoutKill ["Checking"; " tasks"]) = false ->
           SQL.text_ok (transcript_text Chat.unavailable Chat.exited
                          (TimeoutKill ["Checking"; " tasks"])) = false ->
           ts = []))
  /\ (exists user ts resp,
        Quorum.POST Sample.uuid (Some "status?") None None (reports (TimeoutKill ["Checking"; " tasks"])) []
        = (([] ++ user :: ts)%list, resp)
        /\ event_type user = "quorum_chat" /\ description user = "status?"
        /\ (silent_clean_exit (TimeoutKill ["Checking"; " tasks"]) = true ->
              ts = [] /\ exists frags, resp = Streaming frags true /\ JS.join frags = "")
        /\ (silent_clean_exit (TimeoutKill ["Checking"; " tasks"]) = false ->
              SQL.text_ok (transcript_text Quorum.unavailable Quorum.exited
                             (TimeoutKill ["Checking"; " tasks"])) = true ->
              exists e, ts = [e]
                /\ is_transcript "quorum_response"
                     (transcript_text Quorum.unavailable Quorum.exited
                     (TimeoutKill ["Checking"; " tasks"])) e)
        /\ (silent_clean_exit (TimeoutKill ["Checking"; " tasks"]) = false ->
              SQL.text_ok (transcript_text Quorum.unavailable Quorum.exited
                             (TimeoutKill ["Checking"; " tasks"])) = false ->
              ts = [])).
Proof.
  apply (one_transcript_unless_silent Sample.uuid "executor" "status?" None None
           (TimeoutKill ["Checking"; " tasks"]) []).
  - reflexivity.
  - discriminate.
  - reflexivity.
  - reflexivity.
  - reflexivity.
  - reflexivity.
Defined.

(** C1 as first stated fails: the process closes with code 0 having
    written nothing; the stream ends empty and the events table holds the
    user's message and no transcript. *)
Lemma silent_exit_leaves_no_transcript :
  Chat.POST Sample.uuid (Some "executor") (Some "status?") (reports (Exit [] 0)) []
  = ([mkEvent "uuid-0" "chat_message" "Chat to executor" "status?"
        [("target_agent", "executor"); ("sender", "user")] None None],
     Streaming [] true)
  /\ Quorum.POST Sample.uuid (Some "status?") None None (reports (Exit [] 0)) []
     = ([mkEvent "uuid-0" "quorum_chat" "Chat to The Quorum" "status?"
           [("target_agent", "quorum"); ("sender", "user")]
           (Some "default") (Some "Default Conversation")],
        Streaming [] true).
Proof. split; reflexivity. Qed.

(** The four ways to end, run on the chat endpoint. *)
Example chat_endings :
  let transcripts c :=
    map description
      (filter (fun e => String.eqb (event_type e) "chat_response")
         (fst (Chat.POST Sample.uuid (Some "executor") (Some "status?") (reports c) []))) in
  transcripts SpawnFailure = [Chat.unavailable]
  /\ transcripts (RuntimeError [] None) = [Chat.unavailable]
  /\ transcripts (RuntimeError ["partial"] None) = ["partial"]
  /\ transcripts (TimeoutKill []) = ["OpenClaw exited with code null. The agent may be unavailable. Please try again."]
  /\ transcripts (TimeoutKill ["Checking"; " tasks"]) = ["Checking tasks"]
  /\ transcripts (Exit [] 1) = ["OpenClaw exited with code 1. The agent may be unavailable. Please try again."]
  /\ transcripts (Exit ["done"] 0) = ["done"]
  /\ transcripts (Exit [] 0) = [].
Proof. repeat split; reflexivity. Qed.

(** Output with U+0000 in it is streamed and not stored: the database
    refuses the row and the handler only logs that. *)
Example refused_transcript_is_streamed :
  Chat.POST Sample.uuid (Some "executor") (Some "status?")
    (reports (Exit [String "a" (String zero "b")] 0)) []
  = ([mkEvent "uuid-0" "chat_message" "Chat to executor" "status?"
        [("target_agent", "executor"); ("sender", "user")] None None],
     Streaming [String "a" (String zero "b")] true).
Proof. reflexivity. Qed.

(** Outside the four ways above: when the process reports an error and
    then its close, as a process that could not be started does, both
    handlers store the transcript. *)
Example error_then_close_stores_twice :
  map description
    (filter (fun e => String.eqb (event_type e) "chat_response")
       (fst (Chat.POST Sample.uuid (Some "executor") (Some "status?")
               (reports (RuntimeError [] (Some (Some (-2))))) [])))
  = [Chat.unavailable; Chat.unavailable].
Proof. reflexivity. Qed.

End OrchestratorFacts.

(** ** Scheduler policy *)

Module SchedulerFacts.

Import Scheduler.

(** A run over its findings: one row each, and the alerts that pass the
    gate. *)
Lemma act_on_findings (p : policy) (hour : Z) (fs : list finding) (s : effects) :
  fold_left (act_on p hour) fs s
  = mkEffects (memory s ++ map row fs)
      (notifications s
       ++ if in_quiet_hours p hour then []
          else flat_map (fun f => match alert f with Some a => [a] | None => [] end) fs).
Proof.
  revert s; induction fs as [|f fs IH]; intros s.
  - destruct s as [m ns]. cbn [fold_left map flat_map memory notifications].
    destruct (in_quiet_hours p hour); now rewrite !app_nil_r.
  - cbn [fold_left]. rewrite IH. unfold act_on, notify, write_row.
    cbn [map flat_map].
    destruct (alert f) as [a|]; destruct (in_quiet_hours p hour);
      cbn [memory notifications app]; rewrite <- ?app_assoc; reflexivity.
Qed.

(** C8. The window [[quietStart, quietEnd)] runs forward on the clock,
    past midnight when the start is the later hour.  A run at a local
    hour inside it emits no notification and leaves the memory store
    exactly as the same run at an hour outside it does: the store it
    read, then one row per finding.  The run outside the window emits
    the alert of every finding that has one, in order, and so emits a
    notification whenever a finding has an alert. *)
Theorem quiet_hours_gate (p : policy) (t : tier)
  (analyse : list write -> list finding) (inside outside : Z) (store : list write) :
  (quietStart p <= quietEnd p /\ quietStart p <= inside < quietEnd p)
  \/ (quietEnd p < quietStart p /\ (quietStart p <= inside \/ inside < quietEnd p)) ->
  (quietStart p <= quietEnd p /\ (outside < quietStart p \/ quietEnd p <= outside))
  \/ (quietEnd p < quietStart p /\ quietEnd p <= outside < quietStart p) ->
  notifications (agent_run p t analyse inside store) = []
  /\ memory (agent_run p t analyse inside store)
     = memory (agent_run p t analyse outside store)
  /\ memory (agent_run p t analyse inside store)
     = (store ++ map row (analyse store))%list
  /\ notifications (agent_run p t analyse outside store)
     = flat_map (fun f => match alert f with Some a => [a] | None => [] end)
         (analyse store)
  /\ (forall f a, In f (analyse store) -> alert f = Some a ->
        In a (notifications (agent_run p t analyse outside store))).
Proof.
  intros Hin Hout.
  assert (Ein : in_quiet_hours p inside = true).
  { unfold in_quiet_hours.
    destruct (Z.leb_spec (quietStart p) (quietEnd p)).
    - apply andb_true_iff. split; [apply Z.leb_le|apply Z.ltb_lt]; lia.
    - apply orb_true_iff.
      destruct Hin as [[? ?]|[_ [?|?]]];
        [lia|left; apply Z.leb_le; lia|right; apply Z.ltb_lt; lia]. }
  assert (Eout : in_quiet_hours p outside = false).
  { unfold in_quiet_hours.
    destruct (Z.leb_spec (quietStart p) (quietEnd p)).
    - apply andb_false_iff.
      destruct Hout as [[_ [?|?]]|[? ?]];
        [left; apply Z.leb_gt; lia|right; apply Z.ltb_ge; lia|lia].
    - apply orb_false_iff. split; [apply Z.leb_gt|apply Z.ltb_ge]; lia. }
  unfold agent_run. rewrite !act_on_findings, Ein, Eout.
  cbn [memory notifications app].
  split; [reflexivity|]. split; [reflexivity|]. split; [reflexivity|].
  split; [reflexivity|].
  intros f a Hf Ha. apply in_flat_map. exists f. split; [assumption|].
  rewrite Ha. now left.
Qed.

(** The window of the defaults, 22 to 8: a run at 23 and one at 9, the
    hour after the window ends. *)
Lemma quiet_hours_gate_witness :
  notifications (agent_run (mkPolicy 22 8) Act Sample.finds_invoice 23 []) = []
  /\ memory (agent_run (mkPolicy 22 8) Act Sample.finds_invoice 23 [])
     = memory (agent_run (mkPolicy 22 8) Act Sample.finds_invoice 9 [])
  /\ memory (agent_run (mkPolicy 22 8) Act Sample.finds_invoice 23 [])
     = ([] ++ map row (Sample.finds_invoice []))%list
  /\ notifications (agent_run (mkPolicy 22 8) Act Sample.finds_invoice 9 [])
     = flat_map (fun f => match alert f with Some a => [a] | None => [] end)
         (Sample.finds_invoice [])
  /\ (forall f a, In f (Sample.finds_invoice []) -> alert f = Some a ->
        In a (notifications (agent_run (mkPolicy 22 8) Act Sample.finds_invoice 9 []))).
Proof.
  apply (quiet_hours_gate (mkPolicy 22 8) Act Sample.finds_invoice 23 9 []);
    cbn [quietStart quietEnd]; lia.
Defined.

Example act_run_in_and_out_of_quiet_hours :
  agent_run (mkPolicy 22 8) Act Sample.finds_invoice 23 []
  = mkEffects [TaskRow "Chase invoice 42"] []
  /\ agent_run (mkPolicy 22 8) Act Sample.finds_invoice 3 []
     = mkEffects [TaskRow "Chase invoice 42"] []
  /\ agent_run (mkPolicy 22 8) Act Sample.finds_invoice 9 []
     = mkEffects [TaskRow "Chase invoice 42"] ["Invoice 42 is overdue"]
  /\ agent_run (mkPolicy 1 7) Act Sample.finds_invoice 3 []
     = mkEffects [TaskRow "Chase invoice 42"] []
  /\ agent_run (mkPolicy 1 7) Act Sample.finds_invoice 8 []
     = mkEffects [TaskRow "Chase invoice 42"] ["Invoice 42 is overdue"].
Proof. repeat split; reflexivity. Qed.

End SchedulerFacts.

(** * Further properties of the code *)

(** ** The chunker: how many chunks, how long, how they overlap *)

Module ChunkerExtra.

Import Chunker StringFacts ChunkerFacts.

Lemma turns_bound (text : string) (step : Z) (i : nat) :
  0 < step -> (i < turns text step 0)%nat -> Z.of_nat i * step < JS.len text.
Proof.
  intros Hstep Hi. unfold turns in Hi.
  assert (0 <= JS.len text) by (unfold JS.len; lia).
  pose proof (Z.div_mod (JS.len text - 0 + step - 1) step ltac:(lia)) as Hdm.
  pose proof (Z.mod_pos_bound (JS.len text - 0 + step - 1) step Hstep).
  assert (0 <= (JS.len text - 0 + step - 1) / step) by (apply Z.div_pos; lia).
  nia.
Qed.

Lemma span_len (text : string) (chunkSize overlap : Z) (i : nat) :
  0 <= overlap -> overlap < chunkSize ->
  Z.of_nat i * (chunkSize - overlap) < JS.len text ->
  JS.len (span text chunkSize overlap i)
  = Z.min chunkSize (JS.len text - Z.of_nat i * (chunkSize - overlap)).
Proof.
  intros Ho Hlt Hi. unfold JS.len in *.
  rewrite <- units_length, units_span by assumption.
  rewrite length_firstn, length_skipn, units_length. nia.
Qed.

(** Content longer than [chunkSize] is cut into [ceil(len / step)] chunks,
    [step = chunkSize - overlap]; chunk [i] holds [min(chunkSize, len -
    i * step)] units, so none is empty and none exceeds [chunkSize]. *)
Theorem chunkText_count (text : string) (chunkSize overlap : Z) :
  0 <= overlap -> overlap < chunkSize -> chunkSize < JS.len text ->
  exists cs : list string,
    (forall fuel, (String.length text <= fuel)%nat ->
                  chunkText fuel text chunkSize overlap = Some cs)
    /\ Z.of_nat (List.length cs)
       = (JS.len text + (chunkSize - overlap) - 1) / (chunkSize - overlap)
    /\ forall i, (i < List.length cs)%nat ->
         JS.len (nth i cs "")
         = Z.min chunkSize (JS.len text - Z.of_nat i * (chunkSize - overlap))
         /\ 0 < JS.len (nth i cs "").
Proof.
  intros Ho Hlt Hlong.
  set (step := chunkSize - overlap).
  exists (map (span text chunkSize overlap) (seq 0 (turns text step 0))).
  split; [|split].
  - intros fuel Hfuel. rewrite chunkText_returns by assumption.
    now destruct (Z.leb_spec (JS.len text) chunkSize); [lia|].
  - rewrite length_map, length_seq. unfold turns.
    replace (JS.len text - 0 + step - 1) with (JS.len text + step - 1) by lia.
    apply Z2Nat.id. apply Z.div_pos; unfold step; lia.
  - intros i Hi. rewrite length_map, length_seq in Hi.
    rewrite (nth_indep _ _ (span text chunkSize overlap 0))
      by now rewrite length_map, length_seq.
    rewrite map_nth, seq_nth by assumption. cbn [Nat.add].
    pose proof (turns_bound text step i ltac:(unfold step; lia) Hi) as Hb.
    rewrite span_len by assumption. fold step. lia.
Qed.

Lemma chunkText_count_witness :
  exists cs : list string,
    (forall fuel, (String.length "abcdefghij" <= fuel)%nat ->
                  chunkText fuel "abcdefghij" 4 1 = Some cs)
    /\ Z.of_nat (List.length cs) = (JS.len "abcdefghij" + (4 - 1) - 1) / (4 - 1)
    /\ forall i, (i < List.length cs)%nat ->
         JS.len (nth i cs "") = Z.min 4 (JS.len "abcdefghij" - Z.of_nat i * (4 - 1))
         /\ 0 < JS.len (nth i cs "").
Proof. apply (chunkText_count "abcdefghij" 4 1); unfold JS.len; simpl; lia. Defined.

(** What chunk [i] holds past its first [step] units is the head of chunk
    [i + 1]: a full chunk's last [overlap] units open the next one. *)
Theorem chunkText_overlap (text : string) (chunkSize overlap : Z) (fuel : nat)
  (cs : list string) (i : nat) :
  0 <= overlap -> overlap < chunkSize -> chunkSize < JS.len text ->
  (String.length text <= fuel)%nat ->
  chunkText fuel text chunkSize overlap = Some cs ->
  (S i < List.length cs)%nat ->
  JS.slice (nth i cs "") (chunkSize - overlap) (JS.len (nth i cs ""))
  = JS.slice (nth (S i) cs "") 0 (JS.len (nth i cs "") - (chunkSize - overlap)).
Proof.
  intros Ho Hlt Hlong Hfuel Hrun HSi.
  rewrite chunkText_returns in Hrun by assumption.
  destruct (Z.leb_spec (JS.len text) chunkSize); [lia|].
  injection Hrun as <-. rewrite length_map, length_seq in HSi.
  set (step := chunkSize - overlap) in *.
  assert (Hn : forall j, (j < turns text step 0)%nat ->
            nth j (map (span text chunkSize overlap) (seq 0 (turns text step 0))) ""
            = span text chunkSize overlap j).
  { intros j Hj.
    rewrite (nth_indep _ _ (span text chunkSize overlap 0))
      by now rewrite length_map, length_seq.
    now rewrite map_nth, seq_nth. }
  rewrite !Hn by lia.
  pose proof (turns_bound text step i ltac:(unfold step; lia) ltac:(lia)) as Hbi.
  pose proof (turns_bound text step (S i) ltac:(unfold step; lia) HSi) as HbS.
  pose proof (span_len text chunkSize overlap i Ho Hlt Hbi) as Hli.
  fold step in Hli.
  apply units_inj.
  rewrite !units_slice by (unfold step in *; lia).
  rewrite !units_span by assumption. fold step.
  rewrite Hli.
  set (l := units text). set (sz := Z.to_nat chunkSize). set (st := Z.to_nat step).
  assert (Hlen : Z.of_nat (List.length l) = JS.len text)
    by (unfold l, JS.len; now rewrite units_length).
  rewrite skipn_firstn_comm, skipn_skipn.
  change (Z.to_nat 0) with 0%nat. cbn [skipn]. rewrite Nat.sub_0_r, !firstn_firstn.
  replace (st + i * st)%nat with (S i * st)%nat by lia.
  apply firstn_clamped. rewrite length_skipn.
  assert (Hst : Z.of_nat st = step) by (unfold st, step; lia).
  assert (Hprod : Z.of_nat (i * st) = Z.of_nat i * step) by (rewrite <- Hst; lia).
  assert (Hsz : Z.of_nat sz = chunkSize) by (unfold sz; lia).
  replace (S i * st)%nat with (st + i * st)%nat by lia.
  rewrite Nat2Z.inj_succ, Z.mul_succ_l in HbS. clear Hn Hli.
  revert Hbi HbS Hprod. generalize (Z.of_nat i * step) (i * st)%nat.
  intros q p Hbi HbS Hprod. lia.
Qed.

Lemma chunkText_overlap_witness :
  JS.slice (nth 0 ["abcd"; "defg"; "ghij"; "j"] "") (4 - 1)
           (JS.len (nth 0 ["abcd"; "defg"; "ghij"; "j"] ""))
  = JS.slice (nth 1 ["abcd"; "defg"; "ghij"; "j"] "") 0
             (JS.len (nth 0 ["abcd"; "defg"; "ghij"; "j"] "") - (4 - 1)).
Proof.
  apply (chunkText_overlap "abcdefghij" 4 1 10 ["abcd"; "defg"; "ghij"; "j"] 0);
    try (unfold JS.len; simpl; lia); reflexivity.
Defined.

End ChunkerExtra.

(** ** The rows a document's delete takes with it *)

Module FamilyExtra.

Import Embeddings.

Lemma like_literal (c : ascii) (p s : string) :
  Ascii.eqb c "%" = false -> Ascii.eqb c "_" = false ->
  SQL.like (String c p) s
  = match s with
    | EmptyString => false
    | String d s' => Ascii.eqb c d && SQL.like p s'
    end.
Proof. intros H1 H2. destruct s; cbn [SQL.like]; now rewrite H1, H2. Qed.

Lemma like_one (p s : string) :
  SQL.like (String "_" p) s
  = match s with
    | EmptyString => false
    | String _ s' => SQL.like p s'
    end.
Proof. now destruct s. Qed.

Ltac peel_literal H s :=
  let a := fresh "a" in
  let E := fresh "E" in
  rewrite like_literal in H by reflexivity;
  destruct s as [|a s]; [discriminate H|];
  apply andb_prop in H as [E H]; apply Ascii.eqb_eq in E; subst a.

Ltac peel_any H s :=
  rewrite like_one in H; destruct s as [|? s]; [discriminate H|].

Lemma like_chunk_shape (s : string) :
  SQL.like "document_chunk_%" s = true <->
  exists a b rest, s = "document" ++ String a ("chunk" ++ String b rest).
Proof.
  split.
  - intros H.
    do 8 peel_literal H s. peel_any H s. do 5 peel_literal H s. peel_any H s.
    now eexists _, _, s.
  - intros (a & b & rest & ->). cbn [String.append].
    repeat first [ rewrite like_one
                 | rewrite like_literal by reflexivity;
                   rewrite Ascii.eqb_refl; cbn [andb] ].
    apply (EmbeddingFacts.like_any rest).
Qed.

(** The delete's WHERE clause takes a row exactly when its ref_id is the
    document's and its ref_type is ['document'] or reads ['document'], any
    one character, ['chunk'], any one character, then anything: the
    underscores of the pattern are wildcards. *)
Theorem document_family_shape {vector : Type} (docId : string) (r : row vector) :
  document_family docId r = true <->
  ref_id r = docId
  /\ (ref_type r = "document"
      \/ exists a b rest,
           ref_type r = "document" ++ String a ("chunk" ++ String b rest)).
Proof.
  unfold document_family. rewrite andb_true_iff, orb_true_iff.
  rewrite String.eqb_eq, String.eqb_eq, like_chunk_shape. reflexivity.
Qed.

Example family_takes_foreign_types :
  document_family "doc-1" (mkRow "doc-1" "document-chunk-summary" tt "" 0) = true
  /\ document_family "doc-1" (mkRow "doc-1" "document_summary" tt "" 0) = false
  /\ document_family "doc-1" (mkRow "doc-2" "document" tt "" 0) = false.
Proof. repeat split. Qed.

End FamilyExtra.

(** ** Observations: lookup, status, deletion *)

Module ObservationExtra.

Import Observations ObservationQueries ObservationFacts.

Lemma find_existsb {A} (p : A -> bool) (l : list A) :
  existsb p l = match find p l with Some _ => true | None => false end.
Proof.
  induction l as [|x l IH]; [reflexivity|].
  cbn [existsb find]. now destruct (p x).
Qed.

Lemma sql_in_includes (x : string) (l : list string) :
  existsb (String.eqb x) l = true -> SQL.sql_in (Some x) (map Some l) = Some true.
Proof.
  induction l as [|y l IH]; cbn [existsb map SQL.sql_in]; [discriminate|].
  destruct (String.eqb x y); [reflexivity|]. cbn [orb]. exact IH.
Qed.

Lemma sql_in_excludes (x : string) (l : list string) :
  existsb (String.eqb x) l = false -> SQL.sql_in (Some x) (map Some l) = Some false.
Proof.
  induction l as [|y l IH]; cbn [existsb map SQL.sql_in]; [reflexivity|].
  destruct (String.eqb x y); [discriminate|]. cbn [orb]. exact IH.
Qed.

Lemma sql_in_with_null (x : option string) (l : list (option string)) :
  SQL.sql_in x (l ++ [None]) <> Some false.
Proof.
  destruct x as [a|]; [|destruct l; discriminate].
  induction l as [|y l IH]; cbn [app SQL.sql_in]; [discriminate|].
  destruct y as [b|].
  - destruct (String.eqb a b); [discriminate|exact IH].
  - destruct (SQL.sql_in (Some a) (l ++ [None])) as [[|]|]; congruence.
Qed.

(** The CHECK on [ref_type] lists NULL among its values, so its test is
    never false and the constraint turns no value away, listed or not. *)
Theorem ref_type_check_accepts_everything (x : option string) :
  SQL.check (SQL.sql_in x valid_ref_types) = true.
Proof.
  unfold valid_ref_types.
  pose proof (sql_in_with_null x
                (map Some ["document"; "task"; "event"; "agent_run"; "observation"])).
  unfold SQL.check.
  destruct (SQL.sql_in x _) as [[|]|]; congruence.
Qed.

Section WithDigest.

Variable digest : string -> string.

(** [checkObservationExists] tells what [createObservation] will do: an
    absent fingerprint, and the call appends one row under the new id; a
    present one, and the table keeps its length and its ids.  Either way
    the fingerprint is present afterwards and the unique index holds. *)
Theorem createObservation_lookup (newid : string) (now : Z) (d : data)
  (t t' : table) (r : observation) :
  fingerprint_unique t ->
  createObservation digest newid now d t = Stored t' r ->
  checkObservationExists (fingerprint_of digest d) t' = true
  /\ fingerprint_unique t'
  /\ In r t' /\ fingerprint r = fingerprint_of digest d
  /\ (checkObservationExists (fingerprint_of digest d) t = false ->
        t' = (t ++ [r])%list /\ id r = newid)
  /\ (checkObservationExists (fingerprint_of digest d) t = true ->
        List.length t' = List.length t /\ map id t' = map id t).
Proof.
  intros Hu Hrun.
  assert (Hc : checks d = true).
  { unfold createObservation in Hrun. destruct (checks d); [reflexivity|discriminate]. }
  destruct (first_submission digest newid now d t Hu Hc)
    as (t1 & r1 & Hrun1 & Hone & Hfp & Hu1).
  rewrite Hrun in Hrun1. injection Hrun1 as <- <-.
  assert (Hin : In r (filter (has_fingerprint (fingerprint_of digest d)) t'))
    by (rewrite Hone; now left).
  apply filter_In in Hin as [Hin Hhas].
  split; [|split; [|split; [|split; [|split]]]]; try assumption.
  - apply existsb_exists. now exists r.
  - unfold checkObservationExists. rewrite find_existsb.
    unfold createObservation in Hrun. rewrite Hc in Hrun. cbn [negb] in Hrun.
    destruct (find _ t); [discriminate|]. intros _.
    injection Hrun as <- <-. now split.
  - unfold checkObservationExists. rewrite find_existsb.
    unfold createObservation in Hrun. rewrite Hc in Hrun. cbn [negb] in Hrun.
    destruct (find _ t); [|discriminate]. intros _.
    injection Hrun as <- <-. split; [apply length_map|].
    rewrite map_map. apply map_ext. intros x.
    now destruct (has_fingerprint (fingerprint_of digest d) x).
Qed.

End WithDigest.

Lemma find_map_stable {A} (p : A -> bool) (g : A -> A) (l : list A) :
  (forall x, p (g x) = p x) ->
  find p (map g l) = option_map g (find p l).
Proof.
  intros H. induction l as [|x l IH]; [reflexivity|].
  cbn [map find]. rewrite H. now destruct (p x).
Qed.

Lemma set_status_id (i j s : string) (now : Z) (r : observation) :
  has_id j (if has_id i r then set_status s now r else r) = has_id j r.
Proof. now destruct (has_id i r). Qed.

(** [updateObservationStatus]: an id that no row has gives [null] and
    changes nothing, whatever the status; a row that has the id takes the
    status when the CHECK admits it and only then.  The update touches the
    status and [updated_at] of that row alone: a lookup by the id returns
    the updated row, a lookup by any other id returns what it returned
    before, and fingerprints stay where they were. *)
Theorem updateObservationStatus_spec (i s : string) (now : Z) (t : table) :
  (getObservation i t = None -> updateObservationStatus i s now t = Updated t None)
  /\ (forall old, getObservation i t = Some old ->
        ObservationsRoute.includes ObservationsRoute.validStatuses s = false ->
        updateObservationStatus i s now t = StatusViolation)
  /\ (forall old, getObservation i t = Some old ->
        ObservationsRoute.includes ObservationsRoute.validStatuses s = true ->
        exists t',
          updateObservationStatus i s now t = Updated t' (Some (set_status s now old))
          /\ getObservation i t' = Some (set_status s now old)
          /\ (forall j, j <> i -> getObservation j t' = getObservation j t)
          /\ map fingerprint t' = map fingerprint t
          /\ map id t' = map id t).
Proof.
  unfold getObservation, updateObservationStatus. split; [|split].
  - now intros ->.
  - intros old -> Hbad.
    change valid_statuses with (map Some ObservationsRoute.validStatuses).
    now rewrite (sql_in_excludes s _ Hbad).
  - intros old Hfind Hok. rewrite Hfind.
    change valid_statuses with (map Some ObservationsRoute.validStatuses).
    rewrite (sql_in_includes s _ Hok). cbn [SQL.check].
    eexists. split; [reflexivity|]. split; [|split; [|split]].
    + rewrite find_map_stable by (intros x; apply set_status_id).
      rewrite Hfind. cbn [option_map].
      apply find_some in Hfind as [_ Hid]. now rewrite Hid.
    + intros j Hj. rewrite find_map_stable by (intros x; apply set_status_id).
      destruct (find (has_id j) t) as [r|] eqn:Hr; [|reflexivity].
      cbn [option_map]. apply find_some in Hr as [_ Hr].
      unfold has_id in *. apply String.eqb_eq in Hr.
      destruct (String.eqb_spec (id r) i); [congruence|reflexivity].
    + rewrite map_map. apply map_ext. intros x. now destruct (has_id i x).
    + rewrite map_map. apply map_ext. intros x. now destruct (has_id i x).
Qed.

Section Composition.

Variable digest : string -> string.

(** A status set by hand outlives the agent's next report: after
    [updateObservationStatus] on the row a submission left, a resubmission
    of the same (category, source_agent, content) updates that row's
    content and leaves its status, and its id, as they were set. *)
Theorem resubmission_keeps_status (id1 id2 s : string) (now1 now2 now3 : Z)
  (d d' : data) (t t1 t2 : table) (r1 r2 : observation) :
  fingerprint_unique t ->
  createObservation digest id1 now1 d t = Stored t1 r1 ->
  id_unique t1 ->
  updateObservationStatus (id r1) s now2 t1 = Updated t2 (Some r2) ->
  checks d' = true -> same_triple d d' ->
  exists t3 r3,
    createObservation digest id2 now3 d' t2 = Stored t3 r3
    /\ status r3 = s /\ id r3 = id r1 /\ content r3 = d_content d'
    /\ List.length t3 = List.length t2.
Proof.
  intros Hu Hrun Hids Hupd Hc' (Hcat & Hagent & Hcontent).
  assert (Hfp : fingerprint_of digest d = fingerprint_of digest d')
    by (unfold fingerprint_of, fingerprintData; now rewrite Hcat, Hagent, Hcontent).
  assert (Hc : checks d = true).
  { unfold createObservation in Hrun. destruct (checks d); [reflexivity|discriminate]. }
  destruct (first_submission digest id1 now1 d t Hu Hc)
    as (t1' & r1' & Hrun1 & Hone & Hr1 & Hu1).
  rewrite Hrun in Hrun1. injection Hrun1 as <- <-.
  assert (Hin : In r1 t1).
  { assert (In r1 (filter (has_fingerprint (fingerprint_of digest d)) t1)) as H
      by (rewrite Hone; now left).
    now apply filter_In in H. }
  (* the row the update finds is the row the submission returned *)
  assert (Hfind : find (has_id (id r1)) t1 = Some r1).
  { clear - Hin Hids. unfold id_unique in Hids.
    induction t1 as [|x t1 IH]; [contradiction|].
    cbn [find]. unfold has_id at 1.
    destruct (String.eqb_spec (id x) (id r1)) as [E|E].
    - destruct Hin as [->|Hin]; [reflexivity|].
      exfalso. inversion Hids as [|? ? Hx _]; subst. apply Hx.
      rewrite E. now apply in_map.
    - destruct Hin as [->|Hin]; [congruence|].
      apply IH; [now inversion Hids|assumption]. }
  unfold updateObservationStatus in Hupd. rewrite Hfind in Hupd.
  destruct (SQL.check (SQL.sql_in (Some s) valid_statuses)); [|discriminate].
  injection Hupd as <- <-.
  assert (Hone2 : filter (has_fingerprint (fingerprint_of digest d'))
                    (map (fun r => if has_id (id r1) r then set_status s now2 r else r) t1)
                  = [set_status s now2 r1]).
  { rewrite filter_map_stable
      by (intros x; now destruct (has_id (id r1) x)).
    rewrite <- Hfp, Hone. cbn [map]. unfold has_id. now rewrite String.eqb_refl. }
  destruct (submission_on_conflict digest id2 now3 d' _ _ Hone2 Hc')
    as (t3 & Hrun3 & _ & Hlen & _ & _).
  exists t3, (on_conflict d' now3 (set_status s now2 r1)).
  repeat split; assumption.
Qed.

(** Deleting an observation deletes what the dedup knew of it: the id
    and the fingerprint are gone from the table, and submitting the same
    data again appends a row under a new id. *)
Theorem delete_then_resubmit (id1 id2 : string) (now1 now2 : Z) (d : data)
  (t t1 : table) (r1 : observation) :
  fingerprint_unique t ->
  createObservation digest id1 now1 d t = Stored t1 r1 ->
  exists t2 r2,
    deleteObservation (id r1) t1 = (t2, true)
    /\ getObservation (id r1) t2 = None
    /\ checkObservationExists (fingerprint_of digest d) t2 = false
    /\ createObservation digest id2 now2 d t2 = Stored (t2 ++ [r2])%list r2
    /\ id r2 = id2.
Proof.
  intros Hu Hrun.
  assert (Hc : checks d = true).
  { unfold createObservation in Hrun. destruct (checks d); [reflexivity|discriminate]. }
  destruct (first_submission digest id1 now1 d t Hu Hc)
    as (t1' & r1' & Hrun1 & Hone & Hr1 & Hu1).
  rewrite Hrun in Hrun1. injection Hrun1 as <- <-.
  assert (Hin : In r1 t1).
  { assert (In r1 (filter (has_fingerprint (fingerprint_of digest d)) t1)) as H
      by (rewrite Hone; now left).
    now apply filter_In in H. }
  set (t2 := filter (fun r => negb (has_id (id r1) r)) t1).
  assert (Hgone : find (has_fingerprint (fingerprint_of digest d)) t2 = None).
  { destruct (find (has_fingerprint (fingerprint_of digest d)) t2) as [x|] eqn:Hx;
      [|reflexivity]. exfalso.
    apply find_some in Hx as [Hx Hfp]. apply filter_In in Hx as [Hx Hid].
    assert (In x (filter (has_fingerprint (fingerprint_of digest d)) t1)) as H
      by (apply filter_In; now split).
    rewrite Hone in H. destruct H as [<-|[]].
    unfold has_id in Hid. now rewrite String.eqb_refl in Hid. }
  eexists t2, _. split; [|split; [|split; [|split]]].
  - unfold deleteObservation. fold t2. f_equal.
    apply existsb_exists. exists r1. split; [assumption|].
    unfold has_id. apply String.eqb_refl.
  - unfold getObservation.
    destruct (find (has_id (id r1)) t2) as [x|] eqn:Hx; [|reflexivity].
    apply find_some in Hx as [Hx Hid]. apply filter_In in Hx as [_ Hno].
    now rewrite Hid in Hno.
  - unfold checkObservationExists. now rewrite find_existsb, Hgone.
  - unfold createObservation. rewrite Hc. cbn [negb]. rewrite Hgone. reflexivity.
  - reflexivity.
Qed.

End Composition.

Lemma createObservation_lookup_witness :
  checkObservationExists (fingerprint_of SHA256.hexdigest Sample.invoice_again)
    [Fixtures.invoice_row_again] = true
  /\ fingerprint_unique [Fixtures.invoice_row_again]
  /\ In Fixtures.invoice_row_again [Fixtures.invoice_row_again]
  /\ fingerprint Fixtures.invoice_row_again
     = fingerprint_of SHA256.hexdigest Sample.invoice_again
  /\ (checkObservationExists (fingerprint_of SHA256.hexdigest Sample.invoice_again)
        [Fixtures.invoice_row] = false ->
        [Fixtures.invoice_row_again]
        = ([Fixtures.invoice_row] ++ [Fixtures.invoice_row_again])%list
        /\ id Fixtures.invoice_row_again = "id-2")
  /\ (checkObservationExists (fingerprint_of SHA256.hexdigest Sample.invoice_again)
        [Fixtures.invoice_row] = true ->
        List.length [Fixtures.invoice_row_again] = List.length [Fixtures.invoice_row]
        /\ map id [Fixtures.invoice_row_again] = map id [Fixtures.invoice_row]).
Proof.
  apply (createObservation_lookup SHA256.hexdigest "id-2" 20 Sample.invoice_again
           [Fixtures.invoice_row] [Fixtures.invoice_row_again]
           Fixtures.invoice_row_again).
  - repeat constructor. intros [].
  - vm_compute. reflexivity.
Defined.

Lemma resubmission_keeps_status_witness :
  exists t3 r3,
    createObservation SHA256.hexdigest "id-2" 20 Sample.invoice_again
      [Fixtures.dismissed_row] = Stored t3 r3
    /\ status r3 = "dismissed" /\ id r3 = id Fixtures.invoice_row
    /\ content r3 = d_content Sample.invoice_again
    /\ List.length t3 = List.length [Fixtures.dismissed_row].
Proof.
  apply (resubmission_keeps_status SHA256.hexdigest "id-1" "id-2" "dismissed" 10 15 20
           Sample.invoice Sample.invoice_again [] [Fixtures.invoice_row]
           [Fixtures.dismissed_row] Fixtures.invoice_row Fixtures.dismissed_row).
  - constructor.
  - vm_compute. reflexivity.
  - repeat constructor. intros [].
  - vm_compute. reflexivity.
  - reflexivity.
  - repeat split.
Defined.

Lemma delete_then_resubmit_witness :
  exists t2 r2,
    deleteObservation (id Fixtures.invoice_row) [Fixtures.invoice_row] = (t2, true)
    /\ getObservation (id Fixtures.invoice_row) t2 = None
    /\ checkObservationExists (fingerprint_of SHA256.hexdigest Sample.invoice) t2 = false
    /\ createObservation SHA256.hexdigest "id-2" 20 Sample.invoice t2
       = Stored (t2 ++ [r2])%list r2
    /\ id r2 = "id-2".
Proof.
  apply (delete_then_resubmit SHA256.hexdigest "id-1" "id-2" 10 20 Sample.invoice
           [] [Fixtures.invoice_row] Fixtures.invoice_row).
  - constructor.
  - vm_compute. reflexivity.
Defined.

End ObservationExtra.

(** ** The observations route *)

Module RouteExtra.

Import ObservationsRoute.

Lemma check_in (x : string) (l : list string) :
  SQL.check (SQL.sql_in (Some x) (map Some l)) = includes l x.
Proof.
  unfold includes. destruct (existsb (String.eqb x) l) eqn:E.
  - now rewrite (ObservationExtra.sql_in_includes x l E).
  - now rewrite (ObservationExtra.sql_in_excludes x l E).
Qed.

(** The CHECK constraints, in the route's terms. *)
Lemma checks_includes (d : Observations.data) :
  Observations.checks d
  = includes validCategories (Observations.d_category d)
    && includes validSeverities
         (Observations.or_default (Observations.d_severity d) "info")
    && includes validStatuses
         (Observations.or_default (Observations.d_status d) "open").
Proof.
  unfold Observations.checks.
  assert (Href : SQL.check (SQL.sql_in (Observations.d_ref_type d)
                              Observations.valid_ref_types) = true).
  { unfold Observations.valid_ref_types, SQL.check.
    pose proof (ObservationExtra.sql_in_with_null (Observations.d_ref_type d)
                  (map Some ["document"; "task"; "event"; "agent_run"; "observation"])).
    destruct (SQL.sql_in _ _) as [[|]|]; congruence. }
  rewrite Href, andb_true_r.
  change Observations.valid_categories with (map Some validCategories).
  change Observations.valid_severities with (map Some validSeverities).
  change Observations.valid_statuses with (map Some validStatuses).
  now rewrite !check_in.
Qed.

Lemma listed_not_empty (valid : list string) (x : option string) :
  includes valid "" = false -> absent_or_listed valid x ->
  present_and_invalid valid x = false
  /\ forall dflt, includes valid dflt = true ->
                  includes valid (Observations.or_default x dflt) = true.
Proof.
  intros Hempty [->|(v & -> & Hv)]; [now split|].
  assert (v <> "") by (intros ->; congruence).
  unfold present_and_invalid. rewrite OrchestratorFacts.truthy_some by assumption.
  rewrite Hv. now split.
Qed.

(** The route, the table's CHECKs and the database's refusals.  Every
    answer but 201 leaves the table as it was, whatever the body.  For a
    body with category, content and source_agent present and a listed
    category: with severity and status each absent or listed, and no
    U+0000 in a value, the observation is stored and the answer is 201;
    the route's validation skips an empty severity or status where the
    table does not, so such a body passes the route, fails the CHECK and
    is answered 500; and a body with U+0000 in one of its values is
    answered 500 too, whatever else it holds. *)
Theorem observations_route (digest : string -> string) (newid : string) (now : Z)
  (b : body) (t : Observations.table) :
  (forall t' resp, POST digest newid now b t = (t', resp) ->
     (forall row, resp <> Created row) -> t' = t)
  /\ forall cat text agent,
       category b = Some cat -> content b = Some text -> source_agent b = Some agent ->
       cat <> "" -> text <> "" -> agent <> "" ->
       includes validCategories cat = true ->
       let d := Observations.mkData cat text agent (severity b) (status b)
                  (ref_id b) (ref_type b) (metadata b) in
       (absent_or_listed validSeverities (severity b) ->
        absent_or_listed validStatuses (status b) ->
        parameters_ok d = true ->
        exists t' row,
          POST digest newid now b t = (t', Created row)
          /\ In row t'
          /\ Observations.fingerprint row = digest (cat ++ ":" ++ agent ++ ":" ++ text))
       /\ ((severity b = Some "" /\ present_and_invalid validStatuses (status b) = false)
           \/ (status b = Some "" /\ present_and_invalid validSeverities (severity b) = false) ->
           POST digest newid now b t = (t, ServerError "Failed to create observation"))
       /\ (present_and_invalid validSeverities (severity b) = false ->
           present_and_invalid validStatuses (status b) = false ->
           parameters_ok d = false ->
           POST digest newid now b t = (t, ServerError "Failed to create observation")).
Proof.
  split.
  { intros t' resp Hrun Hno. unfold POST in Hrun.
    destruct (Orchestrator.truthy (category b)) as [cat|];
      [|now injection Hrun as <- _].
    destruct (Orchestrator.truthy (content b)) as [text|];
      [|now injection Hrun as <- _].
    destruct (Orchestrator.truthy (source_agent b)) as [agent|];
      [|now injection Hrun as <- _].
    destruct (negb (includes validCategories cat)); [now injection Hrun as <- _|].
    destruct (present_and_invalid validSeverities (severity b));
      [now injection Hrun as <- _|].
    destruct (present_and_invalid validStatuses (status b));
      [now injection Hrun as <- _|].
    cbv zeta in Hrun.
    destruct (negb (parameters_ok _)); [now injection Hrun as <- _|].
    destruct (Observations.createObservation digest newid now _ t) as [t1 row|].
    - injection Hrun as _ <-. now contradiction (Hno row).
    - now injection Hrun as <- _. }
  intros cat text agent Hcat Htext Hagent Hc Ht Ha Hvalid d.
  unfold POST. rewrite Hcat, Htext, Hagent.
  rewrite !OrchestratorFacts.truthy_some by assumption.
  rewrite Hvalid. cbn [negb]. fold d.
  split; [|split].
  - intros Hsev Hst Hok.
    destruct (listed_not_empty validSeverities (severity b) eq_refl Hsev) as [Hs1 Hs2].
    destruct (listed_not_empty validStatuses (status b) eq_refl Hst) as [Hst1 Hst2].
    rewrite Hs1, Hst1. cbv zeta. fold d. rewrite Hok. cbn [negb].
    assert (Hchecks : Observations.checks d = true).
    { rewrite checks_includes. cbn [d Observations.d_category Observations.d_severity
                                     Observations.d_status].
      now rewrite Hvalid, (Hs2 "info" eq_refl), (Hst2 "open" eq_refl). }
    unfold Observations.createObservation. rewrite Hchecks. cbn [negb].
    destruct (find _ t) as [old|] eqn:Hfind.
    + eexists _, _. split; [reflexivity|]. split.
      * apply find_some in Hfind as [Hin Hfp]. apply in_map_iff.
        exists old. now rewrite Hfp.
      * cbn. apply find_some in Hfind as [_ Hfp].
        now apply String.eqb_eq in Hfp.
    + eexists _, _. split; [reflexivity|]. split.
      * apply in_or_app. right. now left.
      * reflexivity.
  - intros Hempty.
    assert (Hnone : present_and_invalid validSeverities (severity b) = false
                    /\ present_and_invalid validStatuses (status b) = false).
    { destruct Hempty as [[-> H]|[-> H]]; now split. }
    destruct Hnone as [-> ->]. cbv zeta. fold d.
    destruct (negb (parameters_ok d)); [reflexivity|].
    assert (Hchecks : Observations.checks d = false).
    { rewrite checks_includes. cbn [d Observations.d_category Observations.d_severity
                                     Observations.d_status].
      destruct Hempty as [[-> _]|[-> _]]; cbn [Observations.or_default].
      - now rewrite andb_false_r.
      - now rewrite andb_false_r. }
    unfold Observations.createObservation. now rewrite Hchecks.
  - intros -> -> Hno. cbv zeta. fold d. now rewrite Hno.
Qed.

Lemma observations_route_witness :
  exists t' row,
    POST (fun s => s) "id-1" 10
      (mkBody (Some "risk") (Some "Invoice overdue") (Some "executor") (Some "high")
         None None None None) []
    = (t', Created row)
    /\ In row t'
    /\ Observations.fingerprint row
       = (fun s => s) ("risk" ++ ":" ++ "executor" ++ ":" ++ "Invoice overdue").
Proof.
  apply (proj2 (observations_route (fun s => s) "id-1" 10
                  (mkBody (Some "risk") (Some "Invoice overdue") (Some "executor")
                     (Some "high") None None None None) [])
           "risk" "Invoice overdue" "executor");
    try reflexivity; try discriminate.
  - right. exists "high". now split.
  - now left.
Defined.

(** A content with U+0000 in it: past the route, refused by the database. *)
Example nul_in_content_is_a_500 :
  POST SHA256.hexdigest "id-1" 10
    (mkBody (Some "risk") (Some (String "a" (String zero "b"))) (Some "executor")
       None None None None None) []
  = ([], ServerError "Failed to create observation").
Proof. reflexivity. Qed.

(** An empty severity: past the route, stopped by the table. *)
Example empty_severity_is_a_500 :
  POST SHA256.hexdigest "id-1" 10
    (mkBody (Some "risk") (Some "Invoice overdue") (Some "executor") (Some "") None
       None None None) []
  = ([], ServerError "Failed to create observation").
Proof. reflexivity. Qed.

End RouteExtra.

(** ** Documents: embedding status and deletion *)

Module DocumentExtra.

Import Embeddings Documents.

Section WithEnvironment.

Context {vector : Type}.
Variable digest : string -> string.
Variable provider : nat -> string -> response vector.
Variable now : nat -> Z.

Lemma chunks_of_not_empty (content : string) (chunks : list string) :
  chunks_of content = Some chunks -> chunks <> [].
Proof.
  rewrite EmbeddingFacts.chunks_of_returns. intros [= <-].
  destruct (Z.ltb_spec 2000 (JS.len content)) as [Hlong|_]; [|discriminate].
  pose proof (ChunkerFacts.turns_reach content 450 ltac:(lia)) as Hreach.
  change (500 - 50) with 450.
  destruct (Chunker.turns content 450 0); [cbn in Hreach; lia|discriminate].
Qed.

Lemma has_embedding_app (docId : string) (a b : table vector) :
  has_embedding docId (a ++ b)%list = has_embedding docId a || has_embedding docId b.
Proof. apply existsb_app. Qed.

Lemma has_embedding_other_rows (docId : string) (t : table vector) :
  has_embedding docId (other_rows docId t) = false.
Proof.
  unfold has_embedding, other_rows.
  induction t as [|r t IH]; [reflexivity|].
  cbn [filter]. destruct (document_family docId r) eqn:E; cbn [negb]; [exact IH|].
  cbn [existsb]. now rewrite E.
Qed.

(** A run that returned [true] leaves a row of the document's family. *)
Lemma returned_true_embedded (docId content : string) (t t' : table vector) :
  generateAndStoreEmbedding digest provider now docId content t
  = Some (t', Returned true) ->
  has_embedding docId t' = true.
Proof.
  intros Hrun.
  destruct (EmbeddingFacts.generateAndStoreEmbedding_rows digest provider now
              docId content t) as (chunks & t1 & Hcs & Hrun1 & Ht1 & _ & _).
  rewrite Hrun in Hrun1. injection Hrun1 as <- Hend.
  pose proof (chunks_of_not_empty content chunks Hcs) as Hne.
  destruct chunks as [|c rest]; [contradiction|].
  rewrite Ht1, has_embedding_app, has_embedding_other_rows.
  cbn [orb stored_from ending_from] in *.
  destruct (provider 0 c) as [v| |]; [|discriminate|discriminate].
  unfold has_embedding. cbn [existsb].
  now rewrite EmbeddingFacts.refType_family.
Qed.

(** The status queries call a document embedded as soon as one row of
    its family exists.  After a run of the pipeline that is the case
    exactly when the provider answered for the first chunk: a run that
    returned [true] leaves the document embedded, and so does a run that
    stopped at a later chunk and returned [false]. *)
Theorem status_after_run (docId content : string) (t : table vector)
  (chunks : list string) :
  chunks_of content = Some chunks ->
  exists t' o,
    generateAndStoreEmbedding digest provider now docId content t = Some (t', o)
    /\ (has_embedding docId t' = true <->
        exists v, provider 0 (nth 0 chunks "") = Ok v)
    /\ (o = Returned true -> has_embedding docId t' = true).
Proof.
  intros Hcs.
  destruct (EmbeddingFacts.generateAndStoreEmbedding_rows digest provider now
              docId content t) as (cs & t' & Hcs' & Hrun & Ht' & _ & _).
  rewrite Hcs in Hcs'. injection Hcs' as <-.
  pose proof (chunks_of_not_empty content chunks Hcs) as Hne.
  destruct chunks as [|c rest]; [contradiction|].
  exists t', (ending_from provider 0 (c :: rest)). split; [exact Hrun|].
  rewrite Ht', has_embedding_app, has_embedding_other_rows.
  cbn [orb nth stored_from ending_from].
  destruct (provider 0 c) as [v| |] eqn:Hp.
  - unfold has_embedding. cbn [existsb].
    rewrite EmbeddingFacts.refType_family. cbn [orb].
    split; [split; [now exists v|reflexivity]|reflexivity].
  - split; [split; [discriminate|intros [v [=]]]|discriminate].
  - split; [split; [discriminate|intros [v [=]]]|discriminate].
Qed.

End WithEnvironment.

Lemma status_after_run_witness :
  exists t' o,
    generateAndStoreEmbedding SHA256.hexdigest (Sample.refuses 1) Sample.clock
      "doc-1" Sample.long_text [] = Some (t', o)
    /\ (has_embedding "doc-1" t' = true <->
        exists v, Sample.refuses 1 0 (nth 0 Sample.long_chunks "") = Ok v)
    /\ (o = Returned true -> has_embedding "doc-1" t' = true).
Proof.
  apply (status_after_run SHA256.hexdigest (Sample.refuses 1) Sample.clock
           "doc-1" Sample.long_text [] Sample.long_chunks).
  vm_compute. reflexivity.
Defined.

(** Chunk 1 of five refused: the call says [false], the status says
    embedded. *)
Example refused_yet_embedded :
  exists t',
    generateAndStoreEmbedding SHA256.hexdigest (Sample.refuses 1) Sample.clock
      "doc-1" Sample.long_text [] = Some (t', Returned false)
    /\ has_embedding "doc-1" t' = true.
Proof. eexists. split; vm_compute; reflexivity. Qed.

Section Deletion.

Context {vector : Type}.

Lemma find_filter_other (docId other : string) (docs : list Upload.document) :
  other <> docId ->
  find (has_id other) (filter (fun doc => negb (has_id docId doc)) docs)
  = find (has_id other) docs.
Proof.
  intros Hne. induction docs as [|doc docs IH]; [reflexivity|].
  cbn [filter find].
  destruct (has_id docId doc) eqn:E1; destruct (has_id other doc) eqn:E2;
    cbn [negb find]; rewrite ?E2; try exact IH; try reflexivity.
  unfold has_id in E1, E2. apply String.eqb_eq in E1, E2. congruence.
Qed.

Lemma has_embedding_delete_other (docId other : string) (t : table vector) :
  other <> docId ->
  has_embedding other (delete_document_embeddings docId t) = has_embedding other t.
Proof.
  intros Hne. unfold has_embedding, delete_document_embeddings.
  induction t as [|r t IH]; [reflexivity|].
  cbn [filter existsb].
  destruct (document_family docId r) eqn:E; cbn [negb existsb].
  - rewrite IH.
    assert (document_family other r = false) as ->; [|reflexivity].
    unfold document_family in *. apply andb_prop in E as [E _].
    apply String.eqb_eq in E.
    destruct (String.eqb_spec (ref_id r) other); [congruence|reflexivity].
  - now rewrite IH.
Qed.

(** [deleteDocument] answers whether the document existed.  Afterwards
    the document cannot be looked up and no embedding row of its family
    is left, whether or not it existed; every other document reads as
    before, with the same embedding status. *)
Theorem deleteDocument_spec (docId : string) (d : Upload.db vector) :
  (snd (deleteDocument docId d) = true <->
   exists doc, In doc (Upload.documents d) /\ Upload.id doc = docId)
  /\ getDocumentWithEmbeddingStatus docId (fst (deleteDocument docId d)) = None
  /\ has_embedding docId (Upload.embeddings (fst (deleteDocument docId d))) = false
  /\ (forall other, other <> docId ->
        getDocumentWithEmbeddingStatus other (fst (deleteDocument docId d))
        = getDocumentWithEmbeddingStatus other d).
Proof.
  unfold deleteDocument. cbn [fst snd]. split; [|split; [|split]].
  - rewrite existsb_exists. unfold has_id.
    split; intros (doc & Hin & H); exists doc; split; try assumption.
    + now apply String.eqb_eq.
    + now apply String.eqb_eq.
  - unfold getDocumentWithEmbeddingStatus. cbn [Upload.documents].
    destruct (find _ _) as [doc|] eqn:Hfind; [|reflexivity].
    apply find_some in Hfind as [Hin Hid]. apply filter_In in Hin as [_ Hno].
    now rewrite Hid in Hno.
  - cbn [Upload.embeddings]. rewrite EmbeddingFacts.delete_is_other_rows.
    apply has_embedding_other_rows.
  - intros other Hne. unfold getDocumentWithEmbeddingStatus.
    cbn [Upload.documents Upload.embeddings].
    rewrite find_filter_other by assumption.
    destruct (find (has_id other) (Upload.documents d)) as [doc|] eqn:Hfind;
      [|reflexivity].
    apply find_some in Hfind as [_ Hid]. unfold has_id in Hid.
    apply String.eqb_eq in Hid. rewrite Hid.
    now rewrite has_embedding_delete_other.
Qed.

End Deletion.

Lemma find_app_fresh {A} (p : A -> bool) (l : list A) (y : A) :
  (forall x, In x l -> p x = false) -> p y = true -> find p (l ++ [y]) = Some y.
Proof.
  intros Hl Hy. induction l as [|x l IH]; cbn [app find].
  - now rewrite Hy.
  - rewrite (Hl x) by now left. apply IH. intros z Hz. apply Hl. now right.
Qed.

Section UploadThenStatus.

Context {vector : Type}.
Variable digest : string -> string.
Variable provider : nat -> string -> response vector.
Variable now : nat -> Z.
Variable uuid : nat -> string.
Variable pdf_parse : Upload.file -> Upload.pdf_result.
Variable json_parse : string -> option (list string).

(** An upload answered 200 can be read back: with the new id not yet in
    use, the status query on that id returns the uploaded document, and
    a flag [embedded = true] in the answer means the status query says
    embedded too. *)
Theorem upload_then_status (req : Upload.request) (d d' : Upload.db vector)
  (i : string) (b : bool) :
  (forall doc, In doc (Upload.documents d) ->
               Upload.id doc <> uuid (List.length (Upload.documents d))) ->
  Upload.POST digest provider now uuid pdf_parse json_parse req d
  = Some (d', Upload.Json (Upload.Uploaded i b) 200) ->
  exists doc h,
    getDocumentWithEmbeddingStatus i d' = Some (doc, h)
    /\ Upload.id doc = i
    /\ Upload.documents d' = (Upload.documents d ++ [doc])%list
    /\ (b = true -> h = true).
Proof.
  intros Hfresh Hpost.
  destruct (UploadFacts.POST_cases digest now uuid pdf_parse json_parse req d) as
    [(e & s & Hs & Hbad) | (title & text & doc_type & metadata & tags & Htail)].
  { rewrite Hbad in Hpost. discriminate. }
  rewrite Htail in Hpost.
  destruct (UploadFacts.store_and_embed_spec digest now uuid provider title text
              doc_type metadata tags d) as (t & o & Hrun & Hspec).
  cbv zeta in Hrun, Hspec.
  set (doc := Upload.mkDocument (uuid (List.length (Upload.documents d))) doc_type
                title text metadata tags) in *.
  rewrite Hspec in Hpost.
  destruct (Upload.admits doc); [|discriminate].
  injection Hpost as <- <- <-.
  exists doc, (has_embedding (Upload.id doc) t).
  split; [|split; [reflexivity|split; [reflexivity|]]].
  - unfold getDocumentWithEmbeddingStatus. cbn [Upload.documents Upload.embeddings].
    rewrite find_app_fresh; [reflexivity| |].
    + intros x Hx. unfold has_id. apply String.eqb_neq. now apply Hfresh.
    + unfold has_id. apply String.eqb_refl.
  - intros Hb.
    apply (returned_true_embedded digest provider now (Upload.id doc) text
             (Upload.embeddings d) t).
    rewrite Hrun. destruct o as [[|]|]; [reflexivity|discriminate|discriminate].
Qed.

End UploadThenStatus.

Lemma upload_then_status_witness :
  exists doc h,
    getDocumentWithEmbeddingStatus "uuid-0" Fixtures.after_note = Some (doc, h)
    /\ Upload.id doc = "uuid-0"
    /\ Upload.documents Fixtures.after_note
       = (Upload.documents Fixtures.empty_db ++ [doc])%list
    /\ (true = true -> h = true).
Proof.
  apply (upload_then_status SHA256.hexdigest Sample.answers Sample.clock Sample.uuid
           Fixtures.no_pdf Fixtures.no_tags Fixtures.note Fixtures.empty_db
           Fixtures.after_note "uuid-0" true).
  - intros doc [].
  - vm_compute. reflexivity.
Defined.

End DocumentExtra.

(** ** ORDER BY, LIMIT *)

Module OrderFacts.

Import Order.

Section WithRows.

Context {A : Type}.
Variable leb : A -> A -> bool.

Let R (a b : A) : Prop := leb a b = true.

Lemma insert_perm (x : A) (l : list A) : Permutation (insert leb x l) (x :: l).
Proof.
  induction l as [|y l IH]; cbn [insert]; [apply Permutation_refl|].
  destruct (leb x y); [apply Permutation_refl|].
  eapply Permutation_trans; [apply perm_skip, IH|apply perm_swap].
Qed.

Lemma order_by_perm (l : list A) : Permutation (order_by leb l) l.
Proof.
  induction l as [|x l IH]; cbn [order_by]; [apply Permutation_refl|].
  eapply Permutation_trans; [apply insert_perm|now apply perm_skip].
Qed.

Hypothesis leb_total : total leb.
Hypothesis leb_trans : transitive leb.

Lemma insert_sorted (x : A) (l : list A) :
  StronglySorted R l -> StronglySorted R (insert leb x l).
Proof.
  induction l as [|y l IH]; intros Hs; cbn [insert].
  - repeat constructor.
  - apply StronglySorted_inv in Hs as [Hs Hy].
    destruct (leb x y) eqn:E.
    + constructor; [now constructor|].
      constructor; [exact E|].
      rewrite Forall_forall in Hy |- *. intros z Hz.
      exact (leb_trans x y z E (Hy z Hz)).
    + constructor; [now apply IH|].
      rewrite Forall_forall in Hy |- *. intros z Hz.
      apply (Permutation_in _ (insert_perm x l)) in Hz as [<-|Hz].
      * destruct (leb_total x y) as [H|H]; [congruence|exact H].
      * now apply Hy.
Qed.

Lemma order_by_sorted (l : list A) : StronglySorted R (order_by leb l).
Proof.
  induction l as [|x l IH]; cbn [order_by]; [constructor|now apply insert_sorted].
Qed.

Lemma limit_sorted (n : nat) (l : list A) :
  StronglySorted R l -> StronglySorted R (limit n l).
Proof.
  unfold limit. revert n; induction l as [|x l IH]; intros n Hs.
  - now rewrite firstn_nil.
  - destruct n as [|n]; [constructor|]. cbn [firstn].
    apply StronglySorted_inv in Hs as [Hs Hx].
    constructor; [now apply IH|].
    rewrite Forall_forall in Hx |- *. intros z Hz. apply Hx.
    revert Hz. clear. revert n. induction l as [|y l IHl]; intros [|n]; cbn; try tauto.
    intros [->|H]; [now left|right; now apply (IHl n)].
Qed.

End WithRows.

Lemma limit_in {A} (n : nat) (l : list A) (x : A) : In x (limit n l) -> In x l.
Proof.
  unfold limit. revert n. induction l as [|y l IH]; intros [|n]; cbn; try tauto.
  intros [->|H]; [now left|right; now apply (IH n)].
Qed.

End OrderFacts.

(** ** Tasks *)

Module TaskExtra.

Import Tasks.

(** The ORDER BY of [listTasks], spelled out. *)
Lemma before_iff (a b : task) :
  before a b = true <->
  (priorityOrder (priority a) < priorityOrder (priority b))%nat
  \/ (priorityOrder (priority a) = priorityOrder (priority b)
      /\ (due_compare (due_at a) (due_at b) = Lt
          \/ (due_compare (due_at a) (due_at b) = Eq
              /\ created_at b <= created_at a))).
Proof.
  unfold before.
  destruct (Nat.compare_spec (priorityOrder (priority a)) (priorityOrder (priority b)))
    as [Hp|Hp|Hp].
  - destruct (due_compare (due_at a) (due_at b)).
    + rewrite Z.leb_le. split.
      * intros H. right. split; [assumption|]. right. now split.
      * intros [H|[_ [H|[_ H]]]]; [lia|discriminate|assumption].
    + split; [|reflexivity]. intros _. right. split; [assumption|now left].
    + split; [discriminate|].
      intros [H|[_ [H|[H _]]]]; [lia|discriminate|discriminate].
  - split; [intros _; now left|reflexivity].
  - split; [discriminate|]. intros [H|[H _]]; lia.
Qed.

Lemma due_compare_cases (a b : option Z) :
  match due_compare a b with
  | Lt => (exists x, a = Some x /\ (b = None \/ exists y, b = Some y /\ x < y))
  | Eq => a = b
  | Gt => (exists y, b = Some y /\ (a = None \/ exists x, a = Some x /\ y < x))
  end.
Proof.
  destruct a as [x|], b as [y|]; cbn [due_compare]; eauto.
  destruct (Z.compare_spec x y); subst; eauto 6.
Qed.

Lemma before_total : Order.total before.
Proof.
  intros a b.
  destruct (before a b) eqn:E; [now left|right].
  apply before_iff.
  assert (H : ~ ((priorityOrder (priority a) < priorityOrder (priority b))%nat
                 \/ (priorityOrder (priority a) = priorityOrder (priority b)
                     /\ (due_compare (due_at a) (due_at b) = Lt
                         \/ (due_compare (due_at a) (due_at b) = Eq
                             /\ created_at b <= created_at a)))))
    by (rewrite <- before_iff; congruence).
  pose proof (due_compare_cases (due_at a) (due_at b)) as Hab.
  pose proof (due_compare_cases (due_at b) (due_at a)) as Hba.
  destruct (Nat.lt_trichotomy (priorityOrder (priority a)) (priorityOrder (priority b)))
    as [Hp|[Hp|Hp]]; [tauto| |now left].
  right. split; [now symmetry|].
  destruct (due_compare (due_at a) (due_at b)) eqn:Eab.
  - assert (Hc : ~ created_at b <= created_at a).
    { intros Hc. apply H. right. split; [exact Hp|].
      right. split; [reflexivity|exact Hc]. }
    rewrite <- Hab in *. destruct (due_at a) as [x|]; cbn [due_compare].
    + rewrite Z.compare_refl. right. split; [reflexivity|]. lia.
    + right. split; [reflexivity|]. lia.
  - exfalso. apply H. right. split; [exact Hp|now left].
  - destruct Hab as (y & Hb & [Ha|(x & Ha & Hlt)]); rewrite Ha, Hb; cbn [due_compare].
    + now left.
    + left. now apply Z.compare_lt_iff.
Qed.

Lemma before_trans : Order.transitive before.
Proof.
  intros a b c Hab Hbc. apply before_iff in Hab, Hbc. apply before_iff.
  pose proof (due_compare_cases (due_at a) (due_at b)) as Dab.
  pose proof (due_compare_cases (due_at b) (due_at c)) as Dbc.
  destruct Hab as [Hab|[Hab Hab']]; destruct Hbc as [Hbc|[Hbc Hbc']];
    try (left; lia).
  right. split; [congruence|].
  destruct (due_at a) as [x|], (due_at b) as [y|], (due_at c) as [z|];
    cbn [due_compare] in *;
    repeat match goal with
    | H : context [ (?u ?= ?v) ] |- _ =>
        destruct (Z.compare_spec u v); try subst
    | |- context [ (?u ?= ?v) ] =>
        destruct (Z.compare_spec u v); try subst
    end;
    intuition (try discriminate; try lia).
Qed.

(** [listTasks] returns rows of the table that pass every filter given,
    an absent or empty filter passing all; in the order of the ORDER BY
    (priority rank, then due time with the undated last, then newest
    first); as many as match, up to the limit, which is 50 when none is
    given; and all of them when the limit allows. *)
Theorem listTasks_spec (o : list_options) (t : table) :
  Forall (fun r => In r t /\ selected o r = true) (listTasks o t)
  /\ StronglySorted (fun a b => before a b = true) (listTasks o t)
  /\ List.length (listTasks o t)
     = Nat.min (or_else (o_limit o) 50%nat) (List.length (filter (selected o) t))
  /\ ((List.length (filter (selected o) t) <= or_else (o_limit o) 50)%nat ->
      Permutation (listTasks o t) (filter (selected o) t)).
Proof.
  unfold listTasks. split; [|split; [|split]].
  - apply Forall_forall. intros r Hr.
    apply OrderFacts.limit_in in Hr.
    apply (Permutation_in _ (OrderFacts.order_by_perm before _)) in Hr.
    now apply filter_In in Hr.
  - apply OrderFacts.limit_sorted, OrderFacts.order_by_sorted.
    + exact before_total.
    + exact before_trans.
  - unfold Order.limit. rewrite length_firstn.
    now rewrite (Permutation_length (OrderFacts.order_by_perm before _)).
  - intros Hfit. unfold Order.limit. rewrite firstn_all2.
    + apply OrderFacts.order_by_perm.
    + now rewrite (Permutation_length (OrderFacts.order_by_perm before _)).
Qed.





(** The order of the listing, run: rank first, then the dated before the
    undated, then the newer first. *)
Example listTasks_order :
  map id
    (listTasks (mkOptions None None None None)
       [mkTask "a" "" "" "open" "low" None None "{}" 1 1;
        mkTask "b" "" "" "open" "critical" None None "{}" 2 2;
        mkTask "c" "" "" "done" "critical" None (Some 50) "{}" 3 3;
        mkTask "d" "" "" "open" "urgent" None None "{}" 4 4;
        mkTask "e" "" "" "open" "critical" None None "{}" 5 5])
  = ["c"; "e"; "b"; "a"; "d"]
  /\ map id
       (listTasks (mkOptions (Some "open") (Some "") None (Some 2%nat))
          [mkTask "a" "" "" "open" "low" None None "{}" 1 1;
           mkTask "b" "" "" "open" "critical" None None "{}" 2 2;
           mkTask "c" "" "" "done" "critical" None (Some 50) "{}" 3 3])
     = ["b"; "a"].
Proof. split; reflexivity. Qed.

End TaskExtra.

(** ** The streaming routes: any order of reports *)

Module OrchestratorExtra.

Import Orchestrator Reports StringFacts OrchestratorFacts.

Section AnyStore.

Variable unavailable : string.
Variable exited : option Z -> string.
Variable insert : string -> list event -> list event.

Lemma run_ignores_stderr (trace : list proc_event) (s : stream) :
  run unavailable exited insert (filter (fun e => negb (is_stderr e)) trace) s
  = run unavailable exited insert trace s.
Proof.
  unfold run. revert s; induction trace as [|e trace IH]; intros s; [reflexivity|].
  cbn [filter]. destruct e; cbn [is_stderr negb fold_left]; try apply IH.
Qed.

End AnyStore.

Section Handlers.

Variable unavailable : string.
Variable exited : option Z -> string.
Variable response_type : string.
Variable insert : string -> list event -> list event.

Hypothesis unavailable_not_empty : unavailable <> "".
Hypothesis exited_not_empty : forall code, exited code <> "".
Hypothesis insert_spec : forall m evs,
  insert m evs = evs
  \/ exists e, insert m evs = (evs ++ [e])%list
               /\ event_type e = response_type /\ description e = m.

Let kept (e : event) : Prop := event_type e = response_type /\ description e <> "".

Lemma handle_appends (e : proc_event) (s : stream) :
  exists ts, store (fst (handle unavailable exited insert e s)) = (store s ++ ts)%list
             /\ Forall kept ts
             /\ (List.length ts <= if is_ending e then 1 else 0)%nat.
Proof.
  destruct s as [f q cl tm k st]. cbn [store].
  assert (Hnone : forall n, exists ts, st = (st ++ ts)%list /\ Forall kept ts
                       /\ (List.length ts <= n)%nat).
  { intros n. exists []. rewrite app_nil_r. repeat split; [constructor|cbn; lia]. }
  assert (Hone : forall m, m <> "" ->
            exists ts, insert m st = (st ++ ts)%list /\ Forall kept ts
                       /\ (List.length ts <= 1)%nat).
  { intros m Hm. destruct (insert_spec m st) as [->|(row & -> & Hty & Hd)].
    - apply Hnone.
    - exists [row]. split; [reflexivity|].
      split; [|cbn; lia]. repeat constructor; [exact Hty|now rewrite Hd]. }
  destruct e as [text|text| |code|]; cbn [handle is_ending].
  - unfold onData, andThen, append, assign, enqueue. cbn.
    destruct cl; apply Hnone.
  - apply Hnone.
  - unfold onError, andThen, when, clearTimeout, empty, assign, enqueue, persist,
      close, skip. cbn. rewrite len_zero.
    destruct (String.eqb_spec f "") as [->|Hf]; destruct cl; cbn.
    + apply Hnone.
    + now apply Hone.
    + now apply Hone.
    + now apply Hone.
  - unfold onClose, andThen, when, clearTimeout, empty, assign, enqueue, persist,
      close, skip. cbn. rewrite len_zero.
    destruct (String.eqb_spec f "") as [->|Hf]; destruct (nonzero code), cl; cbn;
      rewrite ?len_zero;
      try (destruct (String.eqb_spec (exited code) "") as [E|E];
           [now contradiction (exited_not_empty code)|]);
      try (destruct (String.eqb_spec f "") as [E'|E']; [contradiction|]);
      cbn;
      first [ apply Hnone
            | now apply Hone ].
  - unfold onTimeout, when, andThen, spend, clearTimeout, kill, skip. cbn.
    destruct tm; apply Hnone.
Qed.

Lemma run_appends (trace : list proc_event) (s : stream) :
  exists ts, store (run unavailable exited insert trace s) = (store s ++ ts)%list
             /\ Forall kept ts /\ (List.length ts <= endings trace)%nat.
Proof.
  revert s; induction trace as [|e trace IH]; intros s.
  - exists []. cbn. rewrite app_nil_r. repeat split; [constructor|lia].
  - unfold run in *. cbn [fold_left].
    destruct (handle_appends e s) as (ts1 & H1 & K1 & L1).
    destruct (IH (fst (handle unavailable exited insert e s))) as (ts2 & H2 & K2 & L2).
    exists (ts1 ++ ts2)%list. rewrite H2, H1, <- app_assoc.
    split; [reflexivity|]. split; [now apply Forall_app|].
    rewrite length_app. unfold endings in *. cbn [filter].
    destruct (is_ending e); cbn [List.length]; lia.
Qed.

End Handlers.

(** A logged store call appends the row or leaves the table. *)
Lemma logged_spec (ins : string -> list event -> option (list event * event))
  (response_type : string) :
  (forall m e, exists row,
      event_type row = response_type /\ description row = m
      /\ ins m e = if SQL.text_ok m then Some ((e ++ [row])%list, row) else None) ->
  forall m evs,
    logged ins m evs = evs
    \/ exists e, logged ins m evs = (evs ++ [e])%list
                 /\ event_type e = response_type /\ description e = m.
Proof.
  intros Hins m evs. unfold logged.
  destruct (Hins m evs) as (row & Hty & Hd & ->).
  destruct (SQL.text_ok m); [right; now exists row|now left].
Qed.

(** The rows the handlers leave and the stream they end, for each way a
    started process ends. *)
Lemma respond_copies (unavailable : string) (exited : option Z -> string)
  (ins : string -> list event -> option (list event * event))
  (response_type : string) (c : completion) (evs : list event) :
  unavailable <> "" -> (forall code, exited code <> "") ->
  (forall m e, exists row,
      event_type row = response_type /\ description row = m
      /\ ins m e = if SQL.text_ok m then Some ((e ++ [row])%list, row) else None) ->
  c <> SpawnFailure ->
  exists ts frags,
    respond (reports c) unavailable exited ins evs
    = ((evs ++ ts)%list, Streaming frags true)
    /\ Forall (fun e => event_type e = response_type) ts
    /\ map description ts = List.repeat (JS.join frags) (copies c (JS.join frags)).
Proof.
  intros Hun Hex Hins Hc.
  pose proof (respond_store unavailable exited ins c evs Hun Hex) as Hstore.
  destruct (respond_stream unavailable exited ins c evs Hun Hex Hc)
    as (frags & Hr & Hj).
  destruct (respond (reports c) unavailable exited ins evs) as [evs' resp].
  cbn [fst snd] in *. subst evs' resp.
  enough (exists ts,
            (if silent_clean_exit c then evs
             else if error_then_close c
                  then logged ins (transcript_text unavailable exited c)
                         (logged ins (transcript_text unavailable exited c) evs)
                  else logged ins (transcript_text unavailable exited c) evs)
            = (evs ++ ts)%list
            /\ Forall (fun e => event_type e = response_type) ts
            /\ map description ts
               = List.repeat (JS.join frags) (copies c (JS.join frags)))
    as (ts & -> & Hty & Htexts) by (now exists ts, frags).
  rewrite Hj.
  destruct (silent_clean_exit c) eqn:Hsilent.
  - exists []. rewrite app_nil_r. split; [reflexivity|].
    split; [constructor|reflexivity].
  - pose proof (transcript_text_not_empty unavailable exited c Hun Hex Hsilent) as Hne.
    set (text := transcript_text unavailable exited c) in *.
    unfold copies. apply String.eqb_neq in Hne. rewrite Hne. cbn [orb].
    unfold logged.
    destruct (Hins text evs) as (row & Hty & Hd & Hrow).
    destruct (Hins text (evs ++ [row])%list) as (row2 & Hty2 & Hd2 & Hrow2).
    destruct (SQL.text_ok text); cbn [negb].
    + destruct (error_then_close c).
      * rewrite Hrow, Hrow2.
        exists [row; row2]. rewrite <- app_assoc.
        split; [reflexivity|]. split; [now repeat constructor|].
        cbn. now rewrite Hd, Hd2.
      * rewrite Hrow. exists [row]. split; [reflexivity|].
        split; [now repeat constructor|]. cbn. now rewrite Hd.
    + exists []. rewrite app_nil_r.
      destruct (error_then_close c); rewrite !Hrow; (split; [reflexivity|]);
        (split; [constructor|reflexivity]).
Qed.

(** Whatever a started process reports, in whatever order and number, and
    when it cannot be started at all: both streaming routes only append to
    the events table.  A rejected request appends nothing.  An accepted
    one appends the user's message and after it only responses, none of
    them with an empty text, and no more of them than the process reported
    'error' and 'close' (one when the process could not be started). *)
Theorem routes_only_append (uuid : nat -> string) (agent message threadId
  threadTitle : option string) (spawned : spawn_result) (evs : list event) :
  let ends := match spawned with SpawnThrows => 1%nat | Spawned t => endings t end in
  let appended (user_type response_type : string) (out : list event * response) :=
    match snd out with
    | JsonError _ _ => fst out = evs
    | _ => exists user ts,
             fst out = (evs ++ user :: ts)%list
             /\ event_type user = user_type
             /\ Some (description user) = message
             /\ Forall (fun e => event_type e = response_type /\ description e <> "") ts
             /\ (List.length ts <= ends)%nat
    end in
  appended "chat_message" "chat_response" (Chat.POST uuid agent message spawned evs)
  /\ appended "quorum_chat" "quorum_response"
       (Quorum.POST uuid message threadId threadTitle spawned evs).
Proof.
  intros ends appended.
  assert (Hmsg : forall m, truthy message = Some m -> message = Some m).
  { intros m. destruct message as [v|]; cbn; [|discriminate].
    destruct (String.eqb v ""); [discriminate|]. now intros [= ->]. }
  assert (Hopt : forall x t, truthy x = Some t -> SQL.null_or_ok x = SQL.text_ok t).
  { intros x t. destruct x as [v|]; cbn; [|discriminate].
    destruct (String.eqb v ""); [discriminate|]. now intros [= ->]. }
  split; unfold appended.
  - unfold Chat.POST.
    destruct (truthy agent) as [a|]; [|reflexivity].
    destruct (truthy message) as [m|] eqn:Em; [|reflexivity].
    destruct (Chat.getAgent a) eqn:Hknown; cbn [negb]; [|reflexivity].
    pose proof (known_agent_ok a Hknown) as Hagok.
    rewrite (Hmsg m eq_refl).
    destruct (storeChatMessage_spec uuid a m User evs Hagok)
      as (user & Htype & Hdesc & ->).
    destruct (SQL.text_ok m); [|reflexivity].
    destruct spawned as [|trace]; cbn [respond].
    + destruct (storeChatMessage_spec uuid a Chat.unavailable Agent (evs ++ [user])
                  Hagok) as (row & Hty & Hd & ->).
      change (SQL.text_ok Chat.unavailable) with true. cbn [snd fst].
      exists user, [row]. rewrite <- app_assoc. split; [reflexivity|].
      split; [exact Htype|]. split; [now rewrite Hdesc|].
      split; [|subst ends; cbn; lia].
      repeat constructor; [exact Hty|]. rewrite Hd. discriminate.
    + cbn [snd fst].
      destruct (run_appends Chat.unavailable Chat.exited "chat_response"
                  (logged (fun m => storeChatMessage uuid a m Agent))
                  (proj1 chat_fallbacks) (proj2 chat_fallbacks)
                  (logged_spec _ "chat_response"
                     (fun m e => storeChatMessage_spec uuid a m Agent e Hagok))
                  trace (mkStream "" [] false true false (evs ++ [user])))
        as (ts & Hst & Hkept & Hlen).
      exists user, ts. cbn [store] in Hst. rewrite <- app_assoc in Hst.
      split; [exact Hst|]. split; [exact Htype|]. split; [now rewrite Hdesc|].
      split; assumption.
  - unfold Quorum.POST.
    destruct (truthy message) as [m|] eqn:Em; [|reflexivity].
    rewrite (Hmsg m eq_refl).
    set (tid := Some match truthy threadId with Some t => t | None => "default" end).
    set (ttl := match truthy threadTitle with
                | Some t => Some t
                | None => match truthy threadId with
                          | Some _ => None
                          | None => Some "Default Conversation"
                          end
                end).
    destruct (storeQuorumMessage uuid m User tid ttl evs) as [[evs1 u]|] eqn:Euser;
      [|reflexivity].
    (* the user's row was taken, so the thread fields hold no U+0000 *)
    assert (Hfields : SQL.null_or_ok tid = true /\ SQL.null_or_ok ttl = true
                      /\ SQL.text_ok m = true).
    { unfold storeQuorumMessage in Euser.
      destruct (admits _) eqn:Ea in Euser; [|discriminate].
      unfold admits in Ea.
      cbn [title description metadata thread_id thread_title forallb snd] in Ea.
      repeat (apply andb_true_iff in Ea as [Ea ?]). now repeat split. }
    destruct Hfields as (Hid & Httl & Hok).
    destruct (storeQuorumMessage_spec uuid m User tid ttl evs Hid Httl)
      as (user & Htype & Hdesc & _ & Huser).
    rewrite Huser, Hok in Euser. injection Euser as <- <-.
    destruct spawned as [|trace]; cbn [respond].
    + destruct (storeQuorumMessage_spec uuid Quorum.unavailable Council tid ttl
                  (evs ++ [user]) Hid Httl) as (row & Hty & Hd & _ & ->).
      change (SQL.text_ok Quorum.unavailable) with true. cbn [snd fst].
      exists user, [row]. rewrite <- app_assoc. split; [reflexivity|].
      split; [exact Htype|]. split; [now rewrite Hdesc|].
      split; [|subst ends; cbn; lia].
      repeat constructor; [exact Hty|]. rewrite Hd. discriminate.
    + cbn [snd fst].
      destruct (run_appends Quorum.unavailable Quorum.exited "quorum_response"
                  (logged (fun m => storeQuorumMessage uuid m Council tid ttl))
                  (proj1 quorum_fallbacks) (proj2 quorum_fallbacks)
                  (logged_spec _ "quorum_response"
                     (fun m e =>
                        match storeQuorumMessage_spec uuid m Council tid ttl e
                                Hid Httl with
                        | ex_intro _ row (conj H1 (conj H2 (conj _ H4))) =>
                            ex_intro _ row (conj H1 (conj H2 H4))
                        end))
                  trace (mkStream "" [] false true false (evs ++ [user])))
        as (ts & Hst & Hkept & Hlen).
      exists user, ts. cbn [store] in Hst. rewrite <- app_assoc in Hst.
      split; [exact Hst|]. split; [exact Htype|]. split; [now rewrite Hdesc|].
      split; assumption.
Qed.

(** What the process writes to its error channel is logged and nothing
    more: with those reports taken out of the run, both routes leave the
    same events table and stream the same response. *)
Theorem stderr_is_ignored (uuid : nat -> string) (agent message threadId
  threadTitle : option string) (trace : list proc_event) (evs : list event) :
  let quiet := filter (fun e => negb (is_stderr e)) trace in
  Chat.POST uuid agent message (Spawned quiet) evs
  = Chat.POST uuid agent message (Spawned trace) evs
  /\ Quorum.POST uuid message threadId threadTitle (Spawned quiet) evs
     = Quorum.POST uuid message threadId threadTitle (Spawned trace) evs.
Proof.
  intros quiet. split.
  - unfold Chat.POST.
    destruct (truthy agent) as [a|]; [|reflexivity].
    destruct (truthy message) as [m|]; [|reflexivity].
    destruct (negb (Chat.getAgent a)); [reflexivity|].
    destruct (storeChatMessage uuid a m User evs) as [[evs1 ?]|]; [|reflexivity].
    cbn [respond]. unfold quiet. now rewrite run_ignores_stderr.
  - unfold Quorum.POST.
    destruct (truthy message) as [m|]; [|reflexivity].
    destruct (storeQuorumMessage uuid m User _ _ evs) as [[evs1 ?]|]; [|reflexivity].
    cbn [respond]. unfold quiet. now rewrite run_ignores_stderr.
Qed.

(** When a started process ends in one of the ways of [completion], the
    user's message stored, the stream of either route is closed, and what
    the table gains after the user's message is what the stream carried:
    responses whose text is the fragments of the stream, joined.  There
    is none when the stream carried nothing or when the database refuses
    the text, one otherwise, and two when the process reports 'error' and
    then 'close', for then both handlers store the text. *)
Theorem streamed_text_is_stored (uuid : nat -> string) (agent message : string)
  (threadId threadTitle : option string) (c : completion) (evs : list event) :
  Chat.getAgent agent = true -> message <> "" -> SQL.text_ok message = true ->
  SQL.null_or_ok threadId = true -> SQL.null_or_ok threadTitle = true ->
  c <> SpawnFailure ->
  (exists user ts frags,
     Chat.POST uuid (Some agent) (Some message) (reports c) evs
     = ((evs ++ user :: ts)%list, Streaming frags true)
     /\ description user = message
     /\ Forall (fun e => event_type e = "chat_response") ts
     /\ map description ts = List.repeat (JS.join frags) (copies c (JS.join frags)))
  /\ (exists user ts frags,
        Quorum.POST uuid (Some message) threadId threadTitle (reports c) evs
        = ((evs ++ user :: ts)%list, Streaming frags true)
        /\ description user = message
        /\ Forall (fun e => event_type e = "quorum_response") ts
        /\ map description ts
           = List.repeat (JS.join frags) (copies c (JS.join frags))).
Proof.
  intros Hagent Hmsg Hok Hid Httl Hc.
  assert (Hag : agent <> "") by (intros ->; discriminate Hagent).
  pose proof (known_agent_ok agent Hagent) as Hagok.
  split.
  - unfold Chat.POST. rewrite (truthy_some agent Hag), (truthy_some message Hmsg), Hagent.
    cbn [negb].
    destruct (storeChatMessage_spec uuid agent message User evs Hagok)
      as (user & Htype & Hdesc & ->).
    rewrite Hok.
    destruct (respond_copies Chat.unavailable Chat.exited
                (fun m => storeChatMessage uuid agent m Agent) "chat_response" c
                (evs ++ [user]) (proj1 chat_fallbacks) (proj2 chat_fallbacks)
                (fun m e => storeChatMessage_spec uuid agent m Agent e Hagok) Hc)
      as (ts & frags & Hrun & Hty & Htexts).
    exists user, ts, frags. rewrite Hrun, <- app_assoc. now repeat split.
  - unfold Quorum.POST. rewrite (truthy_some message Hmsg).
    destruct (effective_thread_ok threadId threadTitle Hid Httl) as [Hid' Httl'].
    set (tid := Some match truthy threadId with Some t => t | None => "default" end) in *.
    set (ttl := match truthy threadTitle with
                | Some t => Some t
                | None => match truthy threadId with
                          | Some _ => None
                          | None => Some "Default Conversation"
                          end
                end) in *.
    destruct (storeQuorumMessage_spec uuid message User tid ttl evs Hid' Httl')
      as (user & Htype & Hdesc & _ & ->).
    rewrite Hok.
    destruct (respond_copies Quorum.unavailable Quorum.exited
                (fun m => storeQuorumMessage uuid m Council tid ttl) "quorum_response" c
                (evs ++ [user]) (proj1 quorum_fallbacks) (proj2 quorum_fallbacks)
                (fun m e =>
                   match storeQuorumMessage_spec uuid m Council tid ttl e Hid' Httl' with
                   | ex_intro _ row (conj H1 (conj H2 (conj _ H4))) =>
                       ex_intro _ row (conj H1 (conj H2 H4))
                   end) Hc)
      as (ts & frags & Hrun & Hty & Htexts).
    exists user, ts, frags. rewrite Hrun, <- app_assoc. now repeat split.
Qed.

(** A program that cannot be started: 'error', then 'close' with code -2. *)
Lemma streamed_text_is_stored_witness :
  (exists user ts frags,
     Chat.POST Sample.uuid (Some "executor") (Some "status?")
       (reports (RuntimeError [] (Some (Some (-2))))) []
     = (([] ++ user :: ts)%list, Streaming frags true)
     /\ description user = "status?"
     /\ Forall (fun e => event_type e = "chat_response") ts
     /\ map description ts
        = List.repeat (JS.join frags)
            (copies (RuntimeError [] (Some (Some (-2)))) (JS.join frags)))
  /\ (exists user ts frags,
        Quorum.POST Sample.uuid (Some "status?") (Some "t-1") None
          (reports (RuntimeError [] (Some (Some (-2))))) []
        = (([] ++ user :: ts)%list, Streaming frags true)
        /\ description user = "status?"
        /\ Forall (fun e => event_type e = "quorum_response") ts
        /\ map description ts
           = List.repeat (JS.join frags)
               (copies (RuntimeError [] (Some (Some (-2)))) (JS.join frags))).
Proof.
  apply (streamed_text_is_stored Sample.uuid "executor" "status?" (Some "t-1") None
           (RuntimeError [] (Some (Some (-2)))) []).
  - reflexivity.
  - discriminate.
  - reflexivity.
  - reflexivity.
  - reflexivity.
  - discriminate.
Defined.

(** The same run, computed: one fragment streamed, two rows stored. *)
Example fallback_stored_twice :
  exists user t1 t2,
    Chat.POST Sample.uuid (Some "executor") (Some "status?")
      (reports (RuntimeError [] (Some (Some (-2))))) []
    = ([user; t1; t2], Streaming [Chat.unavailable] true)
    /\ (description t1, description t2) = (Chat.unavailable, Chat.unavailable)
    /\ (id t1, id t2) = ("uuid-1", "uuid-2").
Proof. eexists _, _, _. split; [reflexivity|]. split; reflexivity. Qed.

End OrchestratorExtra.

(** ** Quorum threads: rename and delete *)

Module ThreadExtra.

Import Orchestrator Threads Reports OrchestratorFacts.

Lemma filter_filter_implied {A} (f g : A -> bool) (l : list A) :
  (forall x, f x = true -> g x = true) ->
  filter f (filter g l) = filter f l.
Proof.
  intros H. induction l as [|x l IH]; [reflexivity|].
  cbn [filter]. destruct (g x) eqn:Eg; cbn [filter]; rewrite IH.
  - reflexivity.
  - destruct (f x) eqn:Ef; [|reflexivity]. apply H in Ef. congruence.
Qed.

Lemma filter_all {A} (f : A -> bool) (l : list A) :
  existsb (fun x => negb (f x)) l = false -> filter f l = l.
Proof.
  induction l as [|x l IH]; [reflexivity|].
  cbn [existsb filter]. intros H. apply orb_false_iff in H as [Hx Hl].
  apply negb_false_iff in Hx. now rewrite Hx, IH.
Qed.

Lemma filter_negb_none {A} (f : A -> bool) (l : list A) :
  filter f (filter (fun x => negb (f x)) l) = [].
Proof.
  induction l as [|x l IH]; [reflexivity|].
  cbn [filter]. destruct (f x) eqn:E; cbn [negb filter]; [exact IH|].
  now rewrite E.
Qed.

Lemma existsb_negb_negb {A} (f : A -> bool) (l : list A) :
  existsb (fun x => negb (negb (f x))) l = existsb f l.
Proof.
  induction l as [|x l IH]; [reflexivity|].
  cbn [existsb]. now rewrite negb_involutive, IH.
Qed.


Lemma in_thread_one (t1 t2 : string) (e : event) :
  in_thread t1 e = true -> in_thread t2 e = true -> t1 = t2.
Proof.
  unfold in_thread. intros H1 H2.
  apply andb_true_iff in H1 as [_ H1]. apply andb_true_iff in H2 as [_ H2].
  apply String.eqb_eq in H1, H2. congruence.
Qed.




(** The delete route.  Whatever the id, the messages of the default thread
    stay, and so does every row outside the thread named.  The answer is a
    success exactly for a thread other than the default one that has a
    message; then no message of the thread is left.  In every other case
    the table is as it was. *)
Theorem DELETE_spares_default (threadId : string) (evs : list event) :
  let out := DELETE threadId evs in
  filter (in_thread "default") (fst out) = filter (in_thread "default") evs
  /\ filter (fun e => negb (in_thread threadId e)) (fst out)
     = filter (fun e => negb (in_thread threadId e)) evs
  /\ (snd out = Success
      <-> threadId <> "default" /\ existsb (in_thread threadId) evs = true)
  /\ (snd out = Success -> filter (in_thread threadId) (fst out) = [])
  /\ (snd out <> Success -> fst out = evs).
Proof.
  intros out. subst out. unfold DELETE.
  destruct (String.eqb_spec threadId "default") as [->|Hne]; cbn [fst snd].
  - split; [reflexivity|]. split; [reflexivity|]. split; [|split].
    + split; [discriminate|intros [H _]; now contradiction H].
    + discriminate.
    + reflexivity.
  - unfold deleteQuorumThread.
    assert (Hkeep : filter (fun e => negb (in_thread threadId e))
                      (filter (fun e => negb (in_thread threadId e)) evs)
                    = filter (fun e => negb (in_thread threadId e)) evs)
      by (apply filter_filter_implied; auto).
    assert (Hdef : filter (in_thread "default")
                      (filter (fun e => negb (in_thread threadId e)) evs)
                    = filter (in_thread "default") evs).
    { apply filter_filter_implied. intros e He.
      destruct (in_thread threadId e) eqn:Ht; [|reflexivity].
      contradiction Hne. symmetry. exact (in_thread_one _ _ e He Ht). }
    assert (Hgone : filter (in_thread threadId)
                      (filter (fun e => negb (in_thread threadId e)) evs) = []).
    { apply filter_negb_none. }
    destruct (existsb (in_thread threadId) evs) eqn:Ex; cbn [fst snd].
    + split; [exact Hdef|]. split; [exact Hkeep|]. split; [|split].
      * split; [intros _; now split|reflexivity].
      * intros _. exact Hgone.
      * intros H. now contradiction H.
    + assert (Hall : filter (fun e => negb (in_thread threadId e)) evs = evs).
      { apply filter_all. now rewrite existsb_negb_negb. }
      split; [exact Hdef|]. split; [exact Hkeep|]. split; [|split].
      * split; [discriminate|intros [_ H]; discriminate H].
      * discriminate.
      * intros _. exact Hall.
Qed.



(** A message stored without a thread id belongs to the default thread,
    which the delete route refuses; a message stored under the id
    ["default"] is in the same thread. *)
Example default_thread_is_kept :
  let evs := [mkEvent "e1" "quorum_chat" "Chat to The Quorum" "hello" [] None None;
              mkEvent "e2" "quorum_response" "Response from The Quorum" "hi" []
                (Some "default") (Some "Default Conversation");
              mkEvent "e3" "quorum_chat" "Chat to The Quorum" "plan" []
                (Some "t-1") (Some "Planning")] in
  DELETE "default" evs = (evs, Failure 400 "Cannot delete default thread")
  /\ map id (fst (DELETE "t-1" evs)) = ["e1"; "e2"]
  /\ map thread_title (fst (PUT "default" (Some "Inbox") evs))
     = [Some "Inbox"; Some "Inbox"; Some "Planning"].
Proof. repeat split; reflexivity. Qed.

End ThreadExtra.
